(** * Subject-aware crop planner: [advanced_smart_crop.py]

    A shallow embedding of [AdvancedSmartCropper] and of the properties
    its specification states about it.

    Numbers.  Pixel quantities (box coordinates, frame sizes, focus
    points, crop rectangles) are Python [int]s or integer-valued
    [float64]s; they are modelled as [Z].  Confidences, weights and
    ratios are [float64]s; they are modelled as exact rationals [Q].
    Every comparison the code makes against a float literal ([0.3],
    [0.4], [0.6], [1.5], [2.0]) has an integer quotient on its other
    side, whose distance to the literal is either zero or far larger
    than one unit in the last place, so the exact comparison and the
    [float64] one agree on all frame sizes that occur.  [int(...)] of a
    quotient is exact truncation; [float64] rounding can differ from it
    only where the exact quotient is within rounding error of an
    integer.  The weighted centroid of [calculate_smooth_focus] is such
    a place: a centroid that is an integer can come out of the float
    division just below it.  Module [Float64] gives that method with
    every rounding of its arithmetic written out, and the focus point
    is specified on it; the planner around it is stated on the exact
    arithmetic, from which the float one differs by at most one pixel
    of the point appended to the history.

    Inputs.  OpenCV is outside the module: a frame is modelled by the
    boxes the cascade classifiers return on it, a video by its
    properties and the outcome of each read.  A ["w:h"] aspect-ratio
    string is modelled by the two numbers [float] parses from it.  Every
    face carries its confidence, as [non_max_suppression] requires. *)

From Stdlib Require Import String DecimalString.
From Stdlib Require Import ZArith QArith Qabs Qround List Bool Lia Lqa.
From Stdlib Require Import Qpower Qreduction.
From Stdlib Require Import Sorting.Permutation Sorting.Sorted.
From Equations Require Import Equations.
Import ListNotations.

Set Implicit Arguments.

Local Open Scope Z_scope.

(** ** Python and numpy primitives *)

Definition Qlt_bool (a b : Q) : bool := negb (Qle_bool b a).

(** [int(q)] on a float: truncation towards zero. *)
Definition py_int (q : Q) : Z :=
  if Qle_bool 0 q then Qfloor q else Qceiling q.

(** [len(l)] as a Python [int]. *)
Definition len {A : Type} (l : list A) : Z := Z.of_nat (length l).

(** [l[-n:]]: the last [n] elements (all of [l] when it is shorter). *)
Definition lastn {A : Type} (n : nat) (l : list A) : list A :=
  skipn (length l - n) l.

(** A [float64] result of a numpy division, which never raises: a zero
    divisor yields [nan] or an infinity.  The divisor's zero is taken
    as [+0.0]. *)
Inductive npfloat : Type :=
| NaN
| PosInf
| NegInf
| Fin (q : Q).

Definition np_divide (a b : Q) : npfloat :=
  if Qeq_bool b 0 then
    if Qeq_bool a 0 then NaN
    else if Qlt_bool 0 a then PosInf else NegInf
  else Fin (a / b).

(** [v > t] on a numpy float; every comparison with [nan] is false. *)
Definition np_greater (v : npfloat) (t : Q) : bool :=
  match v with
  | NaN => false
  | PosInf => true
  | NegInf => false
  | Fin q => Qlt_bool t q
  end.

(** ** Detections *)

(** A face is the tuple [(x, y, w, h, confidence)]. *)
Record Detection : Type := mkDetection {
  det_x : Z;
  det_y : Z;
  det_w : Z;
  det_h : Z;
  det_conf : Q
}.

Definition no_face : Detection := mkDetection 0 0 0 0 0.

Definition det_area (d : Detection) : Z := det_w d * det_h d.

(** ** [non_max_suppression] *)

Module NMS.

Definition overlap_thresh_default : Q := 3 # 10.

(** [np.argsort(scores)]: indices in ascending order of score.  The
    order numpy gives to equal scores is that of its default sort, which
    is not stable and depends on the build; here equal scores stay in
    index order.  None of the properties below is stated on which of two
    detections of equal confidence is kept first. *)
Fixpoint insert_idx (scores : list Q) (i : nat) (sorted : list nat)
  : list nat :=
  match sorted with
  | [] => [i]
  | j :: rest =>
      if Qlt_bool (nth i scores 0%Q) (nth j scores 0%Q)
      then i :: j :: rest
      else j :: insert_idx scores i rest
  end.

Fixpoint argsort_upto (scores : list Q) (k : nat) : list nat :=
  match k with
  | O => []
  | S k' => insert_idx scores k' (argsort_upto scores k')
  end.

Definition argsort (scores : list Q) : list nat :=
  argsort_upto scores (length scores).

(** Intersection area of two boxes: lines 110-116, for one [j]. *)
Definition intersection (a b : Detection) : Z :=
  let xx1 := Z.max (det_x a) (det_x b) in
  let yy1 := Z.max (det_y a) (det_y b) in
  let xx2 := Z.min (det_x a + det_w a) (det_x b + det_w b) in
  let yy2 := Z.min (det_y a + det_h a) (det_y b + det_h b) in
  let w := Z.max 0 (xx2 - xx1) in
  let h := Z.max 0 (yy2 - yy1) in
  w * h.

(** Line 118: the overlap of [b] with the kept box [a],
    [(w * h) / ((x2[i] - x1[i]) * (y2[i] - y1[i]))]. *)
Definition overlap (a b : Detection) : npfloat :=
  np_divide (inject_Z (intersection a b))
            (inject_Z ((det_x a + det_w a - det_x a)
                       * (det_y a + det_h a - det_y a))).

Section Loop.
Variable faces : list Detection.
Variable overlap_thresh : Q.

Definition face_at (i : nat) : Detection := nth i faces no_face.

(** [true] for the candidates that line 120 leaves in [idxs]. *)
Definition survives (i j : nat) : bool :=
  negb (np_greater (overlap (face_at i) (face_at j)) overlap_thresh).

(** The [while len(idxs) > 0] loop; the result is [keep]. *)
Equations? nms_loop (idxs : list nat) : list nat
  by wf (length idxs) lt :=
  nms_loop [] := [];
  nms_loop (i :: rest) := i :: nms_loop (filter (survives i) rest).
Proof.
  simpl. pose proof (filter_length_le (survives i) rest). lia.
Qed.
End Loop.

Definition non_max_suppression (faces : list Detection)
           (overlap_thresh : Q) : list Detection :=
  if (len faces =? 0)%Z then []
  else
    let scores := map det_conf faces in
    let idxs := rev (argsort scores) in
    map (face_at faces) (nms_loop faces overlap_thresh idxs).

End NMS.

(** ** Exceptions and the tracker's state

    [self.tracking_history] is the only attribute the methods below
    mutate; a computation takes the history it finds and returns the one
    it leaves, together with a value or the exception it raised. *)

Inductive exn : Type :=
| ZeroDivisionError.

Inductive result (A : Type) : Type :=
| Ok (a : A)
| Raise (e : exn).

Arguments Ok {A} a.
Arguments Raise {A} e.

Definition FocusPoint : Type := (Z * Z)%type.
Definition TrackingHistory : Type := list FocusPoint.

Definition M (A : Type) : Type :=
  TrackingHistory -> result A * TrackingHistory.

Definition ret {A : Type} (a : A) : M A := fun h => (Ok a, h).

Definition bind {A B : Type} (m : M A) (f : A -> M B) : M B :=
  fun h =>
    match m h with
    | (Ok a, h') => f a h'
    | (Raise e, h') => (Raise e, h')
    end.

Definition raise {A : Type} (e : exn) : M A := fun h => (Raise e, h).

Definition get_history : M TrackingHistory := fun h => (Ok h, h).

Definition put_history (h' : TrackingHistory) : M unit :=
  fun _ => (Ok tt, h').

Notation "x <- m ;; k" := (bind m (fun x => k))
  (at level 61, m at next level, right associativity).
Notation "' pat <- m ;; k" := (bind m (fun x => match x with pat => k end))
  (at level 61, pat pattern, m at next level, right associativity).

(** [a / b] on Python floats. *)
Definition py_truediv (a b : Q) : M Q :=
  if Qeq_bool b 0 then raise ZeroDivisionError else ret (a / b)%Q.

(** [a // b] on Python ints. *)
Definition py_floordiv (a b : Z) : M Z :=
  if (b =? 0)%Z then raise ZeroDivisionError else ret (a / b)%Z.

(** [np.mean] of a list of ints; it is only applied to non-empty
    lists. *)
Definition np_mean (l : list Z) : Q :=
  (inject_Z (fold_right Z.add 0%Z l) / inject_Z (len l))%Q.

(** [min(...)] and [max(...)] over a generator; they are only applied to
    non-empty ones. *)
Definition py_min (l : list Z) : Z :=
  match l with
  | [] => 0
  | a :: rest => fold_left Z.min rest a
  end.

Definition py_max (l : list Z) : Z :=
  match l with
  | [] => 0
  | a :: rest => fold_left Z.max rest a
  end.

(** [sorted(l)] on a list of ints. *)
Fixpoint insert_sorted (a : Z) (l : list Z) : list Z :=
  match l with
  | [] => [a]
  | b :: rest => if (a <=? b)%Z then a :: b :: rest
                 else b :: insert_sorted a rest
  end.

Definition sorted (l : list Z) : list Z := fold_right insert_sorted [] l.

(** ** [calculate_smooth_focus] *)

Definition maxlen : nat := 10.

(** [deque.append] on a deque bounded by [maxlen]. *)
Definition deque_append (h : TrackingHistory) (p : FocusPoint)
  : TrackingHistory :=
  lastn maxlen (h ++ [p]).

(** One round of the [for face in faces] loop, lines 137-148, on
    [(total_x, total_y, total_weight)], in exact arithmetic; with the
    roundings of float64 it is [Float64.accumulate] below. *)
Definition accumulate (acc : Q * Q * Q) (face : Detection) : Q * Q * Q :=
  let '(total_x, total_y, total_weight) := acc in
  let confidence := det_conf face in
  let weight := (inject_Z (det_w face * det_h face)%Z * confidence)%Q in
  let center_x := det_x face + det_w face / 2 in
  let center_y := det_y face + det_h face / 2 in
  ((total_x + inject_Z center_x * weight)%Q,
   (total_y + inject_Z center_y * weight)%Q,
   (total_weight + weight)%Q).

Definition calculate_smooth_focus (faces : list Detection)
           (frame_width frame_height : Z) : M FocusPoint :=
  match faces with
  | [] =>
      tracking_history <- get_history ;;
      match tracking_history with
      | _ :: _ => ret (last tracking_history (0, 0))
      | [] => ret (frame_width / 2, frame_height / 2)
      end
  | _ :: _ =>
      let '(total_x, total_y, total_weight) :=
        fold_left accumulate faces (0%Q, 0%Q, 0%Q) in
      let '(new_x, new_y) :=
        if Qlt_bool 0 total_weight
        then (py_int (total_x / total_weight), py_int (total_y / total_weight))
        else (frame_width / 2, frame_height / 2) in
      tracking_history <- get_history ;;
      _ <- put_history (deque_append tracking_history (new_x, new_y)) ;;
      tracking_history <- get_history ;;
      if 3 <=? len tracking_history then
        let xs := map fst tracking_history in
        let ys := map snd tracking_history in
        let smooth_x := py_int (np_mean (lastn 3 xs)) in
        let smooth_y := py_int (np_mean (lastn 3 ys)) in
        ret (smooth_x, smooth_y)
      else ret (new_x, new_y)
  end.

(** ** [calculate_smooth_focus] in float64

    The same method with its arithmetic as Python computes it.  A
    float64 is modelled by the rational it denotes, an operation by the
    exact operation followed by [fl], the rounding to the nearest number
    of 53 significant bits, ties to the even one.  The exponent range is
    not modelled: no quantity of the method leaves it (a confidence is
    1.0, 0.8 or 0.6, an area and a coordinate are numpy [int32]s, which
    convert without rounding). *)

Module Float64.

(** [floor(log2 q)] for a positive [q]. *)
Definition ilog2 (q : Q) : Z :=
  let k := Z.log2 (Qnum q) - Z.log2 (Zpos (Qden q)) in
  if Qle_bool (2 ^ k) q then k else k - 1.

(** The integer nearest to [q], the even one of two at the same
    distance. *)
Definition round_half_even (q : Q) : Z :=
  let f := Qfloor q in
  let r := (q - inject_Z f)%Q in
  if Qlt_bool r (1 # 2) then f
  else if Qlt_bool (1 # 2) r then f + 1
  else if Z.even f then f else f + 1.

(** The number with 53 significant bits nearest to a positive [q]. *)
Definition nearest (q : Q) : Q :=
  let e := ilog2 q - 52 in
  (inject_Z (round_half_even (q / 2 ^ e)) * 2 ^ e)%Q.

(** The float64 nearest to [q]. *)
Definition fl (q : Q) : Q :=
  match Qred q ?= 0 with
  | Eq => 0
  | Gt => nearest (Qred q)
  | Lt => - nearest (- Qred q)
  end%Q.

(** Half the distance from 1 to the next float: [2^-53]. *)
Definition u : Q := 1 # 9007199254740992.

(** One round of the loop of lines 137-148: the literal confidence is
    the float nearest to it, the int32 area times it is rounded, and so
    are each product with a centre and each sum. *)
Definition accumulate (acc : Q * Q * Q) (face : Detection) : Q * Q * Q :=
  let '(total_x, total_y, total_weight) := acc in
  let confidence := fl (det_conf face) in
  let weight := fl (inject_Z (det_w face * det_h face)%Z * confidence) in
  let center_x := det_x face + det_w face / 2 in
  let center_y := det_y face + det_h face / 2 in
  (fl (total_x + fl (inject_Z center_x * weight)),
   fl (total_y + fl (inject_Z center_y * weight)),
   fl (total_weight + weight)).

(** Lines 124-171; [np.mean] of three ints sums them exactly and rounds
    the division. *)
Definition calculate_smooth_focus (faces : list Detection)
           (frame_width frame_height : Z) : M FocusPoint :=
  match faces with
  | [] =>
      tracking_history <- get_history ;;
      match tracking_history with
      | _ :: _ => ret (last tracking_history (0, 0))
      | [] => ret (frame_width / 2, frame_height / 2)
      end
  | _ :: _ =>
      let '(total_x, total_y, total_weight) :=
        fold_left accumulate faces (0%Q, 0%Q, 0%Q) in
      let '(new_x, new_y) :=
        if Qlt_bool 0 total_weight
        then (py_int (fl (total_x / total_weight)),
              py_int (fl (total_y / total_weight)))
        else (frame_width / 2, frame_height / 2) in
      tracking_history <- get_history ;;
      _ <- put_history (deque_append tracking_history (new_x, new_y)) ;;
      tracking_history <- get_history ;;
      if 3 <=? len tracking_history then
        let xs := map fst tracking_history in
        let ys := map snd tracking_history in
        let smooth_x := py_int (fl (np_mean (lastn 3 xs))) in
        let smooth_y := py_int (fl (np_mean (lastn 3 ys))) in
        ret (smooth_x, smooth_y)
      else ret (new_x, new_y)
  end.

End Float64.

(** ** [calculate_dynamic_crop] *)

Inductive Mode : Type :=
| mode_letterbox
| mode_smart
| mode_smart_smooth.

(** The dictionary a crop decision is returned as. *)
Record CropPlan : Type := mkCropPlan {
  mode : Mode;
  crop_x : Z;
  crop_y : Z;
  crop_w : Z;
  crop_h : Z;
  letterbox : bool;
  face_count : Z
}.

(** The two numbers of a ["w:h"] aspect-ratio string, as [float] reads
    them. *)
Record AspectRatio : Type := mkAspectRatio {
  aspect_w : Q;
  aspect_h : Q
}.

(** Lines 192-198: the box around all faces, as
    [(face_group_width, face_group_height)]. *)
Definition face_group (faces : list Detection) : Z * Z :=
  let min_x := py_min (map det_x faces) in
  let min_y := py_min (map det_y faces) in
  let max_x := py_max (map (fun f => det_x f + det_w f) faces) in
  let max_y := py_max (map (fun f => det_y f + det_h f) faces) in
  (max_x - min_x, max_y - min_y).

(** Lines 213-236. *)
Definition letterbox_crop (faces : list Detection)
           (frame_width frame_height focus_x focus_y : Z) : CropPlan :=
  let letterbox_height := frame_height in
  let letterbox_width := py_int (inject_Z (letterbox_height * 16) / 9) in
  let '(letterbox_width, letterbox_height) :=
    if letterbox_width >? frame_width
    then (frame_width, py_int (inject_Z (frame_width * 9) / 16))
    else (letterbox_width, letterbox_height) in
  let crop_x := focus_x - letterbox_width / 2 in
  let crop_y := focus_y - letterbox_height / 2 in
  let crop_x := Z.max 0 (Z.min crop_x (frame_width - letterbox_width)) in
  let crop_y := Z.max 0 (Z.min crop_y (frame_height - letterbox_height)) in
  mkCropPlan mode_letterbox crop_x crop_y letterbox_width letterbox_height
             true (len faces).

(** Lines 187-239: [Some] crop when the letterbox branch returns, [None]
    when control falls through to the standard crop. *)
Definition letterbox_branch (faces : list Detection)
           (frame_width frame_height : Z) (target_aspect : Q)
           (focus_x focus_y : Z) : M (option CropPlan) :=
  if Qlt_bool target_aspect 1 && (2 <=? len faces) then
    let '(face_group_width, face_group_height) := face_group faces in
    if 0 <? face_group_height then
      let face_aspect :=
        (inject_Z face_group_width / inject_Z face_group_height)%Q in
      horizontal_separation <-
        py_truediv (inject_Z face_group_width) (inject_Z frame_width) ;;
      if Qlt_bool (3 # 2) face_aspect
         && Qlt_bool (4 # 10) horizontal_separation
      then ret (Some (letterbox_crop faces frame_width frame_height
                                     focus_x focus_y))
      else ret None
    else ret None
  else ret None.

(** Lines 244-274.  The quotient and the product are truncated exactly;
    in float64 [target_aspect] and the quotient are rounded first, which
    moves the truncation by one pixel where the exact value is an
    integer (1120 / (21 / 9) is 480, and 479 in float64). *)
Definition standard_crop (faces : list Detection)
           (frame_width frame_height : Z) (target_aspect : Q)
           (focus_x focus_y : Z) : M CropPlan :=
  current_aspect <-
    py_truediv (inject_Z frame_width) (inject_Z frame_height) ;;
  '(target_width, target_height) <-
    (if Qlt_bool current_aspect target_aspect then
       q <- py_truediv (inject_Z frame_width) target_aspect ;;
       ret (frame_width, py_int q)
     else
       ret (py_int (inject_Z frame_height * target_aspect), frame_height)) ;;
  let crop_x := focus_x - target_width / 2 in
  let crop_y := focus_y - target_height / 2 in
  let crop_x := Z.max 0 (Z.min crop_x (frame_width - target_width)) in
  let crop_y := Z.max 0 (Z.min crop_y (frame_height - target_height)) in
  ret (mkCropPlan mode_smart crop_x crop_y target_width target_height
                  false (len faces)).

Definition calculate_dynamic_crop (faces : list Detection)
           (frame_width frame_height : Z)
           (target_aspect_ratio : AspectRatio) : M (option CropPlan) :=
  match faces with
  | [] => ret None
  | _ :: _ =>
      target_aspect <-
        py_truediv (aspect_w target_aspect_ratio)
                   (aspect_h target_aspect_ratio) ;;
      ' (focus_x, focus_y) <-
        calculate_smooth_focus faces frame_width frame_height ;;
      early <- letterbox_branch faces frame_width frame_height
                                target_aspect focus_x focus_y ;;
      match early with
      | Some crop => ret (Some crop)
      | None =>
          crop <- standard_crop faces frame_width frame_height
                                target_aspect focus_x focus_y ;;
          ret (Some crop)
      end
  end.

(** ** [detect_all_faces]

    A frame is what the cascade classifiers find in it: the detectors
    are OpenCV's, outside this module.  The two profile searches sit in
    [try]/[except: pass]; [None] is a search that raised.  [cvtColor],
    the frontal search and the upper-body search are not guarded, and an
    error raised by one of them leaves the method: a frame here is one
    on which they return, and what the code does when they raise is not
    part of the model. *)

Record Rect : Type := mkRect {
  rect_x : Z;
  rect_y : Z;
  rect_w : Z;
  rect_h : Z
}.

Record Frame : Type := mkFrame {
  frontal : list Rect;
  profile : option (list Rect);
  profile_flip : option (list Rect);
  gray_width : Z;
  bodies : list Rect
}.

Definition with_confidence (c : Q) (r : Rect) : Detection :=
  mkDetection (rect_x r) (rect_y r) (rect_w r) (rect_h r) c.

Definition detect_all_faces (frame : Frame) : list Detection :=
  let all_faces := map (with_confidence 1) (frontal frame) in
  let all_faces :=
    match profile frame with
    | Some found => all_faces ++ map (with_confidence (8 # 10)) found
    | None => all_faces
    end in
  let all_faces :=
    match profile_flip frame with
    | Some found =>
        let w := gray_width frame in
        all_faces
          ++ map (fun r => mkDetection (w - rect_x r - rect_w r) (rect_y r)
                                       (rect_w r) (rect_h r) (8 # 10))
                 found
    | None => all_faces
    end in
  let all_faces :=
    if len all_faces =? 0 then
      map (fun r =>
             let face_y := rect_y r + py_int (inject_Z (rect_h r) * (1 # 10)) in
             let face_h := py_int (inject_Z (rect_h r) * (3 # 10)) in
             mkDetection (rect_x r + rect_w r / 4) face_y
                         (rect_w r / 2) face_h (6 # 10))
          (bodies frame)
    else all_faces in
  NMS.non_max_suppression all_faces NMS.overlap_thresh_default.

(** ** [analyze_video_smooth] *)

(** What [cv2.VideoCapture] gives for a path: whether it opened, the
    stream's properties, and the outcome of [cap.read()] after a seek to
    a frame position ([None] when [ret] is false). *)
Record Video : Type := mkVideo {
  isOpened : bool;
  CAP_PROP_FRAME_WIDTH : Z;
  CAP_PROP_FRAME_HEIGHT : Z;
  CAP_PROP_FRAME_COUNT : Z;
  read : Z -> option Frame
}.

(** [range(n)]. *)
Definition range (n : Z) : list Z := map Z.of_nat (seq 0 (Z.to_nat n)).

Section Sampling.
Variable cap : Video.
Variable target_aspect_ratio : AspectRatio.
Variable sample_interval : Z.

Definition frame_pos (i : Z) : Z :=
  Z.min (i * sample_interval) (CAP_PROP_FRAME_COUNT cap - 1).

(** The [for i in range(num_samples)] loop, lines 299-315, over the
    indices still to visit; the result is [(all_crops, face_counts)]. *)
Fixpoint sample_frames (idxs : list Z) (all_crops : list CropPlan)
         (face_counts : list Z) : M (list CropPlan * list Z) :=
  match idxs with
  | [] => ret (all_crops, face_counts)
  | i :: rest =>
      match read cap (frame_pos i) with
      | None => ret (all_crops, face_counts)
      | Some frame =>
          let faces := detect_all_faces frame in
          let face_counts := face_counts ++ [len faces] in
          match faces with
          | [] => sample_frames rest all_crops face_counts
          | _ :: _ =>
              crop <- calculate_dynamic_crop
                        faces (CAP_PROP_FRAME_WIDTH cap)
                        (CAP_PROP_FRAME_HEIGHT cap) target_aspect_ratio ;;
              match crop with
              | Some c => sample_frames rest (all_crops ++ [c]) face_counts
              | None => sample_frames rest all_crops face_counts
              end
          end
      end
  end.
End Sampling.

(** Lines 328-329. *)
Definition letterbox_crops (all_crops : list CropPlan) : list CropPlan :=
  filter letterbox all_crops.

Definition letterbox_rate (all_crops : list CropPlan) : Q :=
  match all_crops with
  | [] => 0
  | _ :: _ => inject_Z (len (letterbox_crops all_crops))
              / inject_Z (len all_crops)
  end.

(** Line 324. *)
Definition avg_faces (face_counts : list Z) : Q :=
  match face_counts with
  | [] => 0
  | _ :: _ => np_mean face_counts
  end.

(** Line 334. *)
Definition letterbox_confirmed (all_crops : list CropPlan)
           (face_counts : list Z) : bool :=
  Qle_bool 2 (avg_faces face_counts)
  && Qlt_bool (6 # 10) (letterbox_rate all_crops).

(** [l[i]] for an index that the code keeps in range. *)
Definition index (l : list Z) (i : Z) : Z := nth (Z.to_nat i) l 0.

Definition no_crop : CropPlan := mkCropPlan mode_smart 0 0 0 0 false 0.

Definition crop_at (l : list CropPlan) (i : Z) : CropPlan :=
  nth (Z.to_nat i) l no_crop.

(** Lines 319-365: the decision, from the samples collected. *)
Definition decide (all_crops : list CropPlan) (face_counts : list Z)
  : option CropPlan :=
  match all_crops with
  | [] => None
  | _ :: _ =>
      if letterbox_confirmed all_crops face_counts then
        Some (crop_at (letterbox_crops all_crops)
                      (len (letterbox_crops all_crops) / 2))
      else
        let crop_xs := sorted (map crop_x all_crops) in
        let crop_ys := sorted (map crop_y all_crops) in
        let crop_ws := sorted (map crop_w all_crops) in
        let crop_hs := sorted (map crop_h all_crops) in
        let median_idx := len all_crops / 2 in
        let avg_x := index crop_xs median_idx in
        let avg_y := index crop_ys median_idx in
        let crop_w := index crop_ws median_idx in
        let crop_h := index crop_hs median_idx in
        Some (mkCropPlan mode_smart_smooth avg_x avg_y crop_w crop_h false 1)
  end.

Definition analyze_video_smooth (cap : Video)
           (target_aspect_ratio : AspectRatio) (num_samples : Z)
  : M (option CropPlan) :=
  if negb (isOpened cap) then ret None
  else
    let total_frames := CAP_PROP_FRAME_COUNT cap in
    q <- py_floordiv total_frames num_samples ;;
    let sample_interval := Z.max 1 q in
    ' (all_crops, face_counts) <-
      sample_frames cap target_aspect_ratio sample_interval
                    (range num_samples) [] [] ;;
    ret (decide all_crops face_counts).

(** ** The module-level cropper

    [advanced_cropper = AdvancedSmartCropper()] is built once, when the
    module is imported, with an empty history; every call of
    [smooth_smart_crop_video] analyses its video on this one instance.
    An exception of the analysis is caught by the caller's [try], the
    history stays as the analysis left it. *)

Definition advanced_cropper : TrackingHistory := [].

Definition num_samples_default : Z := 15.

Definition Job : Type := (Video * AspectRatio)%type.

(** The crop decisions of successive [smooth_smart_crop_video] calls. *)
Fixpoint analyses (jobs : list Job) (tracking_history : TrackingHistory)
  : list (result (option CropPlan)) * TrackingHistory :=
  match jobs with
  | [] => ([], tracking_history)
  | (input, aspect_ratio) :: rest =>
      let '(crop_data, tracking_history) :=
        analyze_video_smooth input aspect_ratio num_samples_default
                             tracking_history in
      let '(later, tracking_history) := analyses rest tracking_history in
      (crop_data :: later, tracking_history)
  end.

(** * The callers: [smooth_smart_crop_video] and [format_video_clip]

    [smooth_smart_crop_video] of [advanced_smart_crop.py] turns the
    decision of [analyze_video_smooth] into an ffmpeg command and runs
    it; [format_video_clip] of [app.py] calls it for vertical clips and
    falls back to a centre crop.  Paths, filters and commands are
    strings; ffprobe, ffmpeg and the file system are outside the
    modules and are read from a [World]. *)

(** ** Strings, dictionaries and caught exceptions *)

(** Both callers run their whole body under [try: ... except Exception],
    log the exception and return [False]: which exception was raised is
    never observed.  Code under such a handler is written in the option
    monad, [None] standing for a raised exception. *)
Definition caught (body : option bool) : bool :=
  match body with
  | Some b => b
  | None => false
  end.

Notation "x <~ m ;; k" :=
  (match m with Some x => k | None => None end)
  (at level 61, m at next level, right associativity).
Notation "' pat <~ m ;; k" :=
  (match m with Some pat => k | None => None end)
  (at level 61, pat pattern, m at next level, right associativity).

(** [d[key]] on a dictionary with string keys, given by its items;
    [None] is [KeyError]. *)
Fixpoint getitem {A : Type} (d : list (string * A)) (key : string)
  : option A :=
  match d with
  | [] => None
  | (k, v) :: rest => if String.eqb k key then Some v else getitem rest key
  end.

(** [f"{n}"] on an int. *)
Definition py_str (n : Z) : string := NilZero.string_of_int (Z.to_int n).

(** [s[:-1]]. *)
Definition but_last (s : string) : string :=
  substring 0 (String.length s - 1) s.

(** [int(s)] on a string of decimal digits, the only strings it is
    applied to; [None] is [ValueError]. *)
Definition int_of_str (s : string) : option Z :=
  match s with
  | EmptyString => None
  | _ => option_map Z.of_uint (NilZero.uint_of_string s)
  end.

(** [a / b] on ints, under a handler. *)
Definition truediv (a b : Z) : option Q :=
  if b =? 0 then None else Some (inject_Z a / inject_Z b)%Q.

(** ** What lies outside the two modules *)

Record World : Type := mkWorld {
  (** [cv2.VideoCapture(path)] *)
  VideoCapture : string -> Video;
  (** lines 437-442 of [advanced_smart_crop.py]: the width and the
      height [ffprobe] reports for a path; [None] when
      [subprocess.run], [json.loads] or an index raises. *)
  ffprobe : string -> option (Z * Z);
  (** [get_video_dimensions(path)] of [app.py]: [None] is its
      [(None, None)]. *)
  get_video_dimensions : string -> option (Z * Z);
  (** [subprocess.run(cmd, capture_output=True, timeout=t).returncode];
      [None] when the call raises, as on a timeout. *)
  subprocess_run : list string -> Z -> option Z;
  (** [SMART_CROP_AVAILABLE] (lines 30-43 of [app.py]): set when
      [advanced_smart_crop] has been imported.  The basic module
      [smart_crop] of the second import is not among the sources. *)
  SMART_CROP_AVAILABLE : bool
}.

(** An [aspect_ratio] argument: the string, a dictionary key in line
    451, and the two numbers [float] reads from its parts in lines
    179-180. *)
Record RatioArg : Type := mkRatioArg {
  ratio_text : string;
  ratio_parts : AspectRatio
}.

Local Open Scope string_scope.

(** ** [generate_smooth_ffmpeg_filter] (lines 367-418) *)

Definition generate_smooth_ffmpeg_filter (crop_data : option CropPlan)
           (input_width input_height target_width target_height : Z)
  : option string :=
  match crop_data with
  | None => None
  | Some crop_data =>
      if letterbox crop_data then
        let filter_str :=
          "[0:v]scale=" ++ py_str target_width ++ ":"
            ++ py_str target_height
            ++ ":force_original_aspect_ratio=increase,"
            ++ "crop=" ++ py_str target_width ++ ":"
            ++ py_str target_height ++ ",gblur=sigma=20[bg];"
            ++ "[0:v]crop=" ++ py_str (crop_w crop_data) ++ ":"
            ++ py_str (crop_h crop_data) ++ ":"
            ++ py_str (crop_x crop_data) ++ ":"
            ++ py_str (crop_y crop_data) ++ ","
            ++ "scale=" ++ py_str target_width ++ ":-1[fg];"
            ++ "[bg][fg]overlay=(W-w)/2:(H-h)/2,setsar=1" in
        Some filter_str
      else
        let filter_str :=
          "crop=" ++ py_str (crop_w crop_data) ++ ":"
            ++ py_str (crop_h crop_data) ++ ":"
            ++ py_str (crop_x crop_data) ++ ":"
            ++ py_str (crop_y crop_data) in
        let filter_str :=
          if negb (crop_w crop_data =? target_width)%Z
             || negb (crop_h crop_data =? target_height)%Z
          then filter_str ++ ",scale=" ++ py_str target_width ++ ":"
                 ++ py_str target_height
          else filter_str in
        let filter_str :=
          filter_str ++ ",setsar=1,setdar=" ++ py_str target_width ++ "/"
            ++ py_str target_height in
        Some filter_str
  end.

(** ** [smooth_smart_crop_video] (lines 424-509) *)

Definition smooth_smart_crop_video (world : World)
           (input_path output_path : string) (aspect_ratio : RatioArg)
           (resolution : string) (tracking_history : TrackingHistory)
  : bool * TrackingHistory :=
  let '(crop_data, tracking_history) :=
    analyze_video_smooth (VideoCapture world input_path)
                         (ratio_parts aspect_ratio) num_samples_default
                         tracking_history in
  (match crop_data with
   | Raise _ => false
   | Ok None => false
   | Ok (Some crop_data) =>
       caught (
         ' (input_width, input_height) <~ ffprobe world input_path ;;
         let resolution_map :=
           [("1080p", [("9:16", (1080, 1920)); ("16:9", (1920, 1080));
                       ("1:1", (1080, 1080))]);
            ("720p", [("9:16", (720, 1280)); ("16:9", (1280, 720));
                      ("1:1", (720, 720))]);
            ("480p", [("9:16", (480, 854)); ("16:9", (854, 480));
                      ("1:1", (480, 480))])] in
         by_ratio <~ getitem resolution_map resolution ;;
         ' (target_w, target_h) <~ getitem by_ratio
                                           (ratio_text aspect_ratio) ;;
         match generate_smooth_ffmpeg_filter (Some crop_data)
                 input_width input_height target_w target_h with
         | None => Some false
         | Some "" => Some false
         | Some filter_str =>
             let bitrates :=
               [("1080p", "3M"); ("720p", "2M"); ("480p", "1M")] in
             bitrate <~ getitem bitrates resolution ;;
             let cmd :=
               if letterbox crop_data then
                 ["ffmpeg"; "-i"; input_path;
                  "-filter_complex"; filter_str;
                  "-c:v"; "libx264"; "-b:v"; bitrate;
                  "-c:a"; "aac"; "-preset"; "medium";
                  "-movflags"; "+faststart"; "-y"; output_path]
               else
                 ["ffmpeg"; "-i"; input_path;
                  "-vf"; filter_str;
                  "-c:v"; "libx264"; "-b:v"; bitrate;
                  "-c:a"; "aac"; "-preset"; "medium";
                  "-movflags"; "+faststart"; "-y"; output_path] in
             returncode <~ subprocess_run world cmd 120 ;;
             Some (returncode =? 0)%Z
         end)
   end, tracking_history).

(** * [app.py]: the clip formatter *)

(** ** [format_video_with_letterbox] (lines 824-912) *)

Definition format_video_with_letterbox (world : World)
           (input_path output_path resolution : string) : bool :=
  caught (
    let resolution_map :=
      [("4K", (2160, 3840)); ("1080p", (1080, 1920));
       ("720p", (720, 1280)); ("480p", (480, 854))] in
    let bitrates :=
      [("4K", "100M"); ("1080p", "30M"); ("720p", "5M"); ("480p", "2M")] in
    ' (target_w, target_h) <~ getitem resolution_map resolution ;;
    bitrate <~ getitem bitrates resolution ;;
    let letterbox_w := target_w in
    let letterbox_h := py_int (inject_Z (target_w * 9) / 16) in
    let filter_complex :=
      "[0:v]scale=" ++ py_str target_w ++ ":" ++ py_str target_h
        ++ ":force_original_aspect_ratio=increase,"
        ++ "crop=" ++ py_str target_w ++ ":" ++ py_str target_h
        ++ ",gblur=sigma=25[bg];"
        ++ "[0:v]scale=" ++ py_str letterbox_w ++ ":" ++ py_str letterbox_h
        ++ ":force_original_aspect_ratio=decrease[fg];"
        ++ "[bg][fg]overlay=(W-w)/2:(H-h)/2,setsar=1,setdar="
        ++ py_str target_w ++ "/" ++ py_str target_h in
    let preset_map :=
      [("4K", "medium"); ("1080p", "slow"); ("720p", "slow");
       ("480p", "medium")] in
    preset <~ getitem preset_map resolution ;;
    rate <~ int_of_str (but_last bitrate) ;;
    let cmd :=
      ["ffmpeg"; "-i"; input_path;
       "-filter_complex"; filter_complex;
       "-c:v"; "libx264"; "-b:v"; bitrate; "-maxrate"; bitrate;
       "-bufsize"; py_str (rate * 2) ++ "M";
       "-c:a"; "aac"; "-b:a"; "192k"; "-preset"; preset;
       "-crf"; "18"; "-movflags"; "+faststart"; "-y"; output_path] in
    let timeout_map :=
      [("4K", 1800); ("1080p", 900); ("720p", 240); ("480p", 180)]%Z in
    timeout <~ getitem timeout_map resolution ;;
    returncode <~ subprocess_run world cmd timeout ;;
    Some (returncode =? 0)%Z).

(** ** [format_video_clip] (lines 915-1041) *)

(** Lines 968-986: the scale and the crop of the centre crop, as
    [(scale_w, scale_h, crop_x, crop_y)]. *)
Definition center_crop (input_width input_height
                        target_width target_height : Z)
  : option (Z * Z * Z * Z) :=
  target_aspect <~ truediv target_width target_height ;;
  input_aspect <~ truediv input_width input_height ;;
  if Qlt_bool target_aspect input_aspect then
    q <~ truediv (input_width * target_height) input_height ;;
    let scale_w := py_int q in
    let scale_h := target_height in
    let crop_x := py_int (inject_Z (scale_w - target_width) / 2) in
    let crop_y := 0%Z in
    Some (scale_w, scale_h, crop_x, crop_y)
  else
    let scale_w := target_width in
    q <~ truediv (input_height * target_width) input_width ;;
    let scale_h := py_int q in
    let crop_x := 0%Z in
    let crop_y := py_int (inject_Z (scale_h - target_height) / 2) in
    Some (scale_w, scale_h, crop_x, crop_y).

Definition format_video_clip (world : World)
           (input_path output_path aspect_ratio resolution : string)
           (use_letterbox : bool) (tracking_history : TrackingHistory)
  : bool * TrackingHistory :=
  if use_letterbox && (aspect_ratio =? "9:16") then
    (format_video_with_letterbox world input_path output_path resolution,
     tracking_history)
  else
    let '(cropped, tracking_history) :=
      if SMART_CROP_AVAILABLE world && (aspect_ratio =? "9:16")
         && negb use_letterbox
      then smooth_smart_crop_video world input_path output_path
                                   (mkRatioArg aspect_ratio
                                               (mkAspectRatio 9 16))
                                   resolution tracking_history
      else (false, tracking_history) in
    if cropped then (true, tracking_history)
    else
      (caught (
         match get_video_dimensions world input_path with
         | None => Some false
         | Some (input_width, input_height) =>
             if (input_width =? 0)%Z || (input_height =? 0)%Z
             then Some false
             else
               let resolution_targets :=
                 [("4K", [("9:16", (2160, 3840)); ("16:9", (3840, 2160));
                          ("1:1", (2160, 2160))]);
                  ("1080p", [("9:16", (1080, 1920)); ("16:9", (1920, 1080));
                             ("1:1", (1080, 1080))]);
                  ("720p", [("9:16", (720, 1280)); ("16:9", (1280, 720));
                            ("1:1", (720, 720))]);
                  ("480p", [("9:16", (480, 854)); ("16:9", (854, 480));
                            ("1:1", (480, 480))])] in
               let bitrates :=
                 [("4K", "100M"); ("1080p", "30M"); ("720p", "5M");
                  ("480p", "2M")] in
               by_ratio <~ getitem resolution_targets resolution ;;
               ' (target_width, target_height) <~
                 getitem by_ratio aspect_ratio ;;
               bitrate <~ getitem bitrates resolution ;;
               ' (scale_w, scale_h, crop_x, crop_y) <~
                 center_crop input_width input_height
                             target_width target_height ;;
               let filter_complex :=
                 "scale=" ++ py_str scale_w ++ ":" ++ py_str scale_h
                   ++ ",crop=" ++ py_str target_width ++ ":"
                   ++ py_str target_height ++ ":" ++ py_str crop_x ++ ":"
                   ++ py_str crop_y in
               let filter_complex :=
                 filter_complex ++ ",setsar=1,setdar="
                   ++ py_str target_width ++ "/" ++ py_str target_height in
               let preset_map :=
                 [("4K", "medium"); ("1080p", "slow"); ("720p", "slow");
                  ("480p", "medium")] in
               preset <~ getitem preset_map resolution ;;
               rate <~ int_of_str (but_last bitrate) ;;
               let cmd :=
                 ["ffmpeg"; "-i"; input_path; "-vf"; filter_complex;
                  "-c:v"; "libx264"; "-b:v"; bitrate; "-maxrate"; bitrate;
                  "-bufsize"; py_str (rate * 2) ++ "M";
                  "-c:a"; "aac"; "-b:a"; "192k"; "-preset"; preset;
                  "-crf"; "18"; "-movflags"; "+faststart"; "-y";
                  output_path] in
               let timeout_map :=
                 [("4K", 1800); ("1080p", 900); ("720p", 240);
                  ("480p", 180)]%Z in
               timeout <~ getitem timeout_map resolution ;;
               returncode <~ subprocess_run world cmd timeout ;;
               Some (returncode =? 0)%Z
         end),
       tracking_history).

Local Close Scope string_scope.

(** * Vocabulary of the statements *)

(** Ascending scores, as [argsort] leaves its indices. *)
Definition score_le (scores : list Q) (i j : nat) : Prop :=
  (nth i scores 0 <= nth j scores 0)%Q.

(** [b], kept after [a], is not above the threshold against [a]. *)
Definition separated (thresh : Q) (a b : Detection) : Prop :=
  np_greater (NMS.overlap a b) thresh = false
  /\ (det_conf b <= det_conf a)%Q.

Definition separated_strictly (p q : nat) (kept : list Detection)
           (thresh : Q) : Prop :=
  np_greater (NMS.overlap (NMS.face_at kept p) (NMS.face_at kept q)) thresh
  = false
  /\ (det_conf (NMS.face_at kept q) < det_conf (NMS.face_at kept p))%Q.

(** The focus point in the specification's words: the weight of a
    detection is its area times its confidence, the focus is the weighted
    average of the detection centres. *)
Module FocusSpec.

Definition weight (d : Detection) : Q :=
  inject_Z (det_area d) * det_conf d.

Definition center (d : Detection) : Z * Z :=
  (det_x d + det_w d / 2, det_y d + det_h d / 2).

Definition Qsum (l : list Q) : Q := fold_right Qplus 0%Q l.

Definition total_weight (faces : list Detection) : Q :=
  Qsum (map weight faces).

Definition centroid_x (faces : list Detection) : Q :=
  Qsum (map (fun d => inject_Z (fst (center d)) * weight d)%Q faces)
  / total_weight faces.

Definition centroid_y (faces : list Detection) : Q :=
  Qsum (map (fun d => inject_Z (snd (center d)) * weight d)%Q faces)
  / total_weight faces.

Definition frame_center (frame_width frame_height : Z) : FocusPoint :=
  (frame_width / 2, frame_height / 2).

Definition mean3 (a b c : Z) : Q := inject_Z (a + b + c) / 3.

(** The specification's sentence on a non-empty detection list, read
    to the letter: the
    point appended to the history is the weighted centroid, and the
    point emitted is the mean of the last three entries once there are
    three, the appended point before. *)
Definition literal_claim (faces : list Detection)
           (frame_width frame_height : Z) (h : TrackingHistory) : Prop :=
  exists (raw emitted : FocusPoint) (h' : TrackingHistory),
    Float64.calculate_smooth_focus faces frame_width frame_height h
    = (Ok emitted, h')
    /\ h' = deque_append h raw
    /\ (inject_Z (fst raw) == centroid_x faces)%Q
    /\ (inject_Z (snd raw) == centroid_y faces)%Q
    /\ ((length h' < 3)%nat -> emitted = raw)
    /\ (forall older p1 p2 p3, h' = older ++ [p1; p2; p3] ->
          (inject_Z (fst emitted) == mean3 (fst p1) (fst p2) (fst p3))%Q
          /\ (inject_Z (snd emitted)
              == mean3 (snd p1) (snd p2) (snd p3))%Q).

End FocusSpec.

(** The two halves of [calculate_smooth_focus] on a non-empty list:
    the point of lines 133-155, and the point returned by lines 160-171
    from the history after the append. *)
Definition raw_focus (faces : list Detection)
           (frame_width frame_height : Z) : FocusPoint :=
  let sums := fold_left accumulate faces (0%Q, 0%Q, 0%Q) in
  if Qlt_bool 0 (snd sums)
  then (py_int (fst (fst sums) / snd sums),
        py_int (snd (fst sums) / snd sums))
  else (frame_width / 2, frame_height / 2).

Definition smoothed (raw : FocusPoint) (h : TrackingHistory) : FocusPoint :=
  if 3 <=? len h
  then (py_int (np_mean (lastn 3 (map fst h))),
        py_int (np_mean (lastn 3 (map snd h))))
  else raw.

(** The target aspect ratio, and the test of lines 187-209 on one
    sampled frame. *)
Definition target_aspect_of (target_aspect_ratio : AspectRatio) : Q :=
  aspect_w target_aspect_ratio / aspect_h target_aspect_ratio.


Definition letterbox_eligibleb (faces : list Detection) (frame_width : Z)
           (target_aspect : Q) : bool :=
  let group_width := fst (face_group faces) in
  let group_height := snd (face_group faces) in
  Qlt_bool target_aspect 1 && (2 <=? len faces)
  && ((0 <? group_height)
      && (Qlt_bool (3 # 2) (inject_Z group_width / inject_Z group_height)
          && Qlt_bool (4 # 10)
                      (inject_Z group_width / inject_Z frame_width))).

(** The crop of lines 244-274 around a focus point. *)
Definition standard_dims (frame_width frame_height : Z) (target_aspect : Q)
  : Z * Z :=
  if Qlt_bool (inject_Z frame_width / inject_Z frame_height) target_aspect
  then (frame_width, py_int (inject_Z frame_width / target_aspect))
  else (py_int (inject_Z frame_height * target_aspect), frame_height).

Definition standard_plan (faces : list Detection)
           (frame_width frame_height : Z) (target_aspect : Q)
           (focus : FocusPoint) : CropPlan :=
  let target_width := fst (standard_dims frame_width frame_height
                                         target_aspect) in
  let target_height := snd (standard_dims frame_width frame_height
                                          target_aspect) in
  mkCropPlan mode_smart
    (Z.max 0 (Z.min (fst focus - target_width / 2)
                    (frame_width - target_width)))
    (Z.max 0 (Z.min (snd focus - target_height / 2)
                    (frame_height - target_height)))
    target_width target_height false (len faces).

(** How far a crop region's width:height is from a ratio. *)
Definition aspect_error (plan : CropPlan) (ratio : Q) : Q :=
  Qabs (inject_Z (crop_w plan) / inject_Z (crop_h plan) - ratio).

(** The clip-level condition of line 334, on the candidates and the
    detection counts collected from the samples. *)
Definition hysteresis (all_crops : list CropPlan) (face_counts : list Z)
  : Prop :=
  (2 <= avg_faces face_counts)%Q
  /\ (6 # 10 < inject_Z (len (letterbox_crops all_crops))
               / inject_Z (len all_crops))%Q.

(** [m] is the middle element of the values [l] put in order. *)
Definition is_median (l : list Z) (m : Z) : Prop :=
  exists s, Permutation s l
            /\ StronglySorted Z.le s
            /\ nth_error s (length l / 2) = Some m.

(** A capture that differs from [cap] in what its reads return. *)
Definition with_read (cap : Video) (r : Z -> option Frame) : Video :=
  mkVideo (isOpened cap) (CAP_PROP_FRAME_WIDTH cap)
          (CAP_PROP_FRAME_HEIGHT cap) (CAP_PROP_FRAME_COUNT cap) r.

(** The sampling loop in the specification's words, where a frame that
    cannot be read is skipped and the later indices are still visited:
    [continue] in the place of line 305's [break]. *)
Fixpoint sample_frames_skipping (cap : Video)
         (target_aspect_ratio : AspectRatio) (sample_interval : Z)
         (idxs : list Z) (all_crops : list CropPlan) (face_counts : list Z)
  : M (list CropPlan * list Z) :=
  match idxs with
  | [] => ret (all_crops, face_counts)
  | i :: rest =>
      match read cap (frame_pos cap sample_interval i) with
      | None =>
          sample_frames_skipping cap target_aspect_ratio sample_interval
                                 rest all_crops face_counts
      | Some frame =>
          let faces := detect_all_faces frame in
          let face_counts := face_counts ++ [len faces] in
          match faces with
          | [] =>
              sample_frames_skipping cap target_aspect_ratio sample_interval
                                     rest all_crops face_counts
          | _ :: _ =>
              crop <- calculate_dynamic_crop
                        faces (CAP_PROP_FRAME_WIDTH cap)
                        (CAP_PROP_FRAME_HEIGHT cap) target_aspect_ratio ;;
              match crop with
              | Some c =>
                  sample_frames_skipping cap target_aspect_ratio
                                         sample_interval rest
                                         (all_crops ++ [c]) face_counts
              | None =>
                  sample_frames_skipping cap target_aspect_ratio
                                         sample_interval rest
                                         all_crops face_counts
              end
          end
      end
  end.

(** Two histories with the same last two entries. *)
Definition same_recent (h1 h2 : TrackingHistory) : Prop :=
  lastn 2 h1 = lastn 2 h2.

(** A computation whose value depends on the history it starts from
    through the last two entries only, and which keeps two such
    histories alike. *)
Definition recent_only {A : Type} (m : M A) : Prop :=
  forall h1 h2, same_recent h1 h2 ->
    fst (m h1) = fst (m h2) /\ same_recent (snd (m h1)) (snd (m h2)).

(** A sample's candidate is a letterbox crop flagged as such, or a
    standard crop. *)
Definition consistent (plan : CropPlan) : Prop :=
  (mode plan = mode_letterbox /\ letterbox plan = true)
  \/ (mode plan = mode_smart /\ letterbox plan = false).

(** The crop of lines 341-365. *)
Definition median_plan (all_crops : list CropPlan) : CropPlan :=
  let median_idx := len all_crops / 2 in
  mkCropPlan mode_smart_smooth
             (index (sorted (map crop_x all_crops)) median_idx)
             (index (sorted (map crop_y all_crops)) median_idx)
             (index (sorted (map crop_w all_crops)) median_idx)
             (index (sorted (map crop_h all_crops)) median_idx)
             false 1.

(** Sample clips: 1920x1080 frames in which the frontal cascade finds
    the given boxes and the other cascades find nothing. *)
Definition frame_of (found : list Rect) : Frame :=
  mkFrame found (Some []) (Some []) 1920 [].

Definition two_apart : Frame :=
  frame_of [mkRect 100 400 80 80; mkRect 1700 420 80 80].

Definition one_centered : Frame := frame_of [mkRect 920 500 80 80].

Definition one_left : Frame := frame_of [mkRect 100 500 80 80].

Definition clip (frames : list (option Frame)) : Video :=
  mkVideo true 1920 1080 (len frames)
          (fun pos => if pos <? 0 then None
                      else nth (Z.to_nat pos) frames None).

Definition portrait : AspectRatio := mkAspectRatio 9 16.

Definition nobody : Frame := frame_of [].

(** Fifteen frames with a face at the centre in the first three only,
    and fifteen frames with a face at the left. *)
Definition opening_face : Video :=
  clip (repeat (Some one_centered) 3 ++ repeat (Some nobody) 12).

Definition left_face : Video := clip (repeat (Some one_left) 15).

(** Boxes inside a frame of [W] by [H] pixels. *)
Definition rect_inside (W H : Z) (r : Rect) : Prop :=
  0 <= rect_x r /\ 0 <= rect_w r /\ rect_x r + rect_w r <= W
  /\ 0 <= rect_y r /\ 0 <= rect_h r /\ rect_y r + rect_h r <= H.

Definition det_inside (W H : Z) (d : Detection) : Prop :=
  0 <= det_x d /\ 0 <= det_w d /\ det_x d + det_w d <= W
  /\ 0 <= det_y d /\ 0 <= det_h d /\ det_y d + det_h d <= H.

(** What a profile search found, if it did not raise. *)
Definition found (search : option (list Rect)) : list Rect :=
  match search with
  | Some l => l
  | None => []
  end.

(** The steps of [detect_all_faces]: the list [all_faces] holds after
    the three face searches, and the estimates of line 83 that replace
    it when it is empty. *)
Definition face_candidates (frame : Frame) : list Detection :=
  map (with_confidence 1) (frontal frame)
  ++ map (with_confidence (8 # 10)) (found (profile frame))
  ++ map (fun r => mkDetection (gray_width frame - rect_x r - rect_w r)
                               (rect_y r) (rect_w r) (rect_h r) (8 # 10))
         (found (profile_flip frame)).

Definition body_candidates (frame : Frame) : list Detection :=
  map (fun r =>
         let face_y := rect_y r + py_int (inject_Z (rect_h r) * (1 # 10)) in
         let face_h := py_int (inject_Z (rect_h r) * (3 # 10)) in
         mkDetection (rect_x r + rect_w r / 4) face_y
                     (rect_w r / 2) face_h (6 # 10))
      (bodies frame).

(** A point on a pixel of the frame, and a detection that weighs in
    with a centre on a pixel of the frame. *)
Definition in_frame (frame_width frame_height : Z) (p : FocusPoint)
  : Prop :=
  0 <= fst p < frame_width /\ 0 <= snd p < frame_height.

Definition centered_in_frame (frame_width frame_height : Z)
           (d : Detection) : Prop :=
  in_frame frame_width frame_height (FocusSpec.center d)
  /\ 0 <= det_w d /\ 0 <= det_h d /\ (0 <= det_conf d)%Q.

(** The two halves of [Float64.calculate_smooth_focus] on a non-empty
    list: the point of lines 133-155 and the point of lines 160-171. *)
Definition raw_focus64 (faces : list Detection)
           (frame_width frame_height : Z) : FocusPoint :=
  let sums := fold_left Float64.accumulate faces (0%Q, 0%Q, 0%Q) in
  if Qlt_bool 0 (snd sums)
  then (py_int (Float64.fl (fst (fst sums) / snd sums)),
        py_int (Float64.fl (snd (fst sums) / snd sums)))
  else (frame_width / 2, frame_height / 2).

Definition smoothed64 (raw : FocusPoint) (h : TrackingHistory) : FocusPoint :=
  if 3 <=? len h
  then (py_int (Float64.fl (np_mean (lastn 3 (map fst h)))),
        py_int (Float64.fl (np_mean (lastn 3 (map snd h)))))
  else raw.

(** [x] is the exact quantity [b], which is not negative, after at most
    [k] roundings. *)
Definition near (k x b : Q) : Prop :=
  (0 <= b)%Q
  /\ ((1 - k * Float64.u) * b <= x)%Q
  /\ (x <= (1 + 2 * k * Float64.u) * b)%Q.

Definition nonneg_box (d : Detection) : Prop :=
  0 <= fst (FocusSpec.center d) /\ 0 <= snd (FocusSpec.center d)
  /\ 0 <= det_w d /\ 0 <= det_h d /\ (0 <= det_conf d)%Q.

Definition count (faces : list Detection) : Q :=
  inject_Z (Z.of_nat (length faces)).

(** Detections on a frame of the sizes a video has: every centre on a
    pixel of the frame, with a width, a height and a confidence that
    are not negative, and few enough of them for the frame. *)
Definition pixel_sized (faces : list Detection)
           (frame_width frame_height : Z) : Prop :=
  Forall (centered_in_frame frame_width frame_height) faces
  /\ (Z.of_nat (length faces) + 4) * Z.max frame_width frame_height
     <= 2 ^ 50.

Definition within_a_pixel (a b : Z) : Prop := b - 1 <= a <= b + 1.

Definition pixel_coordinates (p : FocusPoint) : Prop :=
  0 <= fst p < 2 ^ 50 /\ 0 <= snd p < 2 ^ 50.

(** A computation that leaves at most [maxlen] entries in a history
    that held at most [maxlen]. *)
Definition keeps_bounded {A : Type} (m : M A) : Prop :=
  forall h, (length h <= maxlen)%nat -> (length (snd (m h)) <= maxlen)%nat.

(** A crop region that is a rectangle inside the frame. *)
Definition region_inside (frame_width frame_height : Z) (plan : CropPlan)
  : Prop :=
  0 <= crop_x plan /\ 0 <= crop_w plan
  /\ crop_x plan + crop_w plan <= frame_width
  /\ 0 <= crop_y plan /\ 0 <= crop_h plan
  /\ crop_y plan + crop_h plan <= frame_height.

(** The keys of the resolution tables: of [smooth_smart_crop_video]
    (line 445) and of [format_video_clip] (line 948); and the keys of
    their inner tables. *)
Definition smart_crop_resolutions : list string :=
  ["1080p"; "720p"; "480p"]%string.

Definition resolutions : list string :=
  ["4K"; "1080p"; "720p"; "480p"]%string.

Definition aspect_ratios : list string :=
  ["9:16"; "16:9"; "1:1"]%string.

(** The same world when the import of the cropper has failed. *)
Definition without_smart_crop (world : World) : World :=
  mkWorld (VideoCapture world) (ffprobe world) (get_video_dimensions world)
          (subprocess_run world) false.

(** A command that runs ffmpeg on [input_path] and writes
    [output_path], overwriting it. *)
Definition ffmpeg_from_to (input_path output_path : string)
           (cmd : list string) : Prop :=
  firstn 3 cmd = ["ffmpeg"; "-i"; input_path]%string
  /\ exists options : list string,
       cmd = (options ++ ["-y"%string; output_path])%list.

(** A world with one video of 1920 by 1080 pixels behind every path,
    where ffmpeg exits with [returncode]. *)
Definition studio (cap : Video) (returncode : Z) : World :=
  mkWorld (fun _ => cap) (fun _ => Some (1920, 1080))
          (fun _ => Some (1920, 1080)) (fun _ _ => Some returncode) true.

Definition nine_sixteen : RatioArg := mkRatioArg "9:16" portrait.

(** The clip-level condition in the specification's words: the average
    subject count is the sum of the detection counts of the samples
    over their number; the eligible candidates are those whose plan is
    a letterbox plan, and the letterbox rate is their share of the
    candidates. *)
Module ClipSpec.

Definition averageSubjectCount (face_counts : list Z) : Q :=
  inject_Z (fold_right Z.add 0 face_counts)
  / inject_Z (Z.of_nat (length face_counts)).

Definition eligible (all_crops : list CropPlan) : list CropPlan :=
  filter (fun c => match mode c with
                   | mode_letterbox => true
                   | _ => false
                   end) all_crops.

Definition letterboxRate (all_crops : list CropPlan) : Q :=
  inject_Z (Z.of_nat (length (eligible all_crops)))
  / inject_Z (Z.of_nat (length all_crops)).

Definition letterbox_condition (all_crops : list CropPlan)
           (face_counts : list Z) : Prop :=
  (2 <= averageSubjectCount face_counts)%Q
  /\ (6 # 10 < letterboxRate all_crops)%Q.

End ClipSpec.

(** The frames a sampling loop over [idxs] reads, in the
    specification's words: the frames of the sample indices before the
    first one whose frame cannot be read.  And the number of detections
    a frame shows. *)
Fixpoint frames_read (cap : Video) (sample_interval : Z) (idxs : list Z)
  : list Frame :=
  match idxs with
  | [] => []
  | i :: rest =>
      match read cap (frame_pos cap sample_interval i) with
      | None => []
      | Some frame => frame :: frames_read cap sample_interval rest
      end
  end.

Definition detections_in (frame : Frame) : Z :=
  Z.of_nat (length (detect_all_faces frame)).

(** How close a crop region is to the ratio it was cut for: a standard
    region to the target ratio, within one pixel of the rounded
    dimension (the width when the target is not wider than the frame,
    the height when it is); a letterbox region to 16:9. *)
Definition standard_proportions (plan : CropPlan)
           (frame_width frame_height : Z) (target_aspect : Q) : Prop :=
  let frame_aspect := (inject_Z frame_width / inject_Z frame_height)%Q in
  ((target_aspect <= frame_aspect)%Q ->
     (aspect_error plan target_aspect <= 1 / inject_Z (crop_h plan))%Q)
  /\ ((frame_aspect < target_aspect)%Q ->
      (aspect_error plan target_aspect
       <= target_aspect / inject_Z (crop_h plan))%Q).

Definition letterbox_proportions (plan : CropPlan) : Prop :=
  (aspect_error plan (16 # 9) <= (16 # 9) / inject_Z (crop_h plan))%Q.

(** * Properties *)

(** ** Comparisons on [Q] *)

Lemma Qlt_bool_iff (a b : Q) : Qlt_bool a b = true <-> (a < b)%Q.
Proof.
  unfold Qlt_bool. rewrite negb_true_iff.
  split; intro H.
  - apply Qnot_le_lt. intro Hle. apply Qle_bool_iff in Hle. congruence.
  - destruct (Qle_bool b a) eqn:E; [|reflexivity].
    apply Qle_bool_iff in E. exfalso. exact (Qlt_not_le _ _ H E).
Qed.

Lemma Qlt_bool_false_iff (a b : Q) : Qlt_bool a b = false <-> (b <= a)%Q.
Proof.
  unfold Qlt_bool. rewrite negb_false_iff. apply Qle_bool_iff.
Qed.

(** ** Running a computation *)

Lemma bind_ok {A B : Type} (m : M A) (f : A -> M B)
      (h h' : TrackingHistory) (a : A) :
  m h = (Ok a, h') -> bind m f h = f a h'.
Proof. intros H. unfold bind. now rewrite H. Qed.

Arguments bind_ok {A B m} f {h h' a} _.

Lemma bind_raise {A B : Type} (m : M A) (f : A -> M B)
      (h h' : TrackingHistory) (e : exn) :
  m h = (Raise e, h') -> bind m f h = (Raise e, h').
Proof. intros H. unfold bind. now rewrite H. Qed.

Arguments bind_raise {A B m} f {h h' e} _.

Lemma Qeq_bool_false (q : Q) : ~ q == 0 -> Qeq_bool q 0 = false.
Proof.
  intros H. destruct (Qeq_bool _ _) eqn:E; [|reflexivity].
  apply Qeq_bool_eq in E. contradiction.
Qed.

Lemma py_truediv_ok (a b : Q) (h : TrackingHistory) :
  ~ b == 0 -> py_truediv a b h = (Ok (a / b)%Q, h).
Proof. intros H. unfold py_truediv. now rewrite (Qeq_bool_false H). Qed.

Lemma inject_Z_pos (z : Z) : 0 < z -> (0 < inject_Z z)%Q.
Proof. intros Hz. unfold Qlt. simpl. lia. Qed.

Lemma inject_Z_nonzero (z : Z) : 0 < z -> ~ inject_Z z == 0.
Proof. intros Hz E. unfold Qeq in E. simpl in E. lia. Qed.

(** ** Ordered pairs of a list *)

Section OrdPairs.
Context {A : Type}.
Variable R : A -> A -> Prop.

Lemma FOP_filter (f : A -> bool) (l : list A) :
  ForallOrdPairs R l -> ForallOrdPairs R (filter f l).
Proof.
  induction 1 as [|a l Ha _ IH]; simpl; [constructor|].
  destruct (f a); [|exact IH].
  constructor; [|exact IH].
  rewrite Forall_forall in *. intros x Hx.
  apply filter_In in Hx. apply Ha, Hx.
Qed.

Lemma FOP_snoc (l : list A) (a : A) :
  ForallOrdPairs R l -> Forall (fun x => R x a) l ->
  ForallOrdPairs R (l ++ [a]).
Proof.
  induction 1 as [|b l Hb _ IH]; intros Hall; simpl.
  - constructor; constructor.
  - inversion Hall; subst. constructor; [|auto].
    apply Forall_app. split; [exact Hb|]. constructor; [assumption|constructor].
Qed.

Lemma FOP_nth_error (l : list A) :
  ForallOrdPairs R l ->
  forall i j a b, (i < j)%nat ->
    nth_error l i = Some a -> nth_error l j = Some b -> R a b.
Proof.
  induction 1 as [|x l Hx _ IH]; intros i j a b Hij Hi Hj.
  - destruct i; discriminate.
  - destruct j as [|j]; [lia|]. simpl in Hj.
    destruct i as [|i]; simpl in Hi.
    + injection Hi as <-. rewrite Forall_forall in Hx.
      apply Hx. eapply nth_error_In; eassumption.
    + apply (IH i j); [lia|assumption|assumption].
Qed.

Lemma FOP_seq (P : nat -> nat -> Prop) (n a : nat) :
  (forall p q, (a <= p)%nat -> (p < q)%nat -> (q < a + n)%nat -> P p q) ->
  ForallOrdPairs P (seq a n).
Proof.
  revert a. induction n as [|n IH]; intros a H; simpl; constructor.
  - apply Forall_forall. intros q Hq. apply in_seq in Hq.
    apply H; lia.
  - apply IH. intros p q Hp Hpq Hq. apply H; lia.
Qed.
End OrdPairs.

Lemma FOP_rev {A : Type} (R : A -> A -> Prop) (l : list A) :
  ForallOrdPairs R l -> ForallOrdPairs (fun a b => R b a) (rev l).
Proof.
  induction 1 as [|a l Ha _ IH]; simpl; [constructor|].
  apply FOP_snoc; [exact IH|].
  apply Forall_rev. exact Ha.
Qed.

Lemma FOP_map {A B : Type} (R : B -> B -> Prop) (f : A -> B) (l : list A) :
  ForallOrdPairs (fun a b => R (f a) (f b)) l ->
  ForallOrdPairs R (map f l).
Proof.
  induction 1 as [|a l Ha _ IH]; simpl; constructor; [|exact IH].
  apply Forall_map. exact Ha.
Qed.

Lemma FOP_impl {A : Type} (R S : A -> A -> Prop) (l : list A) :
  (forall a b, R a b -> S a b) ->
  ForallOrdPairs R l -> ForallOrdPairs S l.
Proof.
  intros HRS. induction 1 as [|a l Ha _ IH]; constructor; [|exact IH].
  eapply Forall_impl; [|exact Ha]. intros b. apply HRS.
Qed.

Lemma FOP_and {A : Type} (R S : A -> A -> Prop) (l : list A) :
  ForallOrdPairs R l -> ForallOrdPairs S l ->
  ForallOrdPairs (fun a b => R a b /\ S a b) l.
Proof.
  induction 1 as [|a l Ha _ IH]; intros HS; [constructor|].
  inversion HS; subst. constructor; [|auto].
  rewrite Forall_forall in *. auto.
Qed.

Lemma map_nth_seq {A : Type} (d : A) (l : list A) :
  map (fun i => nth i l d) (seq 0 (length l)) = l.
Proof.
  induction l as [|a l IH]; simpl; [reflexivity|].
  f_equal. rewrite <- seq_shift, map_map. exact IH.
Qed.

(** ** Non-max suppression *)

Module NMSFacts.
Import NMS.

Section Loop.
Variable faces : list Detection.
Variable thresh : Q.

Lemma nms_loop_In (idxs : list nat) (j : nat) :
  In j (nms_loop faces thresh idxs) -> In j idxs.
Proof.
  funelim (nms_loop faces thresh idxs).
  - tauto.
  - simpl. intros [->|Hj]; [now left|].
    right. apply H in Hj. apply filter_In in Hj. tauto.
Qed.

Lemma nms_loop_FOP (R : nat -> nat -> Prop) (idxs : list nat) :
  ForallOrdPairs R idxs ->
  ForallOrdPairs R (nms_loop faces thresh idxs).
Proof.
  funelim (nms_loop faces thresh idxs); intros HR.
  - constructor.
  - inversion HR as [|? ? Hi Hrest]; subst. constructor.
    + rewrite Forall_forall in *. intros j Hj.
      apply nms_loop_In, filter_In in Hj. apply Hi, Hj.
    + apply H. apply FOP_filter. exact Hrest.
Qed.

(** Whatever the order of the candidates, a kept box leaves no later
    kept box above the threshold. *)
Lemma nms_loop_separated (idxs : list nat) :
  ForallOrdPairs (fun i j => survives faces thresh i j = true)
                 (nms_loop faces thresh idxs).
Proof.
  funelim (nms_loop faces thresh idxs).
  - constructor.
  - constructor; [|exact H].
    apply Forall_forall. intros j Hj.
    apply nms_loop_In, filter_In in Hj. exact (proj2 Hj).
Qed.

Lemma nms_loop_keeps (idxs : list nat) (j : nat) :
  In j idxs ->
  (forall i, In i idxs -> survives faces thresh i j = true) ->
  In j (nms_loop faces thresh idxs).
Proof.
  funelim (nms_loop faces thresh idxs).
  - tauto.
  - simpl. intros [->|Hj] Hall; [now left|].
    right. apply H.
    + apply filter_In. split; [exact Hj|]. apply Hall. now left.
    + intros k Hk. apply filter_In in Hk. apply Hall. right. tauto.
Qed.

Lemma nms_loop_fixed (idxs : list nat) :
  ForallOrdPairs (fun i j => survives faces thresh i j = true) idxs ->
  nms_loop faces thresh idxs = idxs.
Proof.
  funelim (nms_loop faces thresh idxs); intros HR.
  - reflexivity.
  - inversion HR as [|? ? Hi Hrest]; subst.
    assert (Hf : filter (survives faces thresh i) rest = rest).
    { apply forallb_filter_id. apply forallb_forall.
      rewrite Forall_forall in Hi. exact Hi. }
    f_equal. rewrite Hf in *. apply H. exact Hrest.
Qed.
End Loop.

(** *** [argsort] *)

Lemma insert_idx_perm (scores : list Q) (i : nat) (l : list nat) :
  Permutation (insert_idx scores i l) (i :: l).
Proof.
  induction l as [|j l IH]; simpl; [reflexivity|].
  destruct (Qlt_bool _ _); [reflexivity|].
  rewrite IH. apply perm_swap.
Qed.

Lemma argsort_upto_perm (scores : list Q) (k : nat) :
  Permutation (argsort_upto scores k) (seq 0 k).
Proof.
  induction k as [|k IH]; simpl argsort_upto; [reflexivity|].
  rewrite insert_idx_perm, IH, seq_S. simpl.
  apply Permutation_cons_append.
Qed.

Lemma insert_idx_sorted (scores : list Q) (i : nat) (l : list nat) :
  ForallOrdPairs (score_le scores) l ->
  ForallOrdPairs (score_le scores) (insert_idx scores i l).
Proof.
  induction 1 as [|j l Hj Hl IH]; simpl.
  - constructor; constructor.
  - destruct (Qlt_bool _ _) eqn:E.
    + apply Qlt_bool_iff in E.
      constructor; [|constructor; assumption].
      constructor; [apply Qlt_le_weak, E|].
      eapply Forall_impl; [|exact Hj].
      intros k Hk. unfold score_le in *.
      eapply Qle_trans; [apply Qlt_le_weak, E|exact Hk].
    + apply Qlt_bool_false_iff in E.
      constructor; [|exact IH].
      apply Forall_forall. intros k Hk.
      apply (Permutation_in _ (insert_idx_perm scores i l)) in Hk.
      destruct Hk as [<-|Hk]; [exact E|].
      rewrite Forall_forall in Hj. apply Hj, Hk.
Qed.

Lemma argsort_sorted (scores : list Q) :
  ForallOrdPairs (score_le scores) (argsort scores).
Proof.
  unfold argsort. induction (length scores) as [|k IH]; simpl.
  - constructor.
  - apply insert_idx_sorted, IH.
Qed.

Lemma argsort_In (scores : list Q) (i : nat) :
  (i < length scores)%nat -> In i (rev (argsort scores)).
Proof.
  intros Hi. apply in_rev. rewrite rev_involutive.
  apply (Permutation_in _ (Permutation_sym (argsort_upto_perm scores _))).
  apply in_seq. lia.
Qed.

(** On strictly decreasing scores the reversed [argsort] is the
    identity. *)
Lemma argsort_upto_decreasing (scores : list Q) (k : nat) :
  (forall p q, (p < q)%nat -> (q < k)%nat ->
               (nth q scores 0 < nth p scores 0)%Q) ->
  argsort_upto scores k = rev (seq 0 k).
Proof.
  induction k as [|k IH]; intros Hdec; [reflexivity|].
  simpl argsort_upto. rewrite IH by (intros; apply Hdec; lia).
  rewrite seq_S, rev_app_distr. simpl.
  destruct k as [|k]; [reflexivity|].
  rewrite seq_S, rev_app_distr. simpl.
  assert (E : Qlt_bool (nth (S k) scores 0%Q) (nth k scores 0%Q) = true)
    by (apply Qlt_bool_iff, Hdec; lia).
  rewrite E. reflexivity.
Qed.

(** *** Geometry of the overlap ratio *)

Lemma intersection_zero_area_r (a b : Detection) :
  det_area b = 0 -> intersection a b = 0.
Proof.
  unfold det_area, intersection. intros H.
  apply Z.mul_eq_0 in H. destruct H as [H|H]; rewrite H.
  - replace (Z.max 0 (Z.min (det_x a + det_w a) (det_x b + 0)
                      - Z.max (det_x a) (det_x b))) with 0 by lia.
    reflexivity.
  - replace (Z.max 0 (Z.min (det_y a + det_h a) (det_y b + 0)
                      - Z.max (det_y a) (det_y b))) with 0 by lia.
    apply Z.mul_0_r.
Qed.

Lemma intersection_zero_area_l (a b : Detection) :
  det_area a = 0 -> intersection a b = 0.
Proof.
  unfold det_area, intersection. intros H.
  apply Z.mul_eq_0 in H. destruct H as [H|H]; rewrite H.
  - replace (Z.max 0 (Z.min (det_x a + 0) (det_x b + det_w b)
                      - Z.max (det_x a) (det_x b))) with 0 by lia.
    reflexivity.
  - replace (Z.max 0 (Z.min (det_y a + 0) (det_y b + det_h b)
                      - Z.max (det_y a) (det_y b))) with 0 by lia.
    apply Z.mul_0_r.
Qed.

(** The division of line 118 is [0 / 0] for a kept box of zero area. *)
Lemma overlap_zero_area_l (a b : Detection) :
  det_area a = 0 -> overlap a b = NaN.
Proof.
  intros H. unfold overlap.
  rewrite (intersection_zero_area_l a b H).
  replace ((det_x a + det_w a - det_x a) * (det_y a + det_h a - det_y a))
    with (det_area a) by (unfold det_area; f_equal; lia).
  rewrite H. reflexivity.
Qed.

Lemma overlap_zero_area_r (a b : Detection) (thresh : Q) :
  (0 <= thresh)%Q -> det_area b = 0 ->
  np_greater (overlap a b) thresh = false.
Proof.
  intros Ht H. unfold overlap.
  rewrite (intersection_zero_area_r a b H).
  unfold np_divide. destruct (Qeq_bool _ 0); [reflexivity|].
  simpl. apply Qlt_bool_false_iff.
  change (inject_Z 0) with 0%Q. unfold Qdiv. rewrite Qmult_0_l. exact Ht.
Qed.

(** *** The kept list *)

Lemma score_nth (faces : list Detection) (i : nat) :
  nth i (map det_conf faces) 0%Q = det_conf (face_at faces i).
Proof.
  unfold face_at. change 0%Q with (det_conf no_face). apply map_nth.
Qed.

Lemma non_max_suppression_separated (faces : list Detection) (thresh : Q) :
  ForallOrdPairs (separated thresh) (non_max_suppression faces thresh).
Proof.
  unfold non_max_suppression.
  destruct (len faces =? 0); [constructor|].
  apply FOP_map, FOP_and.
  - eapply FOP_impl; [|apply nms_loop_separated].
    intros i j H. unfold survives in H.
    apply negb_true_iff in H. exact H.
  - apply nms_loop_FOP.
    eapply FOP_impl; [|apply FOP_rev, argsort_sorted].
    intros i j H. unfold score_le in H. simpl in H.
    rewrite !score_nth in H. exact H.
Qed.

End NMSFacts.

Import NMS.

(** C2.  In the list kept by [non_max_suppression], at any threshold, a
    detection never overlaps a detection kept before it by more than the
    threshold, the overlap ratio being the intersection area divided by
    the area of the earlier detection; the earlier detection is the one
    of higher (or equal) confidence. *)
Theorem non_max_suppression_no_overlap
        (faces : list Detection) (overlap_thresh : Q)
        (i j : nat) (a b : Detection) :
  (i < j)%nat ->
  nth_error (non_max_suppression faces overlap_thresh) i = Some a ->
  nth_error (non_max_suppression faces overlap_thresh) j = Some b ->
  np_greater (overlap a b) overlap_thresh = false
  /\ (det_conf b <= det_conf a)%Q.
Proof.
  intros Hij Hi Hj.
  exact (FOP_nth_error
           (NMSFacts.non_max_suppression_separated faces overlap_thresh)
           Hij Hi Hj).
Qed.

Lemma non_max_suppression_no_overlap_witness :
  let a := mkDetection 10 10 100 100 1 in
  let b := mkDetection 90 90 100 100 (8 # 10) in
  let c := mkDetection 20 20 100 100 (6 # 10) in
  non_max_suppression [c; b; a] overlap_thresh_default = [a; b]
  /\ np_greater (overlap a b) overlap_thresh_default = false
  /\ (det_conf b <= det_conf a)%Q.
Proof.
  intros a b c. split; [vm_compute; reflexivity|].
  apply (@non_max_suppression_no_overlap
           [c; b; a] overlap_thresh_default 0%nat 1%nat a b).
  - lia.
  - vm_compute. reflexivity.
  - vm_compute. reflexivity.
Defined.

(** C9, as the code has it.  [non_max_suppression] has no guard on zero
    areas: it returns a list for every input, and at any threshold that
    is not negative every zero-area detection of the input is in that
    list; the overlap ratio taken against such a kept detection is the
    division [0 / 0], which numpy evaluates to [nan]. *)
Theorem non_max_suppression_keeps_zero_area
        (faces : list Detection) (overlap_thresh : Q) (d : Detection) :
  (0 <= overlap_thresh)%Q ->
  In d faces ->
  det_area d = 0 ->
  In d (non_max_suppression faces overlap_thresh)
  /\ forall e, overlap d e = NaN.
Proof.
  intros Ht Hd Hz. split; [|intros e; apply NMSFacts.overlap_zero_area_l, Hz].
  unfold non_max_suppression.
  destruct (len faces =? 0) eqn:E.
  - apply Z.eqb_eq in E. destruct faces; [contradiction|].
    unfold len in E. simpl in E. lia.
  - destruct (In_nth _ _ no_face Hd) as [i [Hi Hnth]].
    rewrite <- Hnth. apply (in_map (face_at faces)).
    apply NMSFacts.nms_loop_keeps.
    + apply NMSFacts.argsort_In. rewrite length_map. exact Hi.
    + intros k _. unfold survives. apply negb_true_iff.
      apply NMSFacts.overlap_zero_area_r; [exact Ht|].
      unfold face_at. rewrite Hnth. exact Hz.
Qed.

Lemma non_max_suppression_keeps_zero_area_witness :
  let d := mkDetection 50 50 0 40 (8 # 10) in
  let a := mkDetection 10 10 100 100 1 in
  In d (non_max_suppression [a; d] overlap_thresh_default)
  /\ forall e, overlap d e = NaN.
Proof.
  intros d a.
  apply (@non_max_suppression_keeps_zero_area [a; d] overlap_thresh_default d).
  - vm_compute. discriminate.
  - simpl. right. left. reflexivity.
  - reflexivity.
Defined.

(** C9 fails as stated: a zero-area detection is not excluded, alone or
    inside a larger kept box. *)
Lemma zero_area_not_excluded :
  let d := mkDetection 50 50 0 0 1 in
  let a := mkDetection 10 10 100 100 1 in
  det_area d = 0
  /\ non_max_suppression [d] overlap_thresh_default = [d]
  /\ non_max_suppression [d; a] overlap_thresh_default = [a; d]
  /\ overlap d a = NaN.
Proof.
  vm_compute. repeat split; reflexivity.
Qed.

(** C10, as the code has it.  [non_max_suppression] returns its own
    output unchanged whenever no two of the detections it kept have the
    same confidence. *)
Theorem non_max_suppression_idempotent
        (faces : list Detection) (overlap_thresh : Q) :
  (forall i j a b, (i < j)%nat ->
     nth_error (non_max_suppression faces overlap_thresh) i = Some a ->
     nth_error (non_max_suppression faces overlap_thresh) j = Some b ->
     ~ (det_conf a == det_conf b)%Q) ->
  non_max_suppression (non_max_suppression faces overlap_thresh)
                      overlap_thresh
  = non_max_suppression faces overlap_thresh.
Proof.
  intros Hdistinct.
  pose proof (NMSFacts.non_max_suppression_separated faces overlap_thresh)
    as Hsep.
  set (kept := non_max_suppression faces overlap_thresh) in *.
  assert (Hpair : forall p q, (p < q)%nat -> (q < length kept)%nat ->
            separated_strictly p q kept overlap_thresh).
  { intros p q Hpq Hq. unfold separated_strictly, face_at.
    assert (Hp : (p < length kept)%nat) by lia.
    pose proof (nth_error_nth' kept no_face Hp) as Ep.
    pose proof (nth_error_nth' kept no_face Hq) as Eq.
    destruct (FOP_nth_error Hsep Hpq Ep Eq) as [Hov Hle].
    split; [exact Hov|].
    apply Qle_lteq in Hle. destruct Hle as [Hlt|Heq]; [exact Hlt|].
    exfalso. apply (Hdistinct p q _ _ Hpq Ep Eq). symmetry. exact Heq. }
  unfold non_max_suppression at 1. fold kept.
  destruct (len kept =? 0) eqn:E.
  - apply Z.eqb_eq in E. destruct kept; [reflexivity|].
    unfold len in E. simpl in E. lia.
  - unfold argsort. rewrite length_map.
    rewrite NMSFacts.argsort_upto_decreasing, rev_involutive.
    + rewrite NMSFacts.nms_loop_fixed; [apply map_nth_seq|].
      apply FOP_seq. intros p q _ Hpq Hq. unfold survives.
      apply negb_true_iff. apply (Hpair p q Hpq Hq).
    + intros p q Hpq Hq. rewrite !NMSFacts.score_nth.
      apply (Hpair p q Hpq Hq).
Qed.

Lemma non_max_suppression_idempotent_witness :
  let a := mkDetection 10 10 100 100 1 in
  let b := mkDetection 90 90 100 100 (8 # 10) in
  let c := mkDetection 20 20 100 100 (6 # 10) in
  non_max_suppression
    (non_max_suppression [c; b; a] overlap_thresh_default)
    overlap_thresh_default
  = non_max_suppression [c; b; a] overlap_thresh_default.
Proof.
  intros a b c.
  apply (@non_max_suppression_idempotent [c; b; a] overlap_thresh_default).
  assert (E : non_max_suppression [c; b; a] overlap_thresh_default = [a; b])
    by (vm_compute; reflexivity).
  rewrite E. intros i j x y Hij Hi Hj.
  destruct i as [|[|i]]; destruct j as [|[|j]]; simpl in Hi, Hj;
    try lia; try discriminate;
    try (destruct i; discriminate); try (destruct j; discriminate).
  injection Hi as <-. injection Hj as <-.
  vm_compute. discriminate.
Defined.

(** C10 fails as stated on equal confidences: of two frontal faces of
    confidence 1.0, the smaller inside the larger, the first run keeps
    both (the larger is visited first, and a quarter of it is covered),
    the second run visits the smaller first and drops the larger. *)
Lemma non_max_suppression_not_idempotent :
  let a := mkDetection 0 0 100 100 1 in
  let b := mkDetection 0 0 50 50 1 in
  non_max_suppression [b; a] overlap_thresh_default = [a; b]
  /\ non_max_suppression [a; b] overlap_thresh_default = [b]
  /\ non_max_suppression
       (non_max_suppression [b; a] overlap_thresh_default)
       overlap_thresh_default
     <> non_max_suppression [b; a] overlap_thresh_default.
Proof.
  vm_compute. repeat split; try reflexivity. discriminate.
Qed.

(** ** The focus tracker *)

Module FocusFacts.
Import FocusSpec.

#[export] Instance Qlt_bool_comp : Proper (Qeq ==> Qeq ==> eq) Qlt_bool.
Proof.
  intros a b Hab c d Hcd. unfold Qlt_bool. now rewrite Hab, Hcd.
Qed.

#[export] Instance py_int_comp : Proper (Qeq ==> eq) py_int.
Proof.
  intros a b Hab. unfold py_int.
  assert (E : Qle_bool 0 a = Qle_bool 0 b) by now rewrite Hab.
  assert (F : Qfloor a = Qfloor b) by now rewrite Hab.
  assert (C : Qceiling a = Qceiling b) by now rewrite Hab.
  now rewrite E, F, C.
Qed.

(** Truncation moves a number by less than one. *)
Lemma py_int_bounds (q : Q) :
  (inject_Z (py_int q) - 1 < q)%Q /\ (q < inject_Z (py_int q) + 1)%Q.
Proof.
  unfold py_int. destruct (Qle_bool 0 q) eqn:E.
  - split.
    + apply Qlt_le_trans with (inject_Z (Qfloor q)); [|apply Qfloor_le].
      rewrite <- (Qplus_0_r (inject_Z (Qfloor q))) at 2.
      unfold Qminus. apply Qplus_lt_r. reflexivity.
    + pose proof (Qlt_floor q) as H. rewrite inject_Z_plus in H. exact H.
  - split.
    + pose proof (Qceiling_lt q) as H.
      unfold Z.sub in H. rewrite inject_Z_plus in H. exact H.
    + apply Qle_lt_trans with (inject_Z (Qceiling q)); [apply Qle_ceiling|].
      rewrite <- (Qplus_0_r (inject_Z (Qceiling q))) at 1.
      apply Qplus_lt_r. reflexivity.
Qed.

Lemma lastn_suffix {A : Type} (n : nat) (l : list A) :
  exists evicted, l = evicted ++ lastn n l
                  /\ length (lastn n l) = Nat.min n (length l).
Proof.
  exists (firstn (length l - n) l). unfold lastn. split.
  - symmetry. apply firstn_skipn.
  - rewrite length_skipn. lia.
Qed.

Lemma lastn_app {A : Type} (a b : list A) :
  lastn (length b) (a ++ b) = b.
Proof.
  unfold lastn. rewrite length_app.
  replace (length a + length b - length b)%nat with (length a) by lia.
  rewrite skipn_app, skipn_all, Nat.sub_diag. reflexivity.
Qed.

Lemma lastn_3 {A : Type} (a : list A) (x y z : A) :
  lastn 3 (a ++ [x; y; z]) = [x; y; z].
Proof. exact (lastn_app a [x; y; z]). Qed.


Lemma np_mean_3 (a b c : Z) : (np_mean [a; b; c] == mean3 a b c)%Q.
Proof.
  unfold np_mean, mean3, len. simpl.
  replace (a + (b + (c + 0))) with (a + b + c) by lia. reflexivity.
Qed.

Lemma calculate_smooth_focus_cons (d : Detection) (ds : list Detection)
      (frame_width frame_height : Z) (h : TrackingHistory) :
  let raw := raw_focus (d :: ds) frame_width frame_height in
  calculate_smooth_focus (d :: ds) frame_width frame_height h
  = (Ok (smoothed raw (deque_append h raw)), deque_append h raw).
Proof.
  unfold calculate_smooth_focus, raw_focus, smoothed.
  destruct (fold_left accumulate (d :: ds) _) as [[tx ty] tw].
  cbn [fst snd]. destruct (Qlt_bool 0 tw);
    unfold bind, get_history, put_history, ret; cbv zeta;
    destruct (3 <=? len _); reflexivity.
Qed.


Lemma smoothed_spec (raw : FocusPoint) (h : TrackingHistory) :
  ((length h < 3)%nat -> smoothed raw h = raw)
  /\ (forall older p1 p2 p3, h = older ++ [p1; p2; p3] ->
        smoothed raw h
        = (py_int (mean3 (fst p1) (fst p2) (fst p3)),
           py_int (mean3 (snd p1) (snd p2) (snd p3)))).
Proof.
  unfold smoothed, len. split.
  - intros Hlen. destruct (3 <=? _) eqn:E; [|reflexivity].
    apply Z.leb_le in E. lia.
  - intros older p1 p2 p3 ->.
    destruct (3 <=? _) eqn:E.
    + rewrite !map_app. cbn [map].
      rewrite !lastn_3. now rewrite !np_mean_3.
    + apply Z.leb_gt in E. rewrite length_app in E. simpl in E. lia.
Qed.

End FocusFacts.

Import FocusSpec.

(** ** The per-sample crop *)

Module CropFacts.
Import FocusFacts.

(** *** The box around all faces *)

Lemma fold_left_min (l : list Z) (a : Z) :
  (fold_left Z.min l a <= a
   /\ forall x, In x l -> fold_left Z.min l a <= x)
  /\ (fold_left Z.min l a = a \/ In (fold_left Z.min l a) l).
Proof.
  revert a. induction l as [|b l IH]; intros a; simpl.
  - split; [split; [lia|tauto]|now left].
  - destruct (IH (Z.min a b)) as [[Hle Hall] Hin]. split.
    + split; [lia|]. intros x [<-|Hx]; [lia|apply Hall, Hx].
    + destruct Hin as [E|Hin]; [|right; right; exact Hin].
      rewrite E. destruct (Z.min_spec a b) as [[_ ->]|[_ ->]];
        [now left|right; now left].
Qed.

Lemma fold_left_max (l : list Z) (a : Z) :
  (a <= fold_left Z.max l a
   /\ forall x, In x l -> x <= fold_left Z.max l a)
  /\ (fold_left Z.max l a = a \/ In (fold_left Z.max l a) l).
Proof.
  revert a. induction l as [|b l IH]; intros a; simpl.
  - split; [split; [lia|tauto]|now left].
  - destruct (IH (Z.max a b)) as [[Hle Hall] Hin]. split.
    + split; [lia|]. intros x [<-|Hx]; [lia|apply Hall, Hx].
    + destruct Hin as [E|Hin]; [|right; right; exact Hin].
      rewrite E. destruct (Z.max_spec a b) as [[_ ->]|[_ ->]];
        [right; now left|now left].
Qed.

Lemma py_min_spec (l : list Z) :
  l <> [] -> In (py_min l) l /\ forall x, In x l -> py_min l <= x.
Proof.
  destruct l as [|a l]; [congruence|]. intros _. unfold py_min.
  destruct (fold_left_min l a) as [[Hle Hall] Hin]. split.
  - destruct Hin as [->|Hin]; [now left|now right].
  - intros x [<-|Hx]; [exact Hle|apply Hall, Hx].
Qed.

Lemma py_max_spec (l : list Z) :
  l <> [] -> In (py_max l) l /\ forall x, In x l -> x <= py_max l.
Proof.
  destruct l as [|a l]; [congruence|]. intros _. unfold py_max.
  destruct (fold_left_max l a) as [[Hle Hall] Hin]. split.
  - destruct Hin as [->|Hin]; [now left|now right].
  - intros x [<-|Hx]; [exact Hle|apply Hall, Hx].
Qed.

(** [face_group] measures the smallest box that contains every face:
    each face lies between its sides, and each side touches a face. *)
Lemma face_group_encloses (faces : list Detection) :
  faces <> [] ->
  exists min_x min_y max_x max_y,
    face_group faces = (max_x - min_x, max_y - min_y)
    /\ (forall f, In f faces ->
          min_x <= det_x f /\ det_x f + det_w f <= max_x
          /\ min_y <= det_y f /\ det_y f + det_h f <= max_y)
    /\ (exists f, In f faces /\ det_x f = min_x)
    /\ (exists f, In f faces /\ det_y f = min_y)
    /\ (exists f, In f faces /\ det_x f + det_w f = max_x)
    /\ (exists f, In f faces /\ det_y f + det_h f = max_y).
Proof.
  intros Hne.
  assert (Hmap : forall g : Detection -> Z, map g faces <> []).
  { intros g E. apply map_eq_nil in E. contradiction. }
  destruct (py_min_spec (Hmap det_x)) as [Ix Lx].
  destruct (py_min_spec (Hmap det_y)) as [Iy Ly].
  destruct (py_max_spec (Hmap (fun f => det_x f + det_w f))) as [Jx Ux].
  destruct (py_max_spec (Hmap (fun f => det_y f + det_h f))) as [Jy Uy].
  exists (py_min (map det_x faces)), (py_min (map det_y faces)),
         (py_max (map (fun f => det_x f + det_w f) faces)),
         (py_max (map (fun f => det_y f + det_h f) faces)).
  split; [reflexivity|]. split.
  - intros f Hf. repeat split.
    + apply Lx, (in_map det_x), Hf.
    + apply Ux, (in_map (fun f => det_x f + det_w f)), Hf.
    + apply Ly, (in_map det_y), Hf.
    + apply Uy, (in_map (fun f => det_y f + det_h f)), Hf.
  - apply in_map_iff in Ix, Iy, Jx, Jy.
    destruct Ix as (fx & Ex & Hx). destruct Iy as (fy & Ey & Hy).
    destruct Jx as (gx & Fx & Gx). destruct Jy as (gy & Fy & Gy).
    split; [exists fx; split; assumption|].
    split; [exists fy; split; assumption|].
    split; [exists gx; split; assumption|].
    exists gy; split; assumption.
Qed.


Lemma letterbox_branch_run (faces : list Detection)
      (frame_width frame_height : Z) (target_aspect : Q)
      (focus_x focus_y : Z) (h : TrackingHistory) :
  0 < frame_width ->
  letterbox_branch faces frame_width frame_height target_aspect
                   focus_x focus_y h
  = (Ok (if letterbox_eligibleb faces frame_width target_aspect
         then Some (letterbox_crop faces frame_width frame_height
                                   focus_x focus_y)
         else None), h).
Proof.
  intros Hw. unfold letterbox_branch, letterbox_eligibleb.
  destruct (Qlt_bool target_aspect 1 && (2 <=? len faces));
    [|reflexivity].
  destruct (face_group faces) as [gw gh]. cbn [fst snd andb].
  destruct (0 <? gh); [|reflexivity].
  rewrite (bind_ok _ (py_truediv_ok _ h (inject_Z_nonzero Hw))).
  cbn [andb].
  destruct (Qlt_bool (3 # 2) _ && Qlt_bool (4 # 10) _); reflexivity.
Qed.

Lemma standard_crop_run (faces : list Detection)
      (frame_width frame_height : Z) (target_aspect : Q)
      (focus_x focus_y : Z) (h : TrackingHistory) :
  0 < frame_width -> 0 < frame_height ->
  standard_crop faces frame_width frame_height target_aspect
                focus_x focus_y h
  = (Ok (standard_plan faces frame_width frame_height target_aspect
                       (focus_x, focus_y)), h).
Proof.
  intros Hw Hh. unfold standard_crop, standard_plan, standard_dims.
  rewrite (bind_ok _ (py_truediv_ok _ h (inject_Z_nonzero Hh))).
  destruct (Qlt_bool _ target_aspect) eqn:E.
  - assert (Hne : ~ target_aspect == 0).
    { intros H0. apply Qlt_bool_iff in E.
      rewrite H0 in E. apply (Qlt_not_le _ _ E).
      apply Qlt_le_weak, Qlt_shift_div_l; [now apply inject_Z_pos|].
      rewrite Qmult_0_l. now apply inject_Z_pos. }
    erewrite bind_ok;
      [|erewrite bind_ok; [|apply (py_truediv_ok _ h Hne)]; reflexivity].
    reflexivity.
  - erewrite bind_ok; [|reflexivity]. reflexivity.
Qed.

Lemma calculate_dynamic_crop_run (d : Detection) (ds : list Detection)
      (frame_width frame_height : Z) (target_aspect_ratio : AspectRatio)
      (h : TrackingHistory) :
  0 < frame_width -> 0 < frame_height ->
  ~ aspect_h target_aspect_ratio == 0 ->
  let faces := d :: ds in
  let target_aspect := target_aspect_of target_aspect_ratio in
  let raw := raw_focus faces frame_width frame_height in
  let h' := deque_append h raw in
  let focus := smoothed raw h' in
  calculate_dynamic_crop faces frame_width frame_height
                         target_aspect_ratio h
  = (Ok (Some (if letterbox_eligibleb faces frame_width target_aspect
               then letterbox_crop faces frame_width frame_height
                                   (fst focus) (snd focus)
               else standard_plan faces frame_width frame_height
                                  target_aspect focus)), h').
Proof.
  intros Hw Hh Ha. cbv zeta. unfold calculate_dynamic_crop.
  rewrite (bind_ok _ (py_truediv_ok _ h Ha)).
  fold (target_aspect_of target_aspect_ratio).
  rewrite (bind_ok _ (FocusFacts.calculate_smooth_focus_cons
                        d ds frame_width frame_height h)).
  cbv zeta.
  set (raw := raw_focus (d :: ds) frame_width frame_height).
  set (h' := deque_append h raw).
  destruct (smoothed raw h') as [focus_x focus_y].
  rewrite (bind_ok _ (letterbox_branch_run _ _ _ _ _ h' Hw)).
  cbn [fst snd].
  destruct (letterbox_eligibleb _ frame_width _).
  - reflexivity.
  - rewrite (bind_ok _ (standard_crop_run _ _ _ _ h' Hw Hh)).
    reflexivity.
Qed.

Lemma ratio_bound (w h : Z) (t e : Q) :
  0 < h ->
  (Qabs (inject_Z w - t * inject_Z h) <= e)%Q ->
  (Qabs (inject_Z w / inject_Z h - t) <= e / inject_Z h)%Q.
Proof.
  intros Hh Habs. pose proof (inject_Z_pos Hh) as HH.
  assert (E : (inject_Z w / inject_Z h - t
               == (inject_Z w - t * inject_Z h) * / inject_Z h)%Q).
  { field. intros E0. rewrite E0 in HH. apply (Qlt_irrefl _ HH). }
  rewrite E, Qabs_Qmult.
  rewrite (Qabs_pos (/ inject_Z h)) by (apply Qlt_le_weak, Qinv_lt_0_compat, HH).
  unfold Qdiv. apply Qmult_le_compat_r; [exact Habs|].
  apply Qlt_le_weak, Qinv_lt_0_compat, HH.
Qed.

Lemma py_int_error (q : Q) : (Qabs (inject_Z (py_int q) - q) <= 1)%Q.
Proof.
  destruct (py_int_bounds q) as [Hlo Hhi].
  apply Qabs_Qle_condition. split; lra.
Qed.

Lemma standard_dims_error (frame_width frame_height : Z) (target_aspect : Q) :
  0 < frame_width -> 0 < frame_height ->
  let tw := fst (standard_dims frame_width frame_height target_aspect) in
  let th := snd (standard_dims frame_width frame_height target_aspect) in
  ((target_aspect <= inject_Z frame_width / inject_Z frame_height)%Q ->
     (Qabs (inject_Z tw - target_aspect * inject_Z th) <= 1)%Q)
  /\ ((inject_Z frame_width / inject_Z frame_height < target_aspect)%Q ->
     (Qabs (inject_Z tw - target_aspect * inject_Z th) <= target_aspect)%Q).
Proof.
  intros Hw Hh. cbv zeta. unfold standard_dims.
  pose proof (inject_Z_pos Hw) as HW. pose proof (inject_Z_pos Hh) as HH.
  destruct (Qlt_bool _ target_aspect) eqn:E; cbn [fst snd].
  - apply Qlt_bool_iff in E. split; intros H.
    + exfalso. apply (Qlt_not_le _ _ E H).
    + assert (Hpos : (0 < target_aspect)%Q).
      { eapply Qlt_trans; [|exact E]. apply Qlt_shift_div_l; [exact HH|].
        now rewrite Qmult_0_l. }
      set (q := (inject_Z frame_width / target_aspect)%Q).
      destruct (py_int_bounds q) as [Hlo Hhi].
      assert (Eq : (inject_Z frame_width == target_aspect * q)%Q).
      { unfold q. field. intros E0. rewrite E0 in Hpos.
        apply (Qlt_irrefl _ Hpos). }
      rewrite Eq. apply Qabs_Qle_condition. split; nra.
  - apply Qlt_bool_false_iff in E. split; intros H.
    + pose proof (py_int_error (inject_Z frame_height * target_aspect)) as P.
      apply Qabs_Qle_condition in P. apply Qabs_Qle_condition.
      destruct P. split; lra.
    + exfalso. apply (Qlt_not_le _ _ H E).
Qed.

Lemma letterbox_crop_dims (faces : list Detection)
      (frame_width frame_height focus_x focus_y : Z) :
  let plan := letterbox_crop faces frame_width frame_height
                             focus_x focus_y in
  mode plan = mode_letterbox
  /\ letterbox plan = true
  /\ (Qabs (inject_Z (crop_w plan) - (16 # 9) * inject_Z (crop_h plan))
      <= 16 # 9)%Q.
Proof.
  cbv zeta. unfold letterbox_crop.
  destruct (_ >? frame_width) eqn:E; cbn [mode letterbox crop_w crop_h];
    (split; [reflexivity|split; [reflexivity|]]).
  - pose proof (py_int_error (inject_Z (frame_width * 9) / 16)) as P.
    set (p := py_int (inject_Z (frame_width * 9) / 16)) in *.
    rewrite inject_Z_mult in P. change (inject_Z 9) with 9%Q in P.
    unfold Qdiv in P. change (/ 16)%Q with (1 # 16)%Q in P.
    apply Qabs_Qle_condition in P. apply Qabs_Qle_condition.
    clearbody p. destruct P. split; lra.
  - pose proof (py_int_error (inject_Z (frame_height * 16) / 9)) as P.
    set (p := py_int (inject_Z (frame_height * 16) / 9)) in *.
    rewrite inject_Z_mult in P. change (inject_Z 16) with 16%Q in P.
    unfold Qdiv in P. change (/ 9)%Q with (1 # 9)%Q in P.
    apply Qabs_Qle_condition in P. apply Qabs_Qle_condition.
    clearbody p. destruct P. split; lra.
Qed.

Lemma standard_plan_fields (faces : list Detection)
      (frame_width frame_height : Z) (target_aspect : Q)
      (focus : FocusPoint) :
  let plan := standard_plan faces frame_width frame_height target_aspect
                            focus in
  mode plan = mode_smart
  /\ letterbox plan = false
  /\ crop_w plan = fst (standard_dims frame_width frame_height
                                      target_aspect)
  /\ crop_h plan = snd (standard_dims frame_width frame_height
                                      target_aspect).
Proof. repeat split; reflexivity. Qed.

(** A run that returns has parsed a ratio with a non-zero second
    number. *)
Lemma calculate_dynamic_crop_ok (faces : list Detection)
      (frame_width frame_height : Z) (target_aspect_ratio : AspectRatio)
      (h h' : TrackingHistory) (plan : CropPlan) :
  calculate_dynamic_crop faces frame_width frame_height
                         target_aspect_ratio h = (Ok (Some plan), h') ->
  faces <> [] /\ ~ aspect_h target_aspect_ratio == 0.
Proof.
  intros Hrun. destruct faces as [|d ds]; [discriminate|].
  split; [discriminate|]. intros E0.
  unfold calculate_dynamic_crop, bind, py_truediv in Hrun.
  apply Qeq_bool_iff in E0. rewrite E0 in Hrun. discriminate.
Qed.

End CropFacts.



(** C3 fails as stated.  In letterbox mode the region is 16:9 although
    the target is 9:16; and a standard crop to a target wider than the
    frame, where the height is rounded, can be off by more than
    [1/height]. *)
Lemma crop_region_aspect_counterexample :
  let letterbox_plan := mkCropPlan mode_letterbox 0 0 1920 1080 true 2 in
  let wide_plan := mkCropPlan mode_smart 0 179 1287 723 false 1 in
  calculate_dynamic_crop
    [mkDetection 100 400 80 80 1; mkDetection 1700 420 80 80 1]
    1920 1080 (mkAspectRatio 9 16) []
  = (Ok (Some letterbox_plan), [(940, 450)])
  /\ ~ (aspect_error letterbox_plan (9 # 16) <= 1 / 1080)%Q
  /\ calculate_dynamic_crop
       [mkDetection 920 500 80 80 1] 1287 1000 (mkAspectRatio 16 9) []
     = (Ok (Some wide_plan), [(960, 540)])
  /\ ~ (aspect_error wide_plan (16 # 9) <= 1 / 723)%Q.
Proof.
  intros letterbox_plan wide_plan.
  split; [vm_compute; reflexivity|].
  split; [apply Qlt_not_le; vm_compute; reflexivity|].
  split; [vm_compute; reflexivity|].
  apply Qlt_not_le. vm_compute. reflexivity.
Qed.

(** ** Sampling and the clip-level decision *)

Module AnalysisFacts.

Lemma bind_inv {A B : Type} (m : M A) (f : A -> M B)
      (h h' : TrackingHistory) (b : B) :
  bind m f h = (Ok b, h') ->
  exists a h1, m h = (Ok a, h1) /\ f a h1 = (Ok b, h').
Proof.
  unfold bind. destruct (m h) as [[a|e] h1]; intros H.
  - exists a, h1. split; [reflexivity|exact H].
  - discriminate.
Qed.

(** *** What a sample's candidate looks like *)

Lemma letterbox_branch_some (faces : list Detection)
      (frame_width frame_height : Z) (target_aspect : Q)
      (focus_x focus_y : Z) (h h' : TrackingHistory) (c : CropPlan) :
  letterbox_branch faces frame_width frame_height target_aspect
                   focus_x focus_y h = (Ok (Some c), h') ->
  c = letterbox_crop faces frame_width frame_height focus_x focus_y.
Proof.
  unfold letterbox_branch.
  destruct (Qlt_bool target_aspect 1 && (2 <=? len faces));
    [|discriminate].
  destruct (face_group faces) as [gw gh].
  destruct (0 <? gh); [|discriminate].
  intros H. apply bind_inv in H as (hs & h1 & _ & H).
  destruct (Qlt_bool (3 # 2) _ && Qlt_bool (4 # 10) hs);
    [|discriminate].
  unfold ret in H. congruence.
Qed.

Lemma standard_crop_some (faces : list Detection)
      (frame_width frame_height : Z) (target_aspect : Q)
      (focus_x focus_y : Z) (h h' : TrackingHistory) (c : CropPlan) :
  standard_crop faces frame_width frame_height target_aspect
                focus_x focus_y h = (Ok c, h') ->
  mode c = mode_smart /\ letterbox c = false.
Proof.
  unfold standard_crop. intros H.
  apply bind_inv in H as (current & h1 & _ & H).
  apply bind_inv in H as ([tw th] & h2 & _ & H).
  unfold ret in H. injection H as <- _. split; reflexivity.
Qed.

Lemma calculate_dynamic_crop_consistent (faces : list Detection)
      (frame_width frame_height : Z) (target_aspect_ratio : AspectRatio)
      (h h' : TrackingHistory) (plan : CropPlan) :
  calculate_dynamic_crop faces frame_width frame_height
                         target_aspect_ratio h = (Ok (Some plan), h') ->
  consistent plan.
Proof.
  destruct faces as [|d ds]; [discriminate|].
  unfold calculate_dynamic_crop. intros H.
  apply bind_inv in H as (ta & h1 & _ & H).
  apply bind_inv in H as ([fx fy] & h2 & _ & H).
  apply bind_inv in H as (early & h3 & Hearly & H).
  destruct early as [c|].
  - unfold ret in H. injection H as <- _.
    apply letterbox_branch_some in Hearly. subst c. left.
    destruct (CropFacts.letterbox_crop_dims
                (d :: ds) frame_width frame_height fx fy) as [Hm [Hl _]].
    split; assumption.
  - apply bind_inv in H as (c & h4 & Hstd & H).
    unfold ret in H. injection H as <- _.
    right. exact (standard_crop_some _ _ _ _ _ _ _ Hstd).
Qed.

Lemma sample_frames_consistent (cap : Video)
      (target_aspect_ratio : AspectRatio) (sample_interval : Z)
      (idxs : list Z) :
  forall (all_crops : list CropPlan) (face_counts : list Z)
         (h h' : TrackingHistory) (crops : list CropPlan)
         (counts : list Z),
    sample_frames cap target_aspect_ratio sample_interval idxs
                  all_crops face_counts h = (Ok (crops, counts), h') ->
    Forall consistent all_crops -> Forall consistent crops.
Proof.
  induction idxs as [|i rest IH]; intros all_crops face_counts h h'
                                         crops counts Hrun Hall.
  - unfold sample_frames, ret in Hrun. congruence.
  - simpl in Hrun.
    destruct (read cap (frame_pos cap sample_interval i)) as [frame|].
    + destruct (detect_all_faces frame) as [|d ds] eqn:Ef.
      * exact (IH _ _ _ _ _ _ Hrun Hall).
      * apply bind_inv in Hrun as (crop & h1 & Hcrop & Hrun).
        destruct crop as [c|].
        -- apply (IH _ _ _ _ _ _ Hrun).
           apply Forall_app. split; [exact Hall|].
           constructor; [|constructor].
           exact (calculate_dynamic_crop_consistent _ _ _ _ _ Hcrop).
        -- exact (IH _ _ _ _ _ _ Hrun Hall).
    + unfold ret in Hrun. congruence.
Qed.

(** *** [sorted] *)

Lemma insert_sorted_perm (a : Z) (l : list Z) :
  Permutation (insert_sorted a l) (a :: l).
Proof.
  induction l as [|b l IH]; simpl; [reflexivity|].
  destruct (a <=? b); [reflexivity|].
  rewrite IH. apply perm_swap.
Qed.

Lemma sorted_perm (l : list Z) : Permutation (sorted l) l.
Proof.
  induction l as [|a l IH]; simpl; [reflexivity|].
  rewrite insert_sorted_perm. now constructor.
Qed.

Lemma insert_sorted_sorted (a : Z) (l : list Z) :
  StronglySorted Z.le l -> StronglySorted Z.le (insert_sorted a l).
Proof.
  induction 1 as [|b l Hl IH Hb]; simpl.
  - constructor; constructor.
  - destruct (a <=? b) eqn:E.
    + apply Z.leb_le in E. constructor; [constructor; assumption|].
      constructor; [exact E|].
      eapply Forall_impl; [|exact Hb]. intros c Hc. lia.
    + apply Z.leb_gt in E. constructor; [exact IH|].
      apply Forall_forall. intros c Hc.
      apply (Permutation_in _ (insert_sorted_perm a l)) in Hc.
      destruct Hc as [<-|Hc]; [lia|].
      rewrite Forall_forall in Hb. apply Hb, Hc.
Qed.

Lemma sorted_sorted (l : list Z) : StronglySorted Z.le (sorted l).
Proof.
  induction l as [|a l IH]; simpl; [constructor|].
  apply insert_sorted_sorted, IH.
Qed.

Lemma half_index {A : Type} (l : list A) :
  Z.to_nat (len l / 2) = (length l / 2)%nat.
Proof.
  unfold len. change 2 with (Z.of_nat 2).
  rewrite <- Nat2Z.inj_div. apply Nat2Z.id.
Qed.

Lemma half_lt (n : nat) : (0 < n)%nat -> (n / 2 < n)%nat.
Proof. intros H. apply Nat.div_lt; lia. Qed.

Lemma index_median (l : list Z) (n : nat) :
  l <> [] -> n = length l ->
  is_median l (index (sorted l) (Z.of_nat n / 2)).
Proof.
  intros Hne ->. exists (sorted l).
  split; [apply sorted_perm|]. split; [apply sorted_sorted|].
  unfold index. fold (len l). rewrite half_index.
  apply nth_error_nth'. rewrite (Permutation_length (sorted_perm l)).
  apply half_lt. destruct l; [congruence|simpl; lia].
Qed.

(** *** The decision *)

Lemma range_0 : range 0 = [].
Proof. reflexivity. Qed.

Lemma sampled_nonzero (cap : Video) (target_aspect_ratio : AspectRatio)
      (sample_interval num_samples : Z) (h h' : TrackingHistory)
      (crops : list CropPlan) (counts : list Z) :
  sample_frames cap target_aspect_ratio sample_interval
                (range num_samples) [] [] h = (Ok (crops, counts), h') ->
  crops <> [] -> num_samples <> 0.
Proof.
  intros Hrun Hne ->. rewrite range_0 in Hrun.
  unfold sample_frames, ret in Hrun. congruence.
Qed.

Lemma analyze_video_smooth_run (cap : Video)
      (target_aspect_ratio : AspectRatio) (num_samples : Z)
      (h h' : TrackingHistory) (crops : list CropPlan)
      (counts : list Z) :
  isOpened cap = true ->
  num_samples <> 0 ->
  sample_frames cap target_aspect_ratio
                (Z.max 1 (CAP_PROP_FRAME_COUNT cap / num_samples))
                (range num_samples) [] [] h = (Ok (crops, counts), h') ->
  analyze_video_smooth cap target_aspect_ratio num_samples h
  = (Ok (decide crops counts), h').
Proof.
  intros Hopen Hn Hrun. unfold analyze_video_smooth.
  rewrite Hopen. cbn [negb]. unfold py_floordiv.
  apply Z.eqb_neq in Hn. rewrite Hn.
  erewrite bind_ok; [|reflexivity].
  erewrite bind_ok; [|exact Hrun]. reflexivity.
Qed.

Lemma letterbox_confirmed_iff (all_crops : list CropPlan)
      (face_counts : list Z) :
  all_crops <> [] ->
  letterbox_confirmed all_crops face_counts = true
  <-> hysteresis all_crops face_counts.
Proof.
  intros Hne. unfold letterbox_confirmed, hysteresis, letterbox_rate.
  destruct all_crops as [|c cs]; [congruence|].
  rewrite andb_true_iff, Qle_bool_iff, Qlt_bool_iff. tauto.
Qed.

Lemma hysteresis_eligible (all_crops : list CropPlan)
      (face_counts : list Z) :
  hysteresis all_crops face_counts -> letterbox_crops all_crops <> [].
Proof.
  intros [_ Hrate] E. rewrite E in Hrate.
  change (inject_Z (len [])) with 0%Q in Hrate.
  unfold Qdiv in Hrate. rewrite Qmult_0_l in Hrate.
  vm_compute in Hrate. discriminate.
Qed.

Lemma crop_at_middle (l : list CropPlan) :
  l <> [] ->
  nth_error l (length l / 2) = Some (crop_at l (len l / 2)).
Proof.
  intros Hne. unfold crop_at. rewrite half_index.
  apply nth_error_nth', half_lt. destruct l; [congruence|simpl; lia].
Qed.

Lemma decide_nonempty (all_crops : list CropPlan) (face_counts : list Z) :
  all_crops <> [] ->
  decide all_crops face_counts
  = Some (if letterbox_confirmed all_crops face_counts
          then crop_at (letterbox_crops all_crops)
                       (len (letterbox_crops all_crops) / 2)
          else median_plan all_crops).
Proof.
  intros Hne. unfold decide. destruct all_crops as [|c cs]; [congruence|].
  destruct (letterbox_confirmed _ _); reflexivity.
Qed.

(** *** The condition of line 334 and the specification's *)

Lemma eligible_letterbox_crops (all_crops : list CropPlan) :
  Forall consistent all_crops ->
  ClipSpec.eligible all_crops = letterbox_crops all_crops.
Proof.
  unfold ClipSpec.eligible, letterbox_crops.
  induction 1 as [|c cs Hc _ IH]; [reflexivity|].
  cbn [filter]. rewrite IH.
  destruct Hc as [[Hm Hl]|[Hm Hl]]; rewrite Hm, Hl; reflexivity.
Qed.

Lemma avg_faces_average (face_counts : list Z) :
  avg_faces face_counts = ClipSpec.averageSubjectCount face_counts.
Proof.
  destruct face_counts as [|c cs]; reflexivity.
Qed.

Lemma hysteresis_letterbox_condition (all_crops : list CropPlan)
      (face_counts : list Z) :
  Forall consistent all_crops ->
  hysteresis all_crops face_counts
  <-> ClipSpec.letterbox_condition all_crops face_counts.
Proof.
  intros Hcons. unfold hysteresis, ClipSpec.letterbox_condition,
                  ClipSpec.letterboxRate.
  rewrite (eligible_letterbox_crops Hcons), avg_faces_average.
  unfold len. tauto.
Qed.

End AnalysisFacts.

(** C1.  For every clip whose samples gave at least one crop candidate,
    [analyze_video_smooth] returns a crop whose mode is letterbox if and
    only if the average detection count (the sum of the counts over the
    number of samples read) is at least 2.0 and more than 0.6 of the
    candidates are letterbox plans; it is then the element at index
    [len(eligible)//2] of the eligible candidates in capture order;
    otherwise it is a standard crop. *)
Theorem aggregate_mode
        (cap : Video) (target_aspect_ratio : AspectRatio) (num_samples : Z)
        (h h' : TrackingHistory) (all_crops : list CropPlan)
        (face_counts : list Z) :
  isOpened cap = true ->
  sample_frames cap target_aspect_ratio
                (Z.max 1 (CAP_PROP_FRAME_COUNT cap / num_samples))
                (range num_samples) [] [] h
  = (Ok (all_crops, face_counts), h') ->
  all_crops <> [] ->
  let eligible := ClipSpec.eligible all_crops in
  exists plan : CropPlan,
    analyze_video_smooth cap target_aspect_ratio num_samples h
    = (Ok (Some plan), h')
    /\ (mode plan = mode_letterbox
        <-> ClipSpec.letterbox_condition all_crops face_counts)
    /\ (ClipSpec.letterbox_condition all_crops face_counts ->
        nth_error eligible (length eligible / 2) = Some plan)
    /\ (~ ClipSpec.letterbox_condition all_crops face_counts ->
        mode plan = mode_smart_smooth /\ letterbox plan = false).
Proof.
  intros Hopen Hrun Hne eligible.
  pose proof (@AnalysisFacts.sampled_nonzero _ _ _ _ _ _ _ _ Hrun Hne) as Hn.
  pose proof (@AnalysisFacts.sample_frames_consistent
                _ _ _ _ _ _ _ _ _ _ Hrun (Forall_nil _)) as Hcons.
  rewrite (@AnalysisFacts.analyze_video_smooth_run
             _ _ _ _ _ _ _ Hopen Hn Hrun).
  pose proof (@AnalysisFacts.letterbox_confirmed_iff
                all_crops face_counts Hne) as Hiff.
  pose proof (@AnalysisFacts.hysteresis_letterbox_condition
                all_crops face_counts Hcons) as Hspec.
  rewrite (@AnalysisFacts.decide_nonempty all_crops face_counts Hne).
  unfold eligible. rewrite (AnalysisFacts.eligible_letterbox_crops Hcons).
  destruct (letterbox_confirmed all_crops face_counts) eqn:E.
  - assert (Hhyst : hysteresis all_crops face_counts) by now apply Hiff.
    pose proof (@AnalysisFacts.crop_at_middle
                  _ (@AnalysisFacts.hysteresis_eligible _ _ Hhyst)) as Hmid.
    eexists. split; [reflexivity|].
    assert (Hin : In (crop_at (letterbox_crops all_crops)
                              (len (letterbox_crops all_crops) / 2))
                     (letterbox_crops all_crops))
      by (eapply nth_error_In; exact Hmid).
    apply filter_In in Hin. destruct Hin as [Hin Hflag].
    rewrite Forall_forall in Hcons.
    destruct (Hcons _ Hin) as [[Hm _]|[_ Hl]]; [|congruence].
    split; [split; [intros _; now apply Hspec|intros _; exact Hm]|].
    split; [intros _; exact Hmid|].
    intros Hno. exfalso. apply Hno. now apply Hspec.
  - assert (Hno : ~ ClipSpec.letterbox_condition all_crops face_counts).
    { intros H. apply Hspec, Hiff in H. congruence. }
    eexists. split; [reflexivity|]. cbn [mode letterbox median_plan].
    split; [split; [discriminate|intros H; contradiction]|].
    split; [intros H; contradiction|]. intros _. split; reflexivity.
Qed.

Lemma aggregate_mode_witness :
  let cap := clip [Some two_apart; Some two_apart; Some two_apart] in
  let wide := mkCropPlan mode_letterbox 0 0 1920 1080 true 2 in
  ClipSpec.letterbox_condition [wide; wide; wide] [2; 2; 2]
  /\ analyze_video_smooth cap portrait 3 []
     = (Ok (Some wide), [(940, 450); (940, 450); (940, 450)]).
Proof.
  intros cap wide.
  assert (Hcond : ClipSpec.letterbox_condition [wide; wide; wide] [2; 2; 2]).
  { split; vm_compute; [discriminate|reflexivity]. }
  split; [exact Hcond|].
  destruct (@aggregate_mode cap portrait 3 []
              [(940, 450); (940, 450); (940, 450)]
              [wide; wide; wide] [2; 2; 2])
    as (plan & Hrun & _ & Hmiddle & _).
  - reflexivity.
  - vm_compute. reflexivity.
  - discriminate.
  - rewrite Hrun. specialize (Hmiddle Hcond).
    vm_compute in Hmiddle. injection Hmiddle as <-. reflexivity.
Defined.

(** What lines 343-353 compute.  When the clip-level condition fails, the
    returned crop is a standard crop whose x, y, width and height are
    each the median (the values of the field put in order, middle index
    taken) over all the sample candidates: the lists sorted are those of
    [all_crops], so the letterbox-eligible candidates are in the pool. *)
Lemma standard_aggregate_median
        (cap : Video) (target_aspect_ratio : AspectRatio) (num_samples : Z)
        (h h' : TrackingHistory) (all_crops : list CropPlan)
        (face_counts : list Z) :
  isOpened cap = true ->
  sample_frames cap target_aspect_ratio
                (Z.max 1 (CAP_PROP_FRAME_COUNT cap / num_samples))
                (range num_samples) [] [] h
  = (Ok (all_crops, face_counts), h') ->
  all_crops <> [] ->
  ~ hysteresis all_crops face_counts ->
  exists plan : CropPlan,
    analyze_video_smooth cap target_aspect_ratio num_samples h
    = (Ok (Some plan), h')
    /\ mode plan = mode_smart_smooth
    /\ letterbox plan = false
    /\ is_median (map crop_x all_crops) (crop_x plan)
    /\ is_median (map crop_y all_crops) (crop_y plan)
    /\ is_median (map crop_w all_crops) (crop_w plan)
    /\ is_median (map crop_h all_crops) (crop_h plan).
Proof.
  intros Hopen Hrun Hne Hno.
  pose proof (@AnalysisFacts.sampled_nonzero _ _ _ _ _ _ _ _ Hrun Hne) as Hn.
  rewrite (@AnalysisFacts.analyze_video_smooth_run
             _ _ _ _ _ _ _ Hopen Hn Hrun).
  rewrite (@AnalysisFacts.decide_nonempty all_crops face_counts Hne).
  destruct (letterbox_confirmed all_crops face_counts) eqn:E.
  - exfalso. apply Hno.
    now apply (@AnalysisFacts.letterbox_confirmed_iff _ _ Hne).
  - exists (median_plan all_crops). split; [reflexivity|].
    split; [reflexivity|]. split; [reflexivity|].
    unfold median_plan, len. cbn [crop_x crop_y crop_w crop_h].
    assert (Hmap : forall f : CropPlan -> Z, map f all_crops <> []).
    { intros f E0. apply map_eq_nil in E0. contradiction. }
    repeat split; apply AnalysisFacts.index_median;
      try apply Hmap; symmetry; apply length_map.
Qed.

Lemma standard_aggregate_median_witness :
  let cap := clip [Some two_apart; Some two_apart; Some one_centered] in
  exists plan : CropPlan,
    analyze_video_smooth cap portrait 3 []
    = (Ok (Some plan), [(940, 450); (940, 450); (960, 540)])
    /\ is_median [1920; 1920; 607] (crop_w plan).
Proof.
  intros cap.
  destruct (@standard_aggregate_median cap portrait 3 []
              [(940, 450); (940, 450); (960, 540)]
              [mkCropPlan mode_letterbox 0 0 1920 1080 true 2;
               mkCropPlan mode_letterbox 0 0 1920 1080 true 2;
               mkCropPlan mode_smart 643 0 607 1080 false 1]
              [2; 2; 1])
    as (plan & Hrun & _ & _ & _ & _ & Hw & _).
  - reflexivity.
  - vm_compute. reflexivity.
  - discriminate.
  - intros [Havg _]. vm_compute in Havg. apply Havg. reflexivity.
  - exists plan. split; [exact Hrun|exact Hw].
Defined.

(** C7: the code at the failing input.  Of three samples, two
    letterbox-eligible and one standard, with 5/3 detections on average,
    the clip-level condition fails (the code logs "Using standard smart
    crop for stability"), yet the standard crop returned is the
    letterbox rectangle, 1920x1080 at (0,0) for a 9:16 target: the
    medians of lines 343-348 are taken over all the candidates.  Over
    the standard candidates only, as the claim has it, the median width
    is 607. *)
Theorem standard_aggregate_pools_letterbox :
  let cap := clip [Some two_apart; Some two_apart; Some one_centered] in
  let wide := mkCropPlan mode_letterbox 0 0 1920 1080 true 2 in
  let tight := mkCropPlan mode_smart 643 0 607 1080 false 1 in
  let returned := mkCropPlan mode_smart_smooth 0 0 1920 1080 false 1 in
  let standard_only :=
    filter (fun c => negb (letterbox c)) [wide; wide; tight] in
  sample_frames cap portrait 1 (range 3) [] [] []
  = (Ok ([wide; wide; tight], [2; 2; 1]),
     [(940, 450); (940, 450); (960, 540)])
  /\ ~ hysteresis [wide; wide; tight] [2; 2; 1]
  /\ analyze_video_smooth cap portrait 3 []
     = (Ok (Some returned), [(940, 450); (940, 450); (960, 540)])
  /\ standard_only = [tight]
  /\ ~ is_median (map crop_w standard_only) (crop_w returned).
Proof.
  intros cap wide tight returned standard_only.
  split; [vm_compute; reflexivity|].
  split; [intros [Havg _]; vm_compute in Havg; apply Havg; reflexivity|].
  split; [vm_compute; reflexivity|].
  split; [reflexivity|].
  intros (s & Hperm & _ & Hnth).
  apply Permutation_sym, Permutation_length_1_inv in Hperm. subst s.
  vm_compute in Hnth. discriminate.
Qed.

(** ** Failed reads *)

Module ReadFacts.

Lemma range_In (n i : Z) : In i (range n) <-> 0 <= i < n.
Proof.
  unfold range. rewrite in_map_iff. split.
  - intros (k & <- & Hk). apply in_seq in Hk. lia.
  - intros Hi. exists (Z.to_nat i). split; [lia|]. apply in_seq. lia.
Qed.

Lemma range_split (n k : Z) :
  0 <= k < n -> exists rest, range n = range k ++ k :: rest.
Proof.
  intros Hk. unfold range.
  replace (Z.to_nat n)
    with (Z.to_nat k + S (Z.to_nat n - Z.to_nat k - 1))%nat by lia.
  rewrite seq_app, map_app. simpl.
  rewrite Z2Nat.id by lia. eexists. reflexivity.
Qed.

Section Loop.
Variable cap : Video.
Variable target_aspect_ratio : AspectRatio.
Variable sample_interval : Z.

(** The loop visits nothing after an index whose read fails. *)
Lemma sample_frames_break (before after : list Z) (k : Z) :
  read cap (frame_pos cap sample_interval k) = None ->
  forall all_crops face_counts h,
    sample_frames cap target_aspect_ratio sample_interval
                  (before ++ k :: after) all_crops face_counts h
    = sample_frames cap target_aspect_ratio sample_interval
                    before all_crops face_counts h.
Proof.
  intros Hk. induction before as [|i rest IH];
    intros all_crops face_counts h; simpl.
  - rewrite Hk. reflexivity.
  - destruct (read cap (frame_pos cap sample_interval i)) as [frame|];
      [|reflexivity].
    destruct (detect_all_faces frame) as [|d ds]; [apply IH|].
    unfold bind.
    destruct (calculate_dynamic_crop _ _ _ _ h) as [[[c|]|e] h1];
      [apply IH|apply IH|reflexivity].
Qed.

(** The loop only looks at the frames of the indices it visits. *)
Lemma sample_frames_ext (r : Z -> option Frame) (idxs : list Z) :
  (forall i, In i idxs ->
             r (frame_pos cap sample_interval i)
             = read cap (frame_pos cap sample_interval i)) ->
  forall all_crops face_counts h,
    sample_frames (with_read cap r) target_aspect_ratio sample_interval
                  idxs all_crops face_counts h
    = sample_frames cap target_aspect_ratio sample_interval
                    idxs all_crops face_counts h.
Proof.
  induction idxs as [|i rest IH]; intros Hr all_crops face_counts h;
    [reflexivity|].
  simpl.
  change (frame_pos (with_read cap r) sample_interval i)
    with (frame_pos cap sample_interval i).
  rewrite (Hr i (or_introl eq_refl)).
  assert (IH' := IH (fun j Hj => Hr j (or_intror Hj))).
  destruct (read cap (frame_pos cap sample_interval i)) as [frame|];
    [|reflexivity].
  destruct (detect_all_faces frame) as [|d ds]; [apply IH'|].
  unfold bind.
  destruct (calculate_dynamic_crop _ _ _ _ h) as [[[c|]|e] h1];
    [apply IH'|apply IH'|reflexivity].
Qed.

End Loop.

Lemma sample_frames_after_failure (cap : Video)
      (target_aspect_ratio : AspectRatio) (sample_interval : Z)
      (r : Z -> option Frame) (num_samples k : Z) :
  0 <= k ->
  read cap (frame_pos cap sample_interval k) = None ->
  (forall i, 0 <= i <= k ->
             r (frame_pos cap sample_interval i)
             = read cap (frame_pos cap sample_interval i)) ->
  forall h,
    sample_frames (with_read cap r) target_aspect_ratio sample_interval
                  (range num_samples) [] [] h
    = sample_frames cap target_aspect_ratio sample_interval
                    (range num_samples) [] [] h.
Proof.
  intros Hk Hfail Hr h.
  destruct (Z_lt_le_dec k num_samples) as [Hlt|Hge].
  - destruct (@range_split num_samples k (conj Hk Hlt)) as [rest ->].
    assert (Hfail' : read (with_read cap r)
                          (frame_pos (with_read cap r) sample_interval k)
                     = None).
    { simpl. change (frame_pos (with_read cap r) sample_interval k)
        with (frame_pos cap sample_interval k).
      rewrite Hr by lia. exact Hfail. }
    rewrite (@sample_frames_break
               cap target_aspect_ratio sample_interval
               (range k) rest k Hfail).
    rewrite (@sample_frames_break
               (with_read cap r) target_aspect_ratio sample_interval
               (range k) rest k Hfail').
    apply sample_frames_ext. intros i Hi. apply range_In in Hi.
    apply Hr. lia.
  - apply sample_frames_ext. intros i Hi. apply range_In in Hi.
    apply Hr. lia.
Qed.

(** *** The samples behind the counts and the candidates *)

Lemma calculate_dynamic_crop_face_count (faces : list Detection)
      (frame_width frame_height : Z) (target_aspect_ratio : AspectRatio)
      (h h' : TrackingHistory) (plan : CropPlan) :
  calculate_dynamic_crop faces frame_width frame_height
                         target_aspect_ratio h = (Ok (Some plan), h') ->
  face_count plan = len faces.
Proof.
  destruct faces as [|d ds]; [discriminate|].
  unfold calculate_dynamic_crop. intros H.
  apply AnalysisFacts.bind_inv in H as (ta & h1 & _ & H).
  apply AnalysisFacts.bind_inv in H as ([fx fy] & h2 & _ & H).
  apply AnalysisFacts.bind_inv in H as (early & h3 & Hearly & H).
  destruct early as [c|].
  - unfold ret in H. injection H as <- _.
    apply AnalysisFacts.letterbox_branch_some in Hearly. subst c.
    unfold letterbox_crop.
    destruct (_ >? _); reflexivity.
  - apply AnalysisFacts.bind_inv in H as (c & h4 & Hstd & H).
    unfold ret in H. injection H as <- _.
    unfold standard_crop in Hstd.
    apply AnalysisFacts.bind_inv in Hstd as (current & h5 & _ & Hstd).
    apply AnalysisFacts.bind_inv in Hstd as ([tw th] & h6 & _ & Hstd).
    unfold ret in Hstd. injection Hstd as <- _. reflexivity.
Qed.

Lemma calculate_dynamic_crop_candidate (d : Detection) (ds : list Detection)
      (frame_width frame_height : Z) (target_aspect_ratio : AspectRatio)
      (h h' : TrackingHistory) :
  calculate_dynamic_crop (d :: ds) frame_width frame_height
                         target_aspect_ratio h <> (Ok None, h').
Proof.
  unfold calculate_dynamic_crop. intros H.
  apply AnalysisFacts.bind_inv in H as (ta & h1 & _ & H).
  apply AnalysisFacts.bind_inv in H as ([fx fy] & h2 & _ & H).
  apply AnalysisFacts.bind_inv in H as (early & h3 & _ & H).
  destruct early as [c|].
  - unfold ret in H. discriminate.
  - apply AnalysisFacts.bind_inv in H as (c & h4 & _ & H).
    unfold ret in H. discriminate.
Qed.

Section Samples.
Variable cap : Video.
Variable target_aspect_ratio : AspectRatio.
Variable sample_interval : Z.

(** The loop adds the detection count of every frame it reads, in
    order, and one candidate, carrying that count, for every frame that
    shows a detection. *)
Lemma sample_frames_reads (idxs : list Z) :
  forall (all_crops : list CropPlan) (face_counts : list Z)
         (h h' : TrackingHistory) (crops : list CropPlan)
         (counts : list Z),
    sample_frames cap target_aspect_ratio sample_interval idxs
                  all_crops face_counts h = (Ok (crops, counts), h') ->
    let seen := map detections_in (frames_read cap sample_interval idxs) in
    counts = face_counts ++ seen
    /\ map face_count crops
       = map face_count all_crops ++ filter (fun c => 0 <? c) seen.
Proof.
  induction idxs as [|i rest IH]; intros all_crops face_counts h h'
                                         crops counts Hrun; cbn zeta.
  - unfold sample_frames, ret in Hrun. injection Hrun as <- <- _.
    cbn [frames_read map filter]. rewrite !app_nil_r. split; reflexivity.
  - cbn [sample_frames frames_read] in Hrun |- *.
    destruct (read cap (frame_pos cap sample_interval i)) as [frame|].
    + cbn [map filter].
      assert (Hd : detections_in frame = len (detect_all_faces frame))
        by reflexivity.
      rewrite Hd. clear Hd.
      destruct (detect_all_faces frame) as [|d ds] eqn:Ef.
      * destruct (IH _ _ _ _ _ _ Hrun) as [Hc Hp].
        change (0 <? len []) with false. cbv iota.
        rewrite Hc, Hp, <- app_assoc. split; reflexivity.
      * apply AnalysisFacts.bind_inv in Hrun as (crop & h1 & Hcrop & Hrun).
        destruct crop as [c|];
          [|exfalso; eapply calculate_dynamic_crop_candidate; exact Hcrop].
        destruct (IH _ _ _ _ _ _ Hrun) as [Hc Hp].
        apply calculate_dynamic_crop_face_count in Hcrop.
        assert (Hpos : (0 <? len (d :: ds)) = true)
          by (apply Z.ltb_lt; unfold len; cbn [length]; lia).
        rewrite Hpos, Hc, Hp, map_app, <- !app_assoc.
        cbn [map app]. rewrite Hcrop. split; reflexivity.
    + unfold ret in Hrun. injection Hrun as <- <- _.
      cbn [map filter]. rewrite !app_nil_r. split; reflexivity.
Qed.

(** The frames read are those of the indices before the first failed
    read. *)
Lemma frames_read_before (before after : list Z) (k : Z) :
  (forall i, In i before ->
             read cap (frame_pos cap sample_interval i) <> None) ->
  read cap (frame_pos cap sample_interval k) = None ->
  map Some (frames_read cap sample_interval (before ++ k :: after))
  = map (fun i => read cap (frame_pos cap sample_interval i)) before.
Proof.
  intros Hok Hk. induction before as [|i rest IH]; cbn [app frames_read map].
  - rewrite Hk. reflexivity.
  - destruct (read cap (frame_pos cap sample_interval i)) as [frame|] eqn:E.
    + cbn [map]. rewrite IH; [reflexivity|].
      intros j Hj. apply Hok. right. exact Hj.
    + exfalso. apply (Hok i (or_introl eq_refl)). exact E.
Qed.

Lemma frames_read_length (idxs : list Z) :
  (length (frames_read cap sample_interval idxs) <= length idxs)%nat.
Proof.
  induction idxs as [|i rest IH]; cbn [frames_read length]; [lia|].
  destruct (read cap (frame_pos cap sample_interval i)); cbn [length]; lia.
Qed.

End Samples.

Lemma no_detection_counts (frames : list Frame) :
  filter (fun c => 0 <? c) (map detections_in frames) = []
  <-> Forall (fun frame => detect_all_faces frame = []) frames.
Proof.
  induction frames as [|f fs IH]; cbn [map filter].
  - split; [constructor|reflexivity].
  - unfold detections_in at 1.
    destruct (detect_all_faces f) as [|d ds] eqn:E; cbn [length].
    + change (0 <? Z.of_nat 0) with false. rewrite IH. split.
      * intros H. constructor; assumption.
      * intros H. inversion H. assumption.
    + assert (Hpos : (0 <? Z.of_nat (S (length ds))) = true)
        by (apply Z.ltb_lt; lia).
      rewrite Hpos. split; [discriminate|].
      intros H. inversion H. congruence.
Qed.

End ReadFacts.

(** C8, as the code has it.  A failed read ends the sampling: the
    frames read are those of the sample indices before the first one
    whose frame cannot be read, whatever the frames of the later indices
    are.  The analysis returns None when the video does not open; when
    it opens and no exception is raised the decision is computed from
    the detection counts and the candidates of the frames read, and it
    is None exactly when it collected no crop candidate, that is when
    none of the frames read shows a detection. *)
Theorem failed_read_ends_sampling
        (cap : Video) (target_aspect_ratio : AspectRatio) (num_samples : Z)
        (h : TrackingHistory) :
  let sample_interval :=
    Z.max 1 (CAP_PROP_FRAME_COUNT cap / num_samples) in
  let frames := frames_read cap sample_interval (range num_samples) in
  (forall k : Z,
      0 <= k < num_samples ->
      read cap (frame_pos cap sample_interval k) = None ->
      (forall i, 0 <= i < k ->
                 read cap (frame_pos cap sample_interval i) <> None) ->
      map Some frames
      = map (fun i => read cap (frame_pos cap sample_interval i)) (range k))
  /\ (forall (r : Z -> option Frame) (k : Z),
      0 <= k ->
      read cap (frame_pos cap sample_interval k) = None ->
      (forall i, 0 <= i <= k ->
                 r (frame_pos cap sample_interval i)
                 = read cap (frame_pos cap sample_interval i)) ->
      analyze_video_smooth (with_read cap r) target_aspect_ratio
                           num_samples h
      = analyze_video_smooth cap target_aspect_ratio num_samples h)
  /\ (isOpened cap = false ->
      analyze_video_smooth cap target_aspect_ratio num_samples h
      = (Ok None, h))
  /\ (forall (all_crops : list CropPlan) (face_counts : list Z)
             (h' : TrackingHistory),
         isOpened cap = true ->
         num_samples <> 0 ->
         sample_frames cap target_aspect_ratio sample_interval
                       (range num_samples) [] [] h
         = (Ok (all_crops, face_counts), h') ->
         face_counts = map detections_in frames
         /\ map face_count all_crops
            = filter (fun c => 0 <? c) (map detections_in frames)
         /\ analyze_video_smooth cap target_aspect_ratio num_samples h
            = (Ok (decide all_crops face_counts), h')
         /\ (analyze_video_smooth cap target_aspect_ratio num_samples h
             = (Ok None, h')
             <-> all_crops = [])
         /\ (all_crops = []
             <-> Forall (fun frame => detect_all_faces frame = []) frames)).
Proof.
  cbv zeta. split; [|split; [|split]].
  - intros k Hk Hfail Hbefore.
    destruct (@ReadFacts.range_split num_samples k Hk) as [rest ->].
    apply ReadFacts.frames_read_before; [|exact Hfail].
    intros i Hi. apply ReadFacts.range_In in Hi. now apply Hbefore.
  - intros r k Hk Hfail Hr. unfold analyze_video_smooth.
    change (isOpened (with_read cap r)) with (isOpened cap).
    change (CAP_PROP_FRAME_COUNT (with_read cap r))
      with (CAP_PROP_FRAME_COUNT cap).
    destruct (negb (isOpened cap)); [reflexivity|].
    unfold py_floordiv. destruct (num_samples =? 0); [reflexivity|].
    unfold bind at 1 3. unfold ret at 1 3. unfold bind.
    rewrite (@ReadFacts.sample_frames_after_failure
               cap target_aspect_ratio _ r num_samples k Hk Hfail Hr h).
    reflexivity.
  - intros Hclosed. unfold analyze_video_smooth. rewrite Hclosed.
    reflexivity.
  - intros all_crops face_counts h' Hopen Hn Hrun.
    destruct (@ReadFacts.sample_frames_reads
                _ _ _ _ _ _ _ _ _ _ Hrun) as [Hcounts Hcrops].
    cbn [app map] in Hcounts, Hcrops.
    rewrite (@AnalysisFacts.analyze_video_smooth_run
               _ _ _ _ _ _ _ Hopen Hn Hrun).
    split; [exact Hcounts|]. split; [exact Hcrops|].
    split; [reflexivity|]. split.
    + split.
      * intros H. destruct all_crops as [|c cs]; [reflexivity|].
        rewrite AnalysisFacts.decide_nonempty in H by discriminate.
        discriminate.
      * intros ->. reflexivity.
    + rewrite <- ReadFacts.no_detection_counts, <- Hcrops. split.
      * intros ->. reflexivity.
      * apply map_eq_nil.
Qed.

Lemma failed_read_ends_sampling_witness :
  let cap := clip [Some one_centered; None; Some two_apart] in
  let r := fun pos => if pos =? 0 then Some one_centered
                      else if pos =? 2 then Some one_left else None in
  frames_read cap 1 (range 3) = [one_centered]
  /\ analyze_video_smooth (with_read cap r) portrait 3 []
     = analyze_video_smooth cap portrait 3 [].
Proof.
  intros cap r.
  destruct (@failed_read_ends_sampling cap portrait 3 [])
    as (Hframes & Hlater & _).
  split.
  - specialize (Hframes 1). cbv zeta in Hframes.
    assert (Hread : map Some (frames_read cap 1 (range 3))
                    = [Some one_centered]).
    { apply Hframes.
      - lia.
      - vm_compute. reflexivity.
      - intros i Hi. assert (i = 0) by lia. subst i.
        vm_compute. discriminate. }
    destruct (frames_read cap 1 (range 3)) as [|f [|g fs]];
      cbn [map] in Hread; try discriminate.
    injection Hread as ->. reflexivity.
  - apply (Hlater r 1).
    + lia.
    + vm_compute. reflexivity.
    + intros i Hi. assert (Hcases : i = 0 \/ i = 1) by lia.
      destruct Hcases as [->| ->]; vm_compute; reflexivity.
Defined.

(** C8 fails as stated.  When the first sample cannot be read, the
    analysis returns None although the two later samples each hold a
    face: with the failed read skipped they give two crop candidates. *)
Lemma failed_read_not_skipped :
  let cap := clip [None; Some one_centered; Some one_centered] in
  let tight := mkCropPlan mode_smart 657 0 607 1080 false 1 in
  analyze_video_smooth cap portrait 3 [] = (Ok None, [])
  /\ sample_frames cap portrait 1 (range 3) [] [] [] = (Ok ([], []), [])
  /\ sample_frames_skipping cap portrait 1 (range 3) [] [] []
     = (Ok ([tight; tight], [1; 1]), [(960, 540); (960, 540)]).
Proof.
  vm_compute. repeat split; reflexivity.
Qed.

(** ** The history an analysis starts from *)

Module HistoryFacts.
Import FocusFacts.

Lemma lastn_short {A : Type} (n : nat) (l : list A) :
  (length l <= n)%nat -> lastn n l = l.
Proof.
  intros H. unfold lastn.
  replace (length l - n)%nat with 0%nat by lia. reflexivity.
Qed.

Lemma lastn_app_short {A : Type} (n : nat) (a s : list A) :
  (length s <= n)%nat -> exists b, lastn n (a ++ s) = b ++ s.
Proof.
  intros H. exists (skipn (length a + length s - n) a).
  unfold lastn. rewrite length_app, skipn_app.
  replace (length a + length s - n - length a)%nat with 0%nat by lia.
  reflexivity.
Qed.

Lemma lastn_2 {A : Type} (b : list A) (p q r : A) :
  lastn 2 (b ++ [p; q; r]) = [q; r].
Proof.
  change (b ++ [p; q; r]) with (b ++ [p] ++ [q; r]).
  rewrite app_assoc. exact (lastn_app (b ++ [p]) [q; r]).
Qed.

Lemma same_recent_cases (h1 h2 : TrackingHistory) :
  same_recent h1 h2 ->
  h1 = h2
  \/ exists a1 a2 p q, h1 = a1 ++ [p; q] /\ h2 = a2 ++ [p; q].
Proof.
  unfold same_recent. intros H.
  destruct (lastn_suffix 2 h1) as [a1 [E1 L1]].
  destruct (lastn_suffix 2 h2) as [a2 [E2 L2]].
  destruct (le_lt_dec 2 (length h1)) as [Hge|Hlt].
  - right. rewrite <- H in E2, L2.
    destruct (lastn 2 h1) as [|p [|q [|x l]]]; cbn [length] in L1; try lia.
    exists a1, a2, p, q. split; assumption.
  - left. rewrite (@lastn_short _ 2%nat h1) in H by lia.
    rewrite <- H in L2.
    rewrite (@lastn_short _ 2%nat h2) in H by lia. exact H.
Qed.

(** *** Computations that only look at the last two entries *)

Lemma recent_only_pure {A : Type} (m : M A) (v : result A) :
  (forall h, m h = (v, h)) -> recent_only m.
Proof.
  intros Hm h1 h2 H. rewrite !Hm. split; [reflexivity|exact H].
Qed.

Lemma recent_only_ret {A : Type} (a : A) : recent_only (ret a).
Proof. apply (recent_only_pure _ (v := Ok a)). reflexivity. Qed.

Lemma recent_only_bind {A B : Type} (m : M A) (f : A -> M B) :
  recent_only m -> (forall a, recent_only (f a)) ->
  recent_only (bind m f).
Proof.
  intros Hm Hf h1 h2 H. destruct (Hm h1 h2 H) as [Hv Hs].
  unfold bind.
  destruct (m h1) as [[a1|e1] s1]; destruct (m h2) as [[a2|e2] s2];
    simpl in Hv, Hs; try discriminate.
  - injection Hv as <-. apply Hf, Hs.
  - injection Hv as <-. split; [reflexivity|exact Hs].
Qed.

Lemma recent_only_py_truediv (a b : Q) : recent_only (py_truediv a b).
Proof.
  unfold py_truediv. destruct (Qeq_bool b 0).
  - apply (recent_only_pure _ (v := Raise ZeroDivisionError)).
    reflexivity.
  - apply recent_only_ret.
Qed.

Lemma recent_only_py_floordiv (a b : Z) : recent_only (py_floordiv a b).
Proof.
  unfold py_floordiv. destruct (b =? 0).
  - apply (recent_only_pure _ (v := Raise ZeroDivisionError)).
    reflexivity.
  - apply recent_only_ret.
Qed.

Lemma calculate_smooth_focus_nil (frame_width frame_height : Z)
      (older : TrackingHistory) (p : FocusPoint) :
  calculate_smooth_focus [] frame_width frame_height (older ++ [p])
  = (Ok p, older ++ [p]).
Proof.
  unfold calculate_smooth_focus, bind, get_history.
  destruct (older ++ [p]) eqn:E; [destruct older; discriminate|].
  rewrite <- E, last_last. reflexivity.
Qed.

Lemma recent_only_calculate_smooth_focus (faces : list Detection)
      (frame_width frame_height : Z) :
  recent_only (calculate_smooth_focus faces frame_width frame_height).
Proof.
  intros h1 h2 H. destruct faces as [|d ds].
  - destruct (same_recent_cases H)
      as [->|(a1 & a2 & p & q & -> & ->)]; [split; reflexivity|].
    change [p; q] with ([p] ++ [q]) in *. rewrite !app_assoc in *.
    rewrite !calculate_smooth_focus_nil. cbn [fst snd].
    split; [reflexivity|exact H].
  - rewrite !calculate_smooth_focus_cons. cbn [fst snd].
    set (raw := raw_focus (d :: ds) frame_width frame_height).
    destruct (same_recent_cases H)
      as [->|(a1 & a2 & p & q & -> & ->)]; [split; reflexivity|].
    unfold deque_append. rewrite <- !app_assoc. simpl app.
    destruct (@lastn_app_short _ maxlen a1 [p; q; raw]) as [b1 ->];
      [simpl; unfold maxlen; lia|].
    destruct (@lastn_app_short _ maxlen a2 [p; q; raw]) as [b2 ->];
      [simpl; unfold maxlen; lia|].
    destruct (smoothed_spec raw (b1 ++ [p; q; raw])) as [_ S1].
    destruct (smoothed_spec raw (b2 ++ [p; q; raw])) as [_ S2].
    rewrite (S1 b1 p q raw eq_refl), (S2 b2 p q raw eq_refl).
    split; [reflexivity|]. unfold same_recent. now rewrite !lastn_2.
Qed.

Lemma recent_only_letterbox_branch (faces : list Detection)
      (frame_width frame_height : Z) (target_aspect : Q)
      (focus_x focus_y : Z) :
  recent_only (letterbox_branch faces frame_width frame_height
                                target_aspect focus_x focus_y).
Proof.
  unfold letterbox_branch.
  destruct (Qlt_bool target_aspect 1 && (2 <=? len faces));
    [|apply recent_only_ret].
  destruct (face_group faces) as [gw gh].
  destruct (0 <? gh); [|apply recent_only_ret].
  apply recent_only_bind; [apply recent_only_py_truediv|].
  intros hs. destruct (Qlt_bool (3 # 2) _ && Qlt_bool (4 # 10) hs);
    apply recent_only_ret.
Qed.

Lemma recent_only_standard_crop (faces : list Detection)
      (frame_width frame_height : Z) (target_aspect : Q)
      (focus_x focus_y : Z) :
  recent_only (standard_crop faces frame_width frame_height
                             target_aspect focus_x focus_y).
Proof.
  unfold standard_crop.
  apply recent_only_bind; [apply recent_only_py_truediv|].
  intros current. apply recent_only_bind.
  - destruct (Qlt_bool current target_aspect); [|apply recent_only_ret].
    apply recent_only_bind; [apply recent_only_py_truediv|].
    intros q. apply recent_only_ret.
  - intros [tw th]. apply recent_only_ret.
Qed.

Lemma recent_only_calculate_dynamic_crop (faces : list Detection)
      (frame_width frame_height : Z) (target_aspect_ratio : AspectRatio) :
  recent_only (calculate_dynamic_crop faces frame_width frame_height
                                      target_aspect_ratio).
Proof.
  unfold calculate_dynamic_crop.
  destruct faces as [|d ds]; [apply recent_only_ret|].
  apply recent_only_bind; [apply recent_only_py_truediv|].
  intros ta. apply recent_only_bind;
    [apply recent_only_calculate_smooth_focus|].
  intros [fx fy]. apply recent_only_bind;
    [apply recent_only_letterbox_branch|].
  intros [c|]; [apply recent_only_ret|].
  apply recent_only_bind; [apply recent_only_standard_crop|].
  intros c. apply recent_only_ret.
Qed.

Lemma recent_only_sample_frames (cap : Video)
      (target_aspect_ratio : AspectRatio) (sample_interval : Z)
      (idxs : list Z) :
  forall all_crops face_counts,
    recent_only (sample_frames cap target_aspect_ratio sample_interval
                               idxs all_crops face_counts).
Proof.
  induction idxs as [|i rest IH]; intros all_crops face_counts; simpl.
  - apply recent_only_ret.
  - destruct (read cap (frame_pos cap sample_interval i)) as [frame|];
      [|apply recent_only_ret].
    destruct (detect_all_faces frame) as [|d ds]; [apply IH|].
    apply recent_only_bind; [apply recent_only_calculate_dynamic_crop|].
    intros [c|]; apply IH.
Qed.

Lemma recent_only_analyze_video_smooth (cap : Video)
      (target_aspect_ratio : AspectRatio) (num_samples : Z) :
  recent_only (analyze_video_smooth cap target_aspect_ratio num_samples).
Proof.
  unfold analyze_video_smooth.
  destruct (negb (isOpened cap)); [apply recent_only_ret|].
  apply recent_only_bind; [apply recent_only_py_floordiv|].
  intros q. apply recent_only_bind; [apply recent_only_sample_frames|].
  intros [all_crops face_counts]. apply recent_only_ret.
Qed.

End HistoryFacts.

(** C4, as the code has it.  The decision returned for a video depends
    on the analysis's own inputs and on the history the shared cropper
    holds when the analysis starts, through its last two entries: two
    runs of [analyze_video_smooth] on the same video and arguments
    return the same result, and leave histories with the same last two
    entries, whenever the histories they start from have the same last
    two entries. *)
Theorem analysis_depends_on_recent_history
        (cap : Video) (target_aspect_ratio : AspectRatio) (num_samples : Z)
        (h1 h2 : TrackingHistory) :
  lastn 2 h1 = lastn 2 h2 ->
  fst (analyze_video_smooth cap target_aspect_ratio num_samples h1)
  = fst (analyze_video_smooth cap target_aspect_ratio num_samples h2)
  /\ lastn 2 (snd (analyze_video_smooth cap target_aspect_ratio
                                        num_samples h1))
     = lastn 2 (snd (analyze_video_smooth cap target_aspect_ratio
                                          num_samples h2)).
Proof.
  exact (@HistoryFacts.recent_only_analyze_video_smooth
           cap target_aspect_ratio num_samples h1 h2).
Qed.

Lemma analysis_depends_on_recent_history_witness :
  let h1 := [(1, 1); (140, 540); (140, 540)] in
  let h2 := [(140, 540); (140, 540)] in
  fst (analyze_video_smooth opening_face portrait num_samples_default h1)
  = fst (analyze_video_smooth opening_face portrait num_samples_default h2).
Proof.
  intros h1 h2.
  destruct (@analysis_depends_on_recent_history
              opening_face portrait num_samples_default h1 h2) as [Hsame _].
  - reflexivity.
  - exact Hsame.
Defined.

(** C4 fails as stated.  The module-level cropper keeps its history from
    one analysis to the next: analysed first, the clip with a face at
    the centre of its first three frames is cropped at x = 657; analysed
    after a clip with a face at the left, the same clip with the same
    arguments is cropped at x = 383. *)
Lemma analysis_depends_on_earlier_videos :
  let fresh := mkCropPlan mode_smart_smooth 657 0 607 1080 false 1 in
  let stale := mkCropPlan mode_smart_smooth 383 0 607 1080 false 1 in
  let earlier := mkCropPlan mode_smart_smooth 0 0 607 1080 false 1 in
  fst (analyses [(opening_face, portrait)] advanced_cropper)
  = [Ok (Some fresh)]
  /\ fst (analyses [(left_face, portrait); (opening_face, portrait)]
                   advanced_cropper)
     = [Ok (Some earlier); Ok (Some stale)]
  /\ fresh <> stale.
Proof.
  intros fresh stale earlier.
  split; [vm_compute; reflexivity|].
  split; [vm_compute; reflexivity|]. discriminate.
Qed.

(** ** The specification's scenarios, run on the code *)

(** Scenario A: one centred face, 1920x1080, target 9:16. *)
Example scenario_A :
  calculate_dynamic_crop [mkDetection 920 500 80 80 1] 1920 1080 portrait []
  = (Ok (Some (mkCropPlan mode_smart 657 0 607 1080 false 1)), [(960, 540)]).
Proof. vm_compute. reflexivity. Qed.

(** Scenario B: two faces far apart, portrait target. *)
Example scenario_B :
  face_group [mkDetection 100 400 80 80 1; mkDetection 1700 420 80 80 1]
  = (1680, 100)
  /\ letterbox_eligibleb
       [mkDetection 100 400 80 80 1; mkDetection 1700 420 80 80 1]
       1920 (target_aspect_of portrait) = true.
Proof. vm_compute. split; reflexivity. Qed.

(** Scenario C: of two overlapping detections the more confident one
    survives. *)
Example scenario_C :
  non_max_suppression
    [mkDetection 10 10 100 100 (9 # 10); mkDetection 20 20 100 100 (6 # 10)]
    overlap_thresh_default
  = [mkDetection 10 10 100 100 (9 # 10)].
Proof. vm_compute. reflexivity. Qed.

(** Scenario D: ten candidates, seven of them eligible, 2.3 detections
    on average: the fourth eligible candidate in capture order. *)
Example scenario_D :
  let wide := fun i => mkCropPlan mode_letterbox i 0 1920 1080 true 2 in
  let tight := fun i => mkCropPlan mode_smart i 0 607 1080 false 1 in
  decide [wide 0; tight 1; wide 2; wide 3; tight 4; wide 5; wide 6; tight 7;
          wide 8; wide 9]
         [3; 2; 3; 2; 2; 3; 2; 2; 2; 2]
  = Some (wide 5).
Proof. vm_compute. reflexivity. Qed.

(** Scenario E: ten candidates, two of them eligible: a standard crop. *)
Example scenario_E :
  let wide := fun i => mkCropPlan mode_letterbox i 0 1920 1080 true 2 in
  let tight := fun i => mkCropPlan mode_smart i 0 607 1080 false 1 in
  decide [wide 0; tight 1; tight 2; tight 3; tight 4; wide 5; tight 6;
          tight 7; tight 8; tight 9]
         [2; 1; 1; 1; 1; 2; 1; 1; 1; 1]
  = Some (mkCropPlan mode_smart_smooth 5 0 607 1080 false 1).
Proof. vm_compute. reflexivity. Qed.

(** * Further properties of the code *)

(** ** [non_max_suppression]: what is kept and what is dropped *)

Module NMSKept.
Import NMSFacts.

Lemma argsort_NoDup (scores : list Q) : NoDup (rev (argsort scores)).
Proof.
  apply (Permutation_NoDup (l := seq 0 (length scores))); [|apply seq_NoDup].
  rewrite <- (Permutation_rev (argsort scores)).
  apply Permutation_sym, argsort_upto_perm.
Qed.

Lemma argsort_bound (scores : list Q) (i : nat) :
  In i (rev (argsort scores)) -> (i < length scores)%nat.
Proof.
  intros Hi. apply in_rev in Hi.
  apply (Permutation_in _ (argsort_upto_perm scores _)) in Hi.
  apply in_seq in Hi. lia.
Qed.

Lemma argsort_length (scores : list Q) :
  length (rev (argsort scores)) = length scores.
Proof.
  unfold argsort.
  rewrite length_rev, (Permutation_length (argsort_upto_perm scores _)).
  apply length_seq.
Qed.

Lemma nms_loop_NoDup (faces : list Detection) (thresh : Q)
      (idxs : list nat) :
  NoDup idxs -> NoDup (nms_loop faces thresh idxs).
Proof.
  rewrite !NoDup_iff_ForallOrdPairs. apply nms_loop_FOP.
Qed.

(** Every candidate is kept, or was deleted by a kept candidate visited
    before it. *)
Lemma nms_loop_dominates (faces : list Detection) (thresh : Q)
      (R : nat -> nat -> Prop) (idxs : list nat) :
  ForallOrdPairs R idxs ->
  forall j, In j idxs ->
    In j (nms_loop faces thresh idxs)
    \/ exists k, In k (nms_loop faces thresh idxs)
                 /\ R k j /\ survives faces thresh k j = false.
Proof.
  funelim (nms_loop faces thresh idxs); intros HR j Hj.
  - contradiction.
  - inversion HR as [|? ? Hi Hrest]; subst.
    destruct Hj as [->|Hj]; [left; now left|].
    destruct (survives faces thresh i j) eqn:E.
    + destruct (H R (@FOP_filter _ R _ _ Hrest) j)
        as [Hk|(k & Hk & HRk & Hs)].
      * apply filter_In. split; assumption.
      * left. now right.
      * right. exists k. split; [now right|]. split; assumption.
    + right. exists i. split; [now left|]. split; [|exact E].
      rewrite Forall_forall in Hi. apply Hi, Hj.
Qed.

Lemma no_intersection_no_overlap (a b : Detection) (thresh : Q) :
  (0 <= thresh)%Q -> intersection a b = 0 ->
  np_greater (overlap a b) thresh = false.
Proof.
  intros Ht H. unfold overlap. rewrite H.
  unfold np_divide. destruct (Qeq_bool _ 0); [reflexivity|].
  simpl. apply Qlt_bool_false_iff.
  change (inject_Z 0) with 0%Q. unfold Qdiv. rewrite Qmult_0_l. exact Ht.
Qed.

End NMSKept.

(** X1.  The kept list is made of input detections, each input position
    taken at most once: non-max suppression invents no box and returns
    no more boxes than it was given. *)
Theorem non_max_suppression_selects
        (faces : list Detection) (overlap_thresh : Q) :
  exists idxs : list nat,
    NoDup idxs
    /\ Forall (fun i => (i < length faces)%nat) idxs
    /\ non_max_suppression faces overlap_thresh
       = map (fun i => nth i faces no_face) idxs
    /\ (forall d, In d (non_max_suppression faces overlap_thresh) ->
                  In d faces)
    /\ (length (non_max_suppression faces overlap_thresh)
        <= length faces)%nat.
Proof.
  unfold non_max_suppression. destruct (len faces =? 0).
  - exists []. repeat split; try constructor; simpl; try tauto; lia.
  - set (idxs := rev (argsort (map det_conf faces))).
    set (keep := nms_loop faces overlap_thresh idxs).
    assert (Hnd : NoDup keep)
      by (apply NMSKept.nms_loop_NoDup, NMSKept.argsort_NoDup).
    assert (Hb : forall i, In i keep -> (i < length faces)%nat).
    { intros i Hi. apply NMSFacts.nms_loop_In in Hi.
      apply NMSKept.argsort_bound in Hi. now rewrite length_map in Hi. }
    exists keep. split; [exact Hnd|].
    split; [apply Forall_forall; exact Hb|]. split; [reflexivity|]. split.
    + intros d Hd. apply in_map_iff in Hd. destruct Hd as (i & <- & Hi).
      apply nth_In, Hb, Hi.
    + rewrite length_map.
      apply Nat.le_trans with (length (seq 0 (length faces)));
        [|rewrite length_seq; lia].
      apply NoDup_incl_length; [exact Hnd|].
      intros i Hi. apply in_seq. specialize (Hb i Hi). lia.
Qed.

(** X2.  On a non-empty input the kept list is not empty, and its first
    detection is an input detection of the highest confidence. *)
Theorem non_max_suppression_keeps_best
        (faces : list Detection) (overlap_thresh : Q) :
  faces <> [] ->
  exists (best : Detection) (others : list Detection),
    non_max_suppression faces overlap_thresh = best :: others
    /\ In best faces
    /\ forall d, In d faces -> (det_conf d <= det_conf best)%Q.
Proof.
  intros Hne. unfold non_max_suppression.
  destruct (len faces =? 0) eqn:E.
  { apply Z.eqb_eq in E. destruct faces; [congruence|].
    unfold len in E. simpl in E. lia. }
  pose proof (NMSKept.argsort_length (map det_conf faces)) as Hlen.
  pose proof (FOP_rev (NMSFacts.argsort_sorted (map det_conf faces)))
    as Hsorted.
  pose proof (@NMSKept.argsort_bound (map det_conf faces)) as Hbound.
  pose proof (@NMSFacts.argsort_In (map det_conf faces)) as Hall.
  rewrite length_map in Hlen.
  destruct (rev (argsort (map det_conf faces))) as [|i0 rest].
  { destruct faces; [congruence|]. simpl in Hlen. lia. }
  simp nms_loop. simpl map.
  exists (face_at faces i0), (map (face_at faces)
            (nms_loop faces overlap_thresh
                      (filter (survives faces overlap_thresh i0) rest))).
  split; [reflexivity|]. split.
  - apply nth_In. specialize (Hbound i0 (or_introl eq_refl)).
    now rewrite length_map in Hbound.
  - intros d Hd. destruct (In_nth _ _ no_face Hd) as (j & Hj & <-).
    rewrite length_map in Hall. destruct (Hall j Hj) as [<-|Hin].
    + apply Qle_refl.
    + inversion Hsorted as [|? ? Hfirst _]; subst.
      rewrite Forall_forall in Hfirst. specialize (Hfirst j Hin).
      unfold score_le in Hfirst. rewrite !NMSFacts.score_nth in Hfirst.
      exact Hfirst.
Qed.

Lemma non_max_suppression_keeps_best_witness :
  let a := mkDetection 10 10 100 100 (8 # 10) in
  let b := mkDetection 20 20 100 100 1 in
  exists (best : Detection) (others : list Detection),
    non_max_suppression [a; b] overlap_thresh_default = best :: others
    /\ In best [a; b]
    /\ forall d, In d [a; b] -> (det_conf d <= det_conf best)%Q.
Proof.
  intros a b.
  apply (@non_max_suppression_keeps_best [a; b] overlap_thresh_default).
  discriminate.
Defined.

(** X3.  Every input detection is kept, or lies above the threshold
    against a kept detection of at least its confidence: nothing is
    dropped without a kept box that covers it. *)
Theorem non_max_suppression_dominates
        (faces : list Detection) (overlap_thresh : Q) (d : Detection) :
  In d faces ->
  In d (non_max_suppression faces overlap_thresh)
  \/ exists k,
       In k (non_max_suppression faces overlap_thresh)
       /\ (det_conf d <= det_conf k)%Q
       /\ np_greater (overlap k d) overlap_thresh = true.
Proof.
  intros Hd. unfold non_max_suppression.
  destruct (len faces =? 0) eqn:E.
  { apply Z.eqb_eq in E. destruct faces; [contradiction|].
    unfold len in E. simpl in E. lia. }
  destruct (In_nth _ _ no_face Hd) as (j & Hj & <-).
  pose proof (FOP_rev (NMSFacts.argsort_sorted (map det_conf faces)))
    as Hsorted.
  assert (Hin : In j (rev (argsort (map det_conf faces))))
    by (apply NMSFacts.argsort_In; now rewrite length_map).
  destruct (NMSKept.nms_loop_dominates faces overlap_thresh Hsorted j Hin)
    as [Hk|(k & Hk & Hle & Hs)].
  - left. exact (in_map (face_at faces) _ _ Hk).
  - right. exists (face_at faces k).
    split; [exact (in_map (face_at faces) _ _ Hk)|]. split.
    + unfold score_le in Hle. rewrite !NMSFacts.score_nth in Hle.
      exact Hle.
    + unfold survives in Hs. apply negb_false_iff in Hs. exact Hs.
Qed.

Lemma non_max_suppression_dominates_witness :
  let a := mkDetection 10 10 100 100 1 in
  let c := mkDetection 20 20 100 100 (6 # 10) in
  In c (non_max_suppression [c; a] overlap_thresh_default)
  \/ exists k,
       In k (non_max_suppression [c; a] overlap_thresh_default)
       /\ (det_conf c <= det_conf k)%Q
       /\ np_greater (overlap k c) overlap_thresh_default = true.
Proof.
  intros a c.
  apply (@non_max_suppression_dominates [c; a] overlap_thresh_default c).
  simpl. left. reflexivity.
Defined.

(** X4.  At a threshold that is not negative, a detection that
    intersects no other input detection is kept. *)
Theorem non_max_suppression_keeps_isolated
        (faces : list Detection) (overlap_thresh : Q) (i : nat) :
  (0 <= overlap_thresh)%Q ->
  (i < length faces)%nat ->
  (forall j, (j < length faces)%nat -> j <> i ->
             intersection (nth j faces no_face) (nth i faces no_face) = 0) ->
  In (nth i faces no_face) (non_max_suppression faces overlap_thresh).
Proof.
  intros Ht Hi Hfree. unfold non_max_suppression.
  destruct (len faces =? 0) eqn:E.
  { apply Z.eqb_eq in E. unfold len in E. lia. }
  pose proof (NMSKept.argsort_NoDup (map det_conf faces)) as Hnd.
  apply NoDup_iff_ForallOrdPairs in Hnd.
  assert (Hin : In i (rev (argsort (map det_conf faces))))
    by (apply NMSFacts.argsort_In; now rewrite length_map).
  destruct (NMSKept.nms_loop_dominates faces overlap_thresh Hnd i Hin)
    as [Hk|(k & Hk & Hneq & Hs)].
  - exact (in_map (face_at faces) _ _ Hk).
  - exfalso. apply NMSFacts.nms_loop_In, NMSKept.argsort_bound in Hk.
    rewrite length_map in Hk.
    unfold survives, face_at in Hs. apply negb_false_iff in Hs.
    rewrite (NMSKept.no_intersection_no_overlap _ _ Ht (Hfree k Hk Hneq))
      in Hs.
    discriminate.
Qed.

Lemma non_max_suppression_keeps_isolated_witness :
  let a := mkDetection 10 10 100 100 1 in
  let b := mkDetection 500 10 100 100 (8 # 10) in
  In b (non_max_suppression [a; b] overlap_thresh_default).
Proof.
  intros a b.
  apply (@non_max_suppression_keeps_isolated
           [a; b] overlap_thresh_default 1%nat).
  - vm_compute. discriminate.
  - simpl. lia.
  - intros j Hj Hneq. simpl in Hj.
    assert (j = 0%nat) by lia. subst j. reflexivity.
Defined.

(** ** [detect_all_faces] *)

Module DetectFacts.

Lemma non_max_suppression_In (faces : list Detection) (thresh : Q)
      (d : Detection) :
  In d (non_max_suppression faces thresh) -> In d faces.
Proof.
  unfold non_max_suppression. destruct (len faces =? 0); [contradiction|].
  intros Hd. apply in_map_iff in Hd. destruct Hd as (i & <- & Hi).
  apply NMSFacts.nms_loop_In, NMSKept.argsort_bound in Hi.
  rewrite length_map in Hi. apply nth_In, Hi.
Qed.

Lemma non_max_suppression_nil (faces : list Detection) (thresh : Q) :
  non_max_suppression faces thresh = [] <-> faces = [].
Proof.
  split; [|intros ->; reflexivity].
  unfold non_max_suppression. destruct (len faces =? 0) eqn:E.
  - intros _. apply Z.eqb_eq in E. destruct faces; [reflexivity|].
    unfold len in E. simpl in E. lia.
  - pose proof (NMSKept.argsort_length (map det_conf faces)) as Hlen.
    rewrite length_map in Hlen.
    destruct (rev (argsort (map det_conf faces))) as [|i0 rest].
    + intros _. destruct faces; [reflexivity|]. simpl in Hlen. lia.
    + simp nms_loop. discriminate.
Qed.

Lemma len_zero_match {A : Type} (l fallback : list A) :
  (if len l =? 0 then fallback else l)
  = match l with [] => fallback | _ :: _ => l end.
Proof. destruct l; reflexivity. Qed.

Lemma detect_all_faces_candidates (frame : Frame) :
  detect_all_faces frame
  = non_max_suppression
      (match face_candidates frame with
       | [] => body_candidates frame
       | _ :: _ => face_candidates frame
       end)
      overlap_thresh_default.
Proof.
  unfold detect_all_faces. cbv zeta. rewrite len_zero_match.
  fold (body_candidates frame).
  assert (E : match profile_flip frame with
              | Some found0 =>
                  match profile frame with
                  | Some found1 =>
                      map (with_confidence 1) (frontal frame)
                      ++ map (with_confidence (8 # 10)) found1
                  | None => map (with_confidence 1) (frontal frame)
                  end
                  ++ map (fun r =>
                            mkDetection
                              (gray_width frame - rect_x r - rect_w r)
                              (rect_y r) (rect_w r) (rect_h r) (8 # 10))
                         found0
              | None =>
                  match profile frame with
                  | Some found1 =>
                      map (with_confidence 1) (frontal frame)
                      ++ map (with_confidence (8 # 10)) found1
                  | None => map (with_confidence 1) (frontal frame)
                  end
              end = face_candidates frame).
  { unfold face_candidates, found.
    destruct (profile frame); destruct (profile_flip frame); simpl;
      rewrite ?app_nil_r, ?app_assoc; reflexivity. }
  rewrite E. reflexivity.
Qed.

End DetectFacts.

Module DetectBounds.

Lemma py_int_nonneg (q : Q) :
  (0 <= q)%Q -> 0 <= py_int q /\ (inject_Z (py_int q) <= q)%Q.
Proof.
  intros Hq. unfold py_int.
  assert (E : Qle_bool 0 q = true) by now apply Qle_bool_iff.
  rewrite E. split; [|apply Qfloor_le].
  change 0 with (Qfloor 0). now apply Qfloor_resp_le.
Qed.

Lemma body_estimate_height (h : Z) :
  0 <= h ->
  0 <= py_int (inject_Z h * (1 # 10))
  /\ 0 <= py_int (inject_Z h * (3 # 10))
  /\ py_int (inject_Z h * (1 # 10)) + py_int (inject_Z h * (3 # 10)) <= h.
Proof.
  intros Hh.
  assert (HQ : (0 <= inject_Z h)%Q) by (unfold Qle; simpl; lia).
  destruct (@py_int_nonneg (inject_Z h * (1 # 10))) as [Ha Ha']; [lra|].
  destruct (@py_int_nonneg (inject_Z h * (3 # 10))) as [Hb Hb']; [lra|].
  split; [exact Ha|]. split; [exact Hb|].
  rewrite Zle_Qle, inject_Z_plus. lra.
Qed.

Lemma face_candidates_inside (frame : Frame) (H : Z) :
  Forall (rect_inside (gray_width frame) H) (frontal frame) ->
  Forall (rect_inside (gray_width frame) H) (found (profile frame)) ->
  Forall (rect_inside (gray_width frame) H) (found (profile_flip frame)) ->
  Forall (det_inside (gray_width frame) H) (face_candidates frame).
Proof.
  intros Hf Hp Hq. unfold face_candidates.
  repeat (apply Forall_app; split); apply Forall_map;
    [eapply Forall_impl; [|exact Hf]
    |eapply Forall_impl; [|exact Hp]
    |eapply Forall_impl; [|exact Hq]];
    intros r Hr; unfold rect_inside in Hr; unfold det_inside; simpl; lia.
Qed.

Lemma body_candidates_inside (frame : Frame) (W H : Z) :
  Forall (rect_inside W H) (bodies frame) ->
  Forall (det_inside W H) (body_candidates frame).
Proof.
  intros Hb. unfold body_candidates. apply Forall_map.
  eapply Forall_impl; [|exact Hb].
  intros r (Hx & Hw & Hxw & Hy & Hh & Hyh). unfold det_inside. simpl.
  destruct (body_estimate_height Hh) as (Ha & Hb' & Hab).
  assert (0 <= rect_w r / 4) by (apply Z.div_pos; lia).
  assert (0 <= rect_w r / 2) by (apply Z.div_pos; lia).
  assert (rect_w r / 4 + rect_w r / 2 <= rect_w r).
  { pose proof (Z.mul_div_le (rect_w r) 4 ltac:(lia)).
    pose proof (Z.mul_div_le (rect_w r) 2 ltac:(lia)). lia. }
  lia.
Qed.

End DetectBounds.

(** X5.  [detect_all_faces] returns no detection only when every search
    found nothing, the upper-body search of the fallback included. *)
Theorem detect_all_faces_empty (frame : Frame) :
  detect_all_faces frame = []
  <-> frontal frame = []
      /\ found (profile frame) = []
      /\ found (profile_flip frame) = []
      /\ bodies frame = [].
Proof.
  rewrite DetectFacts.detect_all_faces_candidates.
  rewrite DetectFacts.non_max_suppression_nil.
  unfold face_candidates, body_candidates. split.
  - intros H.
    destruct (map (with_confidence 1) (frontal frame) ++ _) eqn:E;
      [|discriminate].
    apply app_eq_nil in E. destruct E as [E1 E].
    apply app_eq_nil in E. destruct E as [E2 E3].
    apply map_eq_nil in E1, E2, E3, H. tauto.
  - intros (-> & -> & -> & ->). reflexivity.
Qed.

(** X6.  When the boxes the cascades return lie inside the frame, so do
    the detections [detect_all_faces] returns: the mirrored profile
    boxes and the faces estimated from upper bodies stay inside. *)
Theorem detect_all_faces_inside (frame : Frame) (H : Z) :
  Forall (rect_inside (gray_width frame) H) (frontal frame) ->
  Forall (rect_inside (gray_width frame) H) (found (profile frame)) ->
  Forall (rect_inside (gray_width frame) H) (found (profile_flip frame)) ->
  Forall (rect_inside (gray_width frame) H) (bodies frame) ->
  Forall (det_inside (gray_width frame) H) (detect_all_faces frame).
Proof.
  intros Hf Hp Hq Hb.
  rewrite DetectFacts.detect_all_faces_candidates.
  apply Forall_forall. intros d Hd.
  apply DetectFacts.non_max_suppression_In in Hd.
  pose proof (DetectBounds.face_candidates_inside frame Hf Hp Hq) as Hfaces.
  pose proof (DetectBounds.body_candidates_inside frame Hb) as Hbodies.
  rewrite Forall_forall in Hfaces, Hbodies.
  destruct (face_candidates frame) as [|c cs] eqn:E.
  - apply Hbodies, Hd.
  - apply Hfaces, Hd.
Qed.

Lemma detect_all_faces_inside_witness :
  let frame := mkFrame [] (Some []) (Some [mkRect 100 400 80 90]) 1920
                       [mkRect 0 0 401 203] in
  Forall (det_inside 1920 1080) (detect_all_faces frame)
  /\ detect_all_faces frame = [mkDetection 1740 400 80 90 (8 # 10)].
Proof.
  intros frame. split; [|vm_compute; reflexivity].
  apply (@detect_all_faces_inside frame 1080).
  - constructor.
  - constructor.
  - repeat constructor; simpl; lia.
  - repeat constructor; simpl; lia.
Defined.

(** X7.  A detection returned by [detect_all_faces] has confidence 1.0
    or 0.8 when it comes from a face search; it has confidence 0.6, an
    estimate from an upper body, only when no face search found
    anything. *)
Theorem detect_all_faces_confidence (frame : Frame) (d : Detection) :
  In d (detect_all_faces frame) ->
  (det_conf d = 1%Q \/ det_conf d = (8 # 10)%Q)
  \/ (det_conf d = (6 # 10)%Q
      /\ frontal frame = []
      /\ found (profile frame) = []
      /\ found (profile_flip frame) = []).
Proof.
  rewrite DetectFacts.detect_all_faces_candidates. intros Hd.
  apply DetectFacts.non_max_suppression_In in Hd.
  destruct (face_candidates frame) as [|c cs] eqn:E.
  - right. unfold face_candidates in E.
    apply app_eq_nil in E. destruct E as [E1 E].
    apply app_eq_nil in E. destruct E as [E2 E3].
    apply map_eq_nil in E1, E2, E3.
    unfold body_candidates in Hd. apply in_map_iff in Hd.
    destruct Hd as (r & <- & _). tauto.
  - left. rewrite <- E in Hd. unfold face_candidates in Hd.
    rewrite !in_app_iff, !in_map_iff in Hd.
    destruct Hd as [(r & <- & _)|[(r & <- & _)|(r & <- & _)]];
      simpl; tauto.
Qed.

Lemma detect_all_faces_confidence_witness :
  let frame := mkFrame [] (Some []) (Some []) 1920 [mkRect 0 0 401 203] in
  let d := mkDetection 100 20 200 60 (6 # 10) in
  detect_all_faces frame = [d]
  /\ ((det_conf d = 1%Q \/ det_conf d = (8 # 10)%Q)
      \/ (det_conf d = (6 # 10)%Q
          /\ frontal frame = []
          /\ found (profile frame) = []
          /\ found (profile_flip frame) = [])).
Proof.
  intros frame d. split; [vm_compute; reflexivity|].
  apply (@detect_all_faces_confidence frame d).
  vm_compute. left. reflexivity.
Defined.

(** ** The history stays bounded *)

Module BoundedFacts.

Lemma keeps_bounded_pure {A : Type} (m : M A) (v : result A) :
  (forall h, m h = (v, h)) -> keeps_bounded m.
Proof. intros Hm h Hh. now rewrite Hm. Qed.

Lemma keeps_bounded_ret {A : Type} (a : A) : keeps_bounded (ret a).
Proof. apply (keeps_bounded_pure _ (v := Ok a)). reflexivity. Qed.

Lemma keeps_bounded_bind {A B : Type} (m : M A) (f : A -> M B) :
  keeps_bounded m -> (forall a, keeps_bounded (f a)) ->
  keeps_bounded (bind m f).
Proof.
  intros Hm Hf h Hh. specialize (Hm h Hh). unfold bind.
  destruct (m h) as [[a|e] h1]; simpl in Hm; [apply Hf, Hm|exact Hm].
Qed.

Lemma keeps_bounded_py_truediv (a b : Q) : keeps_bounded (py_truediv a b).
Proof.
  unfold py_truediv. destruct (Qeq_bool b 0).
  - apply (keeps_bounded_pure _ (v := Raise ZeroDivisionError)).
    reflexivity.
  - apply keeps_bounded_ret.
Qed.

Lemma keeps_bounded_py_floordiv (a b : Z) :
  keeps_bounded (py_floordiv a b).
Proof.
  unfold py_floordiv. destruct (b =? 0).
  - apply (keeps_bounded_pure _ (v := Raise ZeroDivisionError)).
    reflexivity.
  - apply keeps_bounded_ret.
Qed.

Lemma deque_append_length (h : TrackingHistory) (p : FocusPoint) :
  length (deque_append h p) = Nat.min maxlen (length h + 1).
Proof.
  unfold deque_append.
  destruct (FocusFacts.lastn_suffix maxlen (h ++ [p])) as [_ [_ L]].
  rewrite length_app in L. exact L.
Qed.

Lemma keeps_bounded_calculate_smooth_focus (faces : list Detection)
      (frame_width frame_height : Z) :
  keeps_bounded (calculate_smooth_focus faces frame_width frame_height).
Proof.
  intros h Hh. destruct faces as [|d ds].
  - unfold calculate_smooth_focus, bind, get_history.
    destruct h; exact Hh.
  - rewrite FocusFacts.calculate_smooth_focus_cons. cbn [snd].
    rewrite deque_append_length. lia.
Qed.

Lemma keeps_bounded_letterbox_branch (faces : list Detection)
      (frame_width frame_height : Z) (target_aspect : Q)
      (focus_x focus_y : Z) :
  keeps_bounded (letterbox_branch faces frame_width frame_height
                                  target_aspect focus_x focus_y).
Proof.
  unfold letterbox_branch.
  destruct (Qlt_bool target_aspect 1 && (2 <=? len faces));
    [|apply keeps_bounded_ret].
  destruct (face_group faces) as [gw gh].
  destruct (0 <? gh); [|apply keeps_bounded_ret].
  apply keeps_bounded_bind; [apply keeps_bounded_py_truediv|].
  intros hs. destruct (Qlt_bool (3 # 2) _ && Qlt_bool (4 # 10) hs);
    apply keeps_bounded_ret.
Qed.

Lemma keeps_bounded_standard_crop (faces : list Detection)
      (frame_width frame_height : Z) (target_aspect : Q)
      (focus_x focus_y : Z) :
  keeps_bounded (standard_crop faces frame_width frame_height
                               target_aspect focus_x focus_y).
Proof.
  unfold standard_crop.
  apply keeps_bounded_bind; [apply keeps_bounded_py_truediv|].
  intros current. apply keeps_bounded_bind.
  - destruct (Qlt_bool current target_aspect); [|apply keeps_bounded_ret].
    apply keeps_bounded_bind; [apply keeps_bounded_py_truediv|].
    intros q. apply keeps_bounded_ret.
  - intros [tw th]. apply keeps_bounded_ret.
Qed.

Lemma keeps_bounded_calculate_dynamic_crop (faces : list Detection)
      (frame_width frame_height : Z) (target_aspect_ratio : AspectRatio) :
  keeps_bounded (calculate_dynamic_crop faces frame_width frame_height
                                        target_aspect_ratio).
Proof.
  unfold calculate_dynamic_crop.
  destruct faces as [|d ds]; [apply keeps_bounded_ret|].
  apply keeps_bounded_bind; [apply keeps_bounded_py_truediv|].
  intros ta. apply keeps_bounded_bind;
    [apply keeps_bounded_calculate_smooth_focus|].
  intros [fx fy]. apply keeps_bounded_bind;
    [apply keeps_bounded_letterbox_branch|].
  intros [c|]; [apply keeps_bounded_ret|].
  apply keeps_bounded_bind; [apply keeps_bounded_standard_crop|].
  intros c. apply keeps_bounded_ret.
Qed.

Lemma keeps_bounded_sample_frames (cap : Video)
      (target_aspect_ratio : AspectRatio) (sample_interval : Z)
      (idxs : list Z) :
  forall all_crops face_counts,
    keeps_bounded (sample_frames cap target_aspect_ratio sample_interval
                                 idxs all_crops face_counts).
Proof.
  induction idxs as [|i rest IH]; intros all_crops face_counts; simpl.
  - apply keeps_bounded_ret.
  - destruct (read cap (frame_pos cap sample_interval i)) as [frame|];
      [|apply keeps_bounded_ret].
    destruct (detect_all_faces frame) as [|d ds]; [apply IH|].
    apply keeps_bounded_bind; [apply keeps_bounded_calculate_dynamic_crop|].
    intros [c|]; apply IH.
Qed.

Lemma keeps_bounded_analyze_video_smooth (cap : Video)
      (target_aspect_ratio : AspectRatio) (num_samples : Z) :
  keeps_bounded (analyze_video_smooth cap target_aspect_ratio num_samples).
Proof.
  unfold analyze_video_smooth.
  destruct (negb (isOpened cap)); [apply keeps_bounded_ret|].
  apply keeps_bounded_bind; [apply keeps_bounded_py_floordiv|].
  intros q. apply keeps_bounded_bind; [apply keeps_bounded_sample_frames|].
  intros [all_crops face_counts]. apply keeps_bounded_ret.
Qed.

End BoundedFacts.

(** X8.  The history of the shared cropper never holds more than ten
    focus points, whatever videos are analysed one after the other and
    whether the analyses return a crop, None or raise. *)
Theorem tracking_history_bounded
        (jobs : list Job) (h : TrackingHistory) :
  (length h <= 10)%nat ->
  (length (snd (analyses jobs h)) <= 10)%nat.
Proof.
  revert h. induction jobs as [|[input aspect_ratio] rest IH]; intros h Hh.
  - exact Hh.
  - simpl.
    pose proof (@BoundedFacts.keeps_bounded_analyze_video_smooth
                  input aspect_ratio num_samples_default h Hh) as Hone.
    destruct (analyze_video_smooth input aspect_ratio num_samples_default h)
      as [crop_data h1].
    specialize (IH h1 Hone).
    destruct (analyses rest h1) as [later h2]. exact IH.
Qed.

Lemma tracking_history_bounded_witness :
  (length (snd (analyses [(left_face, portrait); (opening_face, portrait)]
                         advanced_cropper)) <= 10)%nat.
Proof.
  apply (@tracking_history_bounded
           [(left_face, portrait); (opening_face, portrait)]
           advanced_cropper).
  simpl. lia.
Defined.

(** ** The focus point stays on the frame *)

Module FrameFacts.
Import FocusSpec.


Lemma weight_nonneg (d : Detection) :
  0 <= det_w d -> 0 <= det_h d -> (0 <= det_conf d)%Q -> (0 <= weight d)%Q.
Proof.
  intros Hw Hh Hc. unfold weight, det_area.
  apply Qmult_le_0_compat; [|exact Hc].
  change 0%Q with (inject_Z 0). rewrite <- Zle_Qle. nia.
Qed.

(** A weighted sum of numbers between [m] and [M], with weights that
    are not negative, lies between [m] and [M] times the total weight. *)
Lemma weighted_sum_range (c : Detection -> Z) (m M : Z)
      (faces : list Detection) :
  Forall (fun d => m <= c d <= M /\ (0 <= weight d)%Q) faces ->
  (inject_Z m * total_weight faces
   <= Qsum (map (fun d => (inject_Z (c d) * weight d)%Q) faces))%Q
  /\ (Qsum (map (fun d => (inject_Z (c d) * weight d)%Q) faces)
      <= inject_Z M * total_weight faces)%Q.
Proof.
  unfold total_weight.
  induction 1 as [|d faces [[Hm HM] Hw] _ [IHm IHM]]; simpl.
  - split; lra.
  - rewrite Zle_Qle in Hm, HM.
    set (w := weight d) in *. set (x := inject_Z (c d)) in *.
    clearbody w x. split; nra.
Qed.








End FrameFacts.



(** ** The crop region and the frame *)

Module RegionFacts.

Lemma py_int_below (q : Q) (M : Z) :
  (q <= inject_Z M)%Q -> py_int q <= M.
Proof.
  intros H. destruct (FocusFacts.py_int_bounds q) as [Hlo _].
  assert (Hlt : (inject_Z (py_int q) < inject_Z (M + 1))%Q).
  { rewrite inject_Z_plus. change (inject_Z 1) with 1%Q. lra. }
  rewrite <- Zlt_Qlt in Hlt. lia.
Qed.

Lemma py_int_pos (q : Q) : (0 <= q)%Q -> 0 <= py_int q.
Proof. intros H. now apply DetectBounds.py_int_nonneg. Qed.

Lemma div_lt_mul (a b c : Q) :
  (0 < b)%Q -> (a / b < c)%Q -> (a < c * b)%Q.
Proof.
  intros Hb H. apply (Qmult_lt_r _ _ b Hb) in H.
  rewrite (Qmult_comm (a / b)), Qmult_div_r in H; [exact H|].
  intros E. rewrite E in Hb. apply (Qlt_irrefl _ Hb).
Qed.

Lemma le_div_mul (a b c : Q) :
  (0 < b)%Q -> (c <= a / b)%Q -> (c * b <= a)%Q.
Proof.
  intros Hb H. apply (Qmult_le_r _ _ b Hb) in H.
  rewrite (Qmult_comm (a / b)), Qmult_div_r in H; [exact H|].
  intros E. rewrite E in Hb. apply (Qlt_irrefl _ Hb).
Qed.

Lemma letterbox_crop_geometry (faces : list Detection)
      (frame_width frame_height focus_x focus_y : Z) :
  0 < frame_width -> 0 < frame_height ->
  let plan := letterbox_crop faces frame_width frame_height
                             focus_x focus_y in
  0 <= crop_w plan <= frame_width
  /\ 0 <= crop_h plan <= frame_height
  /\ crop_x plan
     = Z.max 0 (Z.min (focus_x - crop_w plan / 2)
                      (frame_width - crop_w plan))
  /\ crop_y plan
     = Z.max 0 (Z.min (focus_y - crop_h plan / 2)
                      (frame_height - crop_h plan)).
Proof.
  intros Hw Hh. cbv zeta. unfold letterbox_crop.
  pose proof (inject_Z_pos Hw) as HW. pose proof (inject_Z_pos Hh) as HH.
  destruct (_ >? frame_width) eqn:E;
    cbn [crop_x crop_y crop_w crop_h].
  - apply Z.gtb_lt in E.
    assert (Hq : (inject_Z frame_width
                  < inject_Z (frame_height * 16) / 9)%Q).
    { destruct (@DetectBounds.py_int_nonneg
                  (inject_Z (frame_height * 16) / 9)) as [_ Hle].
      - rewrite inject_Z_mult. change (inject_Z 16) with 16%Q.
        unfold Qdiv. change (/ 9)%Q with (1 # 9)%Q. lra.
      - eapply Qlt_le_trans; [|exact Hle]. now rewrite <- Zlt_Qlt. }
    rewrite inject_Z_mult in Hq. change (inject_Z 16) with 16%Q in Hq.
    unfold Qdiv in Hq. change (/ 9)%Q with (1 # 9)%Q in Hq.
    assert (Hlh : 0 <= py_int (inject_Z (frame_width * 9) / 16)
                  <= frame_height).
    { split.
      - apply py_int_pos. rewrite inject_Z_mult.
        change (inject_Z 9) with 9%Q.
        unfold Qdiv. change (/ 16)%Q with (1 # 16)%Q. lra.
      - apply py_int_below. rewrite inject_Z_mult.
        change (inject_Z 9) with 9%Q.
        unfold Qdiv. change (/ 16)%Q with (1 # 16)%Q. lra. }
    repeat split; try lia; reflexivity.
  - rewrite Z.gtb_ltb in E. apply Z.ltb_ge in E.
    assert (Hlw : 0 <= py_int (inject_Z (frame_height * 16) / 9)).
    { apply py_int_pos. rewrite inject_Z_mult.
      change (inject_Z 16) with 16%Q.
      unfold Qdiv. change (/ 9)%Q with (1 # 9)%Q. lra. }
    repeat split; try lia; reflexivity.
Qed.

Lemma standard_dims_geometry (frame_width frame_height : Z)
      (target_aspect : Q) :
  0 < frame_width -> 0 < frame_height ->
  let dims := standard_dims frame_width frame_height target_aspect in
  fst dims <= frame_width
  /\ snd dims <= frame_height
  /\ ((0 < target_aspect)%Q -> 0 <= fst dims /\ 0 <= snd dims).
Proof.
  intros Hw Hh. cbv zeta. unfold standard_dims.
  pose proof (inject_Z_pos Hw) as HW. pose proof (inject_Z_pos Hh) as HH.
  destruct (Qlt_bool _ target_aspect) eqn:E; cbn [fst snd].
  - apply Qlt_bool_iff in E.
    assert (Hpos : (0 < target_aspect)%Q).
    { eapply Qlt_trans; [|exact E]. apply Qlt_shift_div_l; [exact HH|].
      now rewrite Qmult_0_l. }
    assert (Hlt : (inject_Z frame_width / target_aspect
                   <= inject_Z frame_height)%Q).
    { apply Qle_shift_div_r; [exact Hpos|].
      apply div_lt_mul in E; [|exact HH]. lra. }
    split; [lia|]. split; [now apply py_int_below|].
    intros _. split; [lia|]. apply py_int_pos.
    apply Qle_shift_div_l; [exact Hpos|]. lra.
  - apply Qlt_bool_false_iff in E.
    assert (Hle : (inject_Z frame_height * target_aspect
                   <= inject_Z frame_width)%Q).
    { apply le_div_mul in E; [|exact HH]. lra. }
    split; [now apply py_int_below|]. split; [lia|].
    intros Hpos. split; [|lia]. apply py_int_pos.
    apply Qmult_le_0_compat; lra.
Qed.

(** What [calculate_dynamic_crop] returns, in terms of the focus point
    [calculate_smooth_focus] gives on the same history. *)
Lemma calculate_dynamic_crop_geometry (faces : list Detection)
      (frame_width frame_height : Z) (target_aspect_ratio : AspectRatio)
      (h h' : TrackingHistory) (plan : CropPlan) :
  0 < frame_width -> 0 < frame_height ->
  calculate_dynamic_crop faces frame_width frame_height
                         target_aspect_ratio h = (Ok (Some plan), h') ->
  exists focus : FocusPoint,
    calculate_smooth_focus faces frame_width frame_height h
    = (Ok focus, h')
    /\ crop_w plan <= frame_width
    /\ crop_h plan <= frame_height
    /\ ((0 < target_aspect_of target_aspect_ratio)%Q ->
        0 <= crop_w plan /\ 0 <= crop_h plan)
    /\ crop_x plan
       = Z.max 0 (Z.min (fst focus - crop_w plan / 2)
                        (frame_width - crop_w plan))
    /\ crop_y plan
       = Z.max 0 (Z.min (snd focus - crop_h plan / 2)
                        (frame_height - crop_h plan)).
Proof.
  intros Hw Hh Hrun.
  destruct (@CropFacts.calculate_dynamic_crop_ok _ _ _ _ _ _ _ Hrun)
    as [Hne Ha].
  destruct faces as [|d ds]; [congruence|].
  rewrite (@CropFacts.calculate_dynamic_crop_run
             d ds frame_width frame_height target_aspect_ratio h
             Hw Hh Ha) in Hrun.
  injection Hrun as Hplan Hh'.
  set (raw := raw_focus (d :: ds) frame_width frame_height) in *.
  exists (smoothed raw (deque_append h raw)).
  split; [rewrite <- Hh'; apply FocusFacts.calculate_smooth_focus_cons|].
  destruct (letterbox_eligibleb _ frame_width _).
  - destruct (@letterbox_crop_geometry
                (d :: ds) frame_width frame_height
                (fst (smoothed raw (deque_append h raw)))
                (snd (smoothed raw (deque_append h raw))) Hw Hh)
      as (Hcw & Hch & Hx & Hy).
    rewrite Hplan in Hcw, Hch, Hx, Hy.
    repeat split; try lia; assumption.
  - destruct (@standard_dims_geometry
                frame_width frame_height
                (target_aspect_of target_aspect_ratio) Hw Hh)
      as (Hcw & Hch & Hpos).
    subst plan. cbn [crop_x crop_y crop_w crop_h standard_plan].
    repeat split; try assumption; try reflexivity; apply Hpos; assumption.
Qed.

End RegionFacts.

(** X10.  On a frame of positive size and for a positive target ratio,
    every crop candidate [calculate_dynamic_crop] returns is a rectangle
    inside the frame. *)
Theorem crop_region_inside_frame
        (faces : list Detection) (frame_width frame_height : Z)
        (target_aspect_ratio : AspectRatio) (h h' : TrackingHistory)
        (plan : CropPlan) :
  0 < frame_width ->
  0 < frame_height ->
  (0 < target_aspect_of target_aspect_ratio)%Q ->
  calculate_dynamic_crop faces frame_width frame_height
                         target_aspect_ratio h = (Ok (Some plan), h') ->
  0 <= crop_x plan /\ 0 <= crop_w plan
  /\ crop_x plan + crop_w plan <= frame_width
  /\ 0 <= crop_y plan /\ 0 <= crop_h plan
  /\ crop_y plan + crop_h plan <= frame_height.
Proof.
  intros Hw Hh Ha Hrun.
  destruct (@RegionFacts.calculate_dynamic_crop_geometry
              _ _ _ _ _ _ _ Hw Hh Hrun)
    as (focus & _ & Hcw & Hch & Hpos & Hx & Hy).
  destruct (Hpos Ha) as [Hw0 Hh0]. lia.
Qed.

Lemma crop_region_inside_frame_witness :
  let plan := mkCropPlan mode_smart 1313 0 607 1080 false 1 in
  0 <= crop_x plan /\ 0 <= crop_w plan
  /\ crop_x plan + crop_w plan <= 1920
  /\ 0 <= crop_y plan /\ 0 <= crop_h plan
  /\ crop_y plan + crop_h plan <= 1080.
Proof.
  intros plan.
  apply (@crop_region_inside_frame
           [mkDetection 1800 500 80 80 1] 1920 1080 portrait
           [] [(1840, 540)] plan).
  - lia.
  - lia.
  - vm_compute. reflexivity.
  - vm_compute. reflexivity.
Defined.

(** X11.  The crop candidate is placed around the focus point that
    [calculate_smooth_focus] returns for the same detections and
    history: when that point is a pixel of the frame and the region is
    not empty, the region contains it. *)
Theorem crop_region_contains_focus
        (faces : list Detection) (frame_width frame_height : Z)
        (target_aspect_ratio : AspectRatio) (h h' : TrackingHistory)
        (plan : CropPlan) :
  0 < frame_width ->
  0 < frame_height ->
  calculate_dynamic_crop faces frame_width frame_height
                         target_aspect_ratio h = (Ok (Some plan), h') ->
  0 < crop_w plan ->
  0 < crop_h plan ->
  exists focus : FocusPoint,
    calculate_smooth_focus faces frame_width frame_height h
    = (Ok focus, h')
    /\ (in_frame frame_width frame_height focus ->
        crop_x plan <= fst focus < crop_x plan + crop_w plan
        /\ crop_y plan <= snd focus < crop_y plan + crop_h plan).
Proof.
  intros Hw Hh Hrun Hcw0 Hch0.
  destruct (@RegionFacts.calculate_dynamic_crop_geometry
              _ _ _ _ _ _ _ Hw Hh Hrun)
    as (focus & Hfocus & Hcw & Hch & _ & Hx & Hy).
  exists focus. split; [exact Hfocus|]. intros [Hfx Hfy].
  pose proof (Z.mul_div_le (crop_w plan) 2 ltac:(lia)).
  pose proof (Z.mul_succ_div_gt (crop_w plan) 2 ltac:(lia)).
  pose proof (Z.mul_div_le (crop_h plan) 2 ltac:(lia)).
  pose proof (Z.mul_succ_div_gt (crop_h plan) 2 ltac:(lia)).
  lia.
Qed.

Lemma crop_region_contains_focus_witness :
  let plan := mkCropPlan mode_smart 1313 0 607 1080 false 1 in
  exists focus : FocusPoint,
    calculate_smooth_focus [mkDetection 1800 500 80 80 1] 1920 1080 []
    = (Ok focus, [(1840, 540)])
    /\ (in_frame 1920 1080 focus ->
        crop_x plan <= fst focus < crop_x plan + crop_w plan
        /\ crop_y plan <= snd focus < crop_y plan + crop_h plan).
Proof.
  intros plan.
  apply (@crop_region_contains_focus
           [mkDetection 1800 500 80 80 1] 1920 1080 portrait
           [] [(1840, 540)] plan).
  - lia.
  - lia.
  - vm_compute. reflexivity.
  - simpl. lia.
  - simpl. lia.
Defined.

(** ** More on sampling and the decision *)

Module SampleFacts.

(** A property of every candidate [calculate_dynamic_crop] can return
    holds of every candidate the sampling loop collects. *)
Lemma sample_frames_Forall (P : CropPlan -> Prop) (cap : Video)
      (target_aspect_ratio : AspectRatio) (sample_interval : Z) :
  (forall faces h h' plan,
      calculate_dynamic_crop faces (CAP_PROP_FRAME_WIDTH cap)
                             (CAP_PROP_FRAME_HEIGHT cap)
                             target_aspect_ratio h
      = (Ok (Some plan), h') -> P plan) ->
  forall (idxs : list Z) (all_crops : list CropPlan) (face_counts : list Z)
         (h h' : TrackingHistory) (crops : list CropPlan)
         (counts : list Z),
    sample_frames cap target_aspect_ratio sample_interval idxs
                  all_crops face_counts h = (Ok (crops, counts), h') ->
    Forall P all_crops -> Forall P crops.
Proof.
  intros HP. induction idxs as [|i rest IH];
    intros all_crops face_counts h h' crops counts Hrun Hall.
  - unfold sample_frames, ret in Hrun. congruence.
  - simpl in Hrun.
    destruct (read cap (frame_pos cap sample_interval i)) as [frame|].
    + destruct (detect_all_faces frame) as [|d ds] eqn:Ef.
      * exact (IH _ _ _ _ _ _ Hrun Hall).
      * apply AnalysisFacts.bind_inv in Hrun.
        destruct Hrun as (crop & h1 & Hcrop & Hrun).
        destruct crop as [c|].
        -- apply (IH _ _ _ _ _ _ Hrun).
           apply Forall_app. split; [exact Hall|].
           constructor; [|constructor]. exact (HP _ _ _ _ Hcrop).
        -- exact (IH _ _ _ _ _ _ Hrun Hall).
    + unfold ret in Hrun. congruence.
Qed.

(** An analysis that returns has run the loop, or could not open the
    video. *)
Lemma analyze_video_smooth_inv (cap : Video)
      (target_aspect_ratio : AspectRatio) (num_samples : Z)
      (h h' : TrackingHistory) (r : option CropPlan) :
  analyze_video_smooth cap target_aspect_ratio num_samples h = (Ok r, h') ->
  (isOpened cap = false /\ r = None /\ h' = h)
  \/ (isOpened cap = true /\ num_samples <> 0
      /\ exists all_crops face_counts,
           sample_frames cap target_aspect_ratio
                         (Z.max 1 (CAP_PROP_FRAME_COUNT cap / num_samples))
                         (range num_samples) [] [] h
           = (Ok (all_crops, face_counts), h')
           /\ r = decide all_crops face_counts).
Proof.
  unfold analyze_video_smooth. destruct (isOpened cap); cbn [negb].
  - intros Hrun. right. split; [reflexivity|].
    apply AnalysisFacts.bind_inv in Hrun.
    destruct Hrun as (q & h1 & Hq & Hrun).
    unfold py_floordiv in Hq. destruct (num_samples =? 0) eqn:E;
      [discriminate|].
    apply Z.eqb_neq in E. split; [exact E|].
    unfold ret in Hq. injection Hq as <- <-.
    apply AnalysisFacts.bind_inv in Hrun.
    destruct Hrun as ([all_crops face_counts] & h2 & Hloop & Hrun).
    unfold ret in Hrun. injection Hrun as <- <-.
    exists all_crops, face_counts. split; [exact Hloop|reflexivity].
  - intros Hrun. left. unfold ret in Hrun. injection Hrun as <- <-.
    repeat split; reflexivity.
Qed.

(** The loop does not raise on a frame of positive size with a
    well-formed ratio. *)
Lemma sample_frames_ok (cap : Video) (target_aspect_ratio : AspectRatio)
      (sample_interval : Z) :
  0 < CAP_PROP_FRAME_WIDTH cap ->
  0 < CAP_PROP_FRAME_HEIGHT cap ->
  ~ aspect_h target_aspect_ratio == 0 ->
  forall (idxs : list Z) (all_crops : list CropPlan) (face_counts : list Z)
         (h : TrackingHistory),
  exists res h',
    sample_frames cap target_aspect_ratio sample_interval idxs
                  all_crops face_counts h = (Ok res, h').
Proof.
  intros Hw Hh Ha. induction idxs as [|i rest IH];
    intros all_crops face_counts h; simpl.
  - eexists. eexists. reflexivity.
  - destruct (read cap (frame_pos cap sample_interval i)) as [frame|];
      [|eexists; eexists; reflexivity].
    destruct (detect_all_faces frame) as [|d ds]; [apply IH|].
    rewrite (bind_ok _ (@CropFacts.calculate_dynamic_crop_run
                          d ds _ _ target_aspect_ratio h Hw Hh Ha)).
    apply IH.
Qed.

Lemma median_In (l : list Z) :
  l <> [] -> In (index (sorted l) (len l / 2)) l.
Proof.
  intros Hne.
  destruct (@AnalysisFacts.index_median l (length l) Hne eq_refl)
    as (s & Hperm & _ & Hnth).
  apply nth_error_In in Hnth. exact (Permutation_in _ Hperm Hnth).
Qed.

Lemma median_map_In (f : CropPlan -> Z) (all_crops : list CropPlan) :
  all_crops <> [] ->
  exists c, In c all_crops
            /\ index (sorted (map f all_crops)) (len all_crops / 2) = f c.
Proof.
  intros Hne.
  assert (Hmap : map f all_crops <> []).
  { intros E. apply map_eq_nil in E. contradiction. }
  pose proof (median_In Hmap) as Hin.
  unfold len in Hin. rewrite length_map in Hin. fold (len all_crops) in Hin.
  apply in_map_iff in Hin. destruct Hin as (c & Ec & Hc).
  exists c. split; [exact Hc|now symmetry].
Qed.

End SampleFacts.

(** X12.  The divisions of the analysis.  On a video whose frames have
    positive width and height, with a ratio whose second number is not
    zero and a number of samples that is not zero, no division of
    [analyze_video_smooth] and of the methods it calls meets a zero
    divisor: the analysis raises no ZeroDivisionError and returns
    (errors raised inside OpenCV calls are not part of the model).
    Asked for zero samples of a video that opens, it raises
    ZeroDivisionError and leaves the history as it was. *)
Theorem analyze_video_smooth_no_error
        (cap : Video) (target_aspect_ratio : AspectRatio) (num_samples : Z)
        (h : TrackingHistory) :
  (0 < CAP_PROP_FRAME_WIDTH cap ->
   0 < CAP_PROP_FRAME_HEIGHT cap ->
   ~ aspect_h target_aspect_ratio == 0 ->
   num_samples <> 0 ->
   exists r h',
     analyze_video_smooth cap target_aspect_ratio num_samples h
     = (Ok r, h'))
  /\ (isOpened cap = true ->
      analyze_video_smooth cap target_aspect_ratio 0 h
      = (Raise ZeroDivisionError, h)).
Proof.
  split.
  - intros Hw Hh Ha Hn. unfold analyze_video_smooth.
    destruct (negb (isOpened cap)); [eexists; eexists; reflexivity|].
    unfold py_floordiv. apply Z.eqb_neq in Hn. rewrite Hn.
    erewrite bind_ok; [|reflexivity].
    destruct (@SampleFacts.sample_frames_ok
                cap target_aspect_ratio
                (Z.max 1 (CAP_PROP_FRAME_COUNT cap / num_samples))
                Hw Hh Ha (range num_samples) [] [] h)
      as ([crops counts] & h' & Hrun).
    erewrite bind_ok; [|exact Hrun].
    eexists. eexists. reflexivity.
  - intros Hopen. unfold analyze_video_smooth. rewrite Hopen. reflexivity.
Qed.

Lemma analyze_video_smooth_no_error_witness :
  exists r h',
    analyze_video_smooth opening_face portrait num_samples_default []
    = (Ok r, h').
Proof.
  destruct (@analyze_video_smooth_no_error
              opening_face portrait num_samples_default []) as [Hok _].
  apply Hok.
  - simpl. lia.
  - simpl. lia.
  - vm_compute. discriminate.
  - discriminate.
Defined.

Module DecisionFacts.

Lemma calculate_dynamic_crop_region (faces : list Detection)
      (frame_width frame_height : Z) (target_aspect_ratio : AspectRatio)
      (h h' : TrackingHistory) (plan : CropPlan) :
  0 < frame_width -> 0 < frame_height ->
  (0 < target_aspect_of target_aspect_ratio)%Q ->
  calculate_dynamic_crop faces frame_width frame_height
                         target_aspect_ratio h = (Ok (Some plan), h') ->
  region_inside frame_width frame_height plan
  /\ (letterbox plan = false ->
      crop_w plan = fst (standard_dims frame_width frame_height
                           (target_aspect_of target_aspect_ratio))
      /\ crop_h plan = snd (standard_dims frame_width frame_height
                              (target_aspect_of target_aspect_ratio))).
Proof.
  intros Hw Hh Ha Hrun. split.
  - destruct (@RegionFacts.calculate_dynamic_crop_geometry
                _ _ _ _ _ _ _ Hw Hh Hrun)
      as (focus & _ & Hcw & Hch & Hpos & Hx & Hy).
    destruct (Hpos Ha) as [Hw0 Hh0]. unfold region_inside. lia.
  - destruct (@CropFacts.calculate_dynamic_crop_ok _ _ _ _ _ _ _ Hrun)
      as [Hne Hnz].
    destruct faces as [|d ds]; [congruence|].
    rewrite (@CropFacts.calculate_dynamic_crop_run
               d ds frame_width frame_height target_aspect_ratio h
               Hw Hh Hnz) in Hrun.
    injection Hrun as Hplan _.
    destruct (letterbox_eligibleb _ frame_width _).
    + destruct (CropFacts.letterbox_crop_dims
                  (d :: ds) frame_width frame_height
                  (fst (smoothed (raw_focus (d :: ds) frame_width
                                            frame_height)
                          (deque_append h (raw_focus (d :: ds) frame_width
                                                     frame_height))))
                  (snd (smoothed (raw_focus (d :: ds) frame_width
                                            frame_height)
                          (deque_append h (raw_focus (d :: ds) frame_width
                                                     frame_height)))))
        as [_ [Hl _]].
      rewrite Hplan in Hl. congruence.
    + subst plan. intros _. split; reflexivity.
Qed.

Lemma filter_nil_all {A : Type} (f : A -> bool) (l : list A) :
  filter f l = [] -> forall a, In a l -> f a = false.
Proof.
  intros E a Ha. destruct (f a) eqn:Efa; [|reflexivity].
  assert (Hin : In a (filter f l)) by (apply filter_In; tauto).
  rewrite E in Hin. contradiction.
Qed.

Lemma no_eligible_not_confirmed (all_crops : list CropPlan)
      (face_counts : list Z) :
  letterbox_crops all_crops = [] ->
  letterbox_confirmed all_crops face_counts = false.
Proof.
  intros E. unfold letterbox_confirmed, letterbox_rate. rewrite E.
  destruct all_crops as [|c cs]; [apply andb_false_r|].
  replace (Qlt_bool (6 # 10) _) with false; [apply andb_false_r|].
  symmetry. apply Qlt_bool_false_iff.
  change (inject_Z (len [])) with 0%Q. unfold Qdiv. rewrite Qmult_0_l.
  discriminate.
Qed.

(** No candidate is letterbox when the target is not portrait. *)
Lemma calculate_dynamic_crop_landscape (faces : list Detection)
      (frame_width frame_height : Z) (target_aspect_ratio : AspectRatio)
      (h h' : TrackingHistory) (plan : CropPlan) :
  (1 <= target_aspect_of target_aspect_ratio)%Q ->
  calculate_dynamic_crop faces frame_width frame_height
                         target_aspect_ratio h = (Ok (Some plan), h') ->
  letterbox plan = false.
Proof.
  intros Hta. destruct faces as [|d ds]; [discriminate|].
  unfold calculate_dynamic_crop. intros H.
  apply AnalysisFacts.bind_inv in H. destruct H as (ta & h1 & Hdiv & H).
  assert (Eta : ta = target_aspect_of target_aspect_ratio).
  { unfold py_truediv in Hdiv. destruct (Qeq_bool _ 0); [discriminate|].
    unfold ret in Hdiv. now injection Hdiv as <- _. }
  subst ta.
  apply AnalysisFacts.bind_inv in H. destruct H as ([fx fy] & h2 & _ & H).
  apply AnalysisFacts.bind_inv in H.
  destruct H as (early & h3 & Hearly & H).
  assert (Enone : early = None).
  { unfold letterbox_branch in Hearly.
    assert (E : Qlt_bool (target_aspect_of target_aspect_ratio) 1 = false)
      by now apply Qlt_bool_false_iff.
    rewrite E in Hearly. cbn [andb] in Hearly. unfold ret in Hearly.
    now injection Hearly as <- _. }
  subst early.
  apply AnalysisFacts.bind_inv in H. destruct H as (c & h4 & Hstd & H).
  unfold ret in H. injection H as <- _.
  exact (proj2 (AnalysisFacts.standard_crop_some _ _ _ _ _ _ _ Hstd)).
Qed.

End DecisionFacts.

(** X13.  On frames of positive size and for a positive target ratio,
    the crop [analyze_video_smooth] returns is a rectangle inside the
    frame when the letterbox condition holds or when no sample was
    letterbox-eligible.  (When eligible and standard candidates are
    mixed and the condition fails, the medians of the two kinds can
    combine into a region that leaves the frame.) *)
Theorem final_crop_inside_frame
        (cap : Video) (target_aspect_ratio : AspectRatio) (num_samples : Z)
        (h h' : TrackingHistory) (all_crops : list CropPlan)
        (face_counts : list Z) :
  isOpened cap = true ->
  0 < CAP_PROP_FRAME_WIDTH cap ->
  0 < CAP_PROP_FRAME_HEIGHT cap ->
  (0 < target_aspect_of target_aspect_ratio)%Q ->
  sample_frames cap target_aspect_ratio
                (Z.max 1 (CAP_PROP_FRAME_COUNT cap / num_samples))
                (range num_samples) [] [] h
  = (Ok (all_crops, face_counts), h') ->
  all_crops <> [] ->
  hysteresis all_crops face_counts \/ letterbox_crops all_crops = [] ->
  exists plan : CropPlan,
    analyze_video_smooth cap target_aspect_ratio num_samples h
    = (Ok (Some plan), h')
    /\ region_inside (CAP_PROP_FRAME_WIDTH cap) (CAP_PROP_FRAME_HEIGHT cap)
                     plan.
Proof.
  intros Hopen Hw Hh Ha Hrun Hne Hcase.
  pose proof (@AnalysisFacts.sampled_nonzero _ _ _ _ _ _ _ _ Hrun Hne) as Hn.
  rewrite (@AnalysisFacts.analyze_video_smooth_run
             _ _ _ _ _ _ _ Hopen Hn Hrun).
  rewrite (@AnalysisFacts.decide_nonempty all_crops face_counts Hne).
  eexists. split; [reflexivity|].
  assert (Hall : Forall
            (fun plan =>
               region_inside (CAP_PROP_FRAME_WIDTH cap)
                             (CAP_PROP_FRAME_HEIGHT cap) plan
               /\ (letterbox plan = false ->
                   crop_w plan
                   = fst (standard_dims
                            (CAP_PROP_FRAME_WIDTH cap)
                            (CAP_PROP_FRAME_HEIGHT cap)
                            (target_aspect_of target_aspect_ratio))
                   /\ crop_h plan
                      = snd (standard_dims
                               (CAP_PROP_FRAME_WIDTH cap)
                               (CAP_PROP_FRAME_HEIGHT cap)
                               (target_aspect_of target_aspect_ratio))))
            all_crops).
  { eapply SampleFacts.sample_frames_Forall; [|exact Hrun|constructor].
    intros faces h1 h2 plan Hplan.
    exact (@DecisionFacts.calculate_dynamic_crop_region
             _ _ _ _ _ _ _ Hw Hh Ha Hplan). }
  rewrite Forall_forall in Hall.
  destruct (letterbox_confirmed all_crops face_counts) eqn:E.
  - assert (Hhyst : hysteresis all_crops face_counts)
      by now apply (@AnalysisFacts.letterbox_confirmed_iff _ _ Hne).
    pose proof (@AnalysisFacts.crop_at_middle
                  _ (@AnalysisFacts.hysteresis_eligible _ _ Hhyst)) as Hmid.
    apply nth_error_In, filter_In in Hmid. apply Hall, Hmid.
  - destruct Hcase as [Hhyst|Hnone].
    { apply (@AnalysisFacts.letterbox_confirmed_iff _ _ Hne) in Hhyst.
      congruence. }
    pose proof (DecisionFacts.filter_nil_all _ _ Hnone) as Hstd.
    destruct (@SampleFacts.median_map_In crop_x all_crops Hne)
      as (cx & Hcx & Ex).
    destruct (@SampleFacts.median_map_In crop_y all_crops Hne)
      as (cy & Hcy & Ey).
    destruct (@SampleFacts.median_map_In crop_w all_crops Hne)
      as (cw & Hcw & Ew).
    destruct (@SampleFacts.median_map_In crop_h all_crops Hne)
      as (ch & Hch & Eh).
    unfold region_inside, median_plan.
    cbn [crop_x crop_y crop_w crop_h]. rewrite Ex, Ey, Ew, Eh.
    destruct (Hall _ Hcx) as [Rx Sx]. destruct (Hall _ Hcy) as [Ry Sy].
    destruct (Hall _ Hcw) as [Rw Sw]. destruct (Hall _ Hch) as [Rh Sh].
    destruct (Sx (Hstd _ Hcx)) as [Sxw _].
    destruct (Sy (Hstd _ Hcy)) as [_ Syh].
    destruct (Sw (Hstd _ Hcw)) as [Sww _].
    destruct (Sh (Hstd _ Hch)) as [_ Shh].
    unfold region_inside in Rx, Ry, Rw, Rh. lia.
Qed.

Lemma final_crop_inside_frame_witness :
  exists plan : CropPlan,
    analyze_video_smooth
      (clip [Some one_centered; Some one_left; Some one_left]) portrait 3 []
    = (Ok (Some plan), [(960, 540); (140, 540); (140, 540)])
    /\ region_inside 1920 1080 plan.
Proof.
  apply (@final_crop_inside_frame
           (clip [Some one_centered; Some one_left; Some one_left])
           portrait 3 [] [(960, 540); (140, 540); (140, 540)]
           [mkCropPlan mode_smart 657 0 607 1080 false 1;
            mkCropPlan mode_smart 0 0 607 1080 false 1;
            mkCropPlan mode_smart 110 0 607 1080 false 1]
           [1; 1; 1]).
  - reflexivity.
  - simpl. lia.
  - simpl. lia.
  - vm_compute. reflexivity.
  - vm_compute. reflexivity.
  - discriminate.
  - right. reflexivity.
Defined.

(** The region of X13 can leave the frame when the two kinds of
    candidates are mixed: one letterbox candidate and one standard one
    give x = 657 with width 1920 on a frame 1920 wide. *)
Example mixed_candidates_leave_frame :
  analyze_video_smooth (clip [Some two_apart; Some one_centered]) portrait 2 []
  = (Ok (Some (mkCropPlan mode_smart_smooth 657 0 1920 1080 false 1)),
     [(940, 450); (960, 540)]).
Proof. vm_compute. reflexivity. Qed.

(** X14.  For a target ratio that is not portrait (at least 1), a crop
    [analyze_video_smooth] returns is never a letterbox crop, whatever
    the frames show. *)
Theorem landscape_never_letterbox
        (cap : Video) (target_aspect_ratio : AspectRatio) (num_samples : Z)
        (h h' : TrackingHistory) (plan : CropPlan) :
  (1 <= target_aspect_of target_aspect_ratio)%Q ->
  analyze_video_smooth cap target_aspect_ratio num_samples h
  = (Ok (Some plan), h') ->
  mode plan = mode_smart_smooth /\ letterbox plan = false.
Proof.
  intros Hta Hrun.
  apply SampleFacts.analyze_video_smooth_inv in Hrun.
  destruct Hrun as [(_ & E & _)|(_ & _ & crops & counts & Hloop & E)];
    [discriminate|].
  assert (Hall : Forall (fun c => letterbox c = false) crops).
  { eapply SampleFacts.sample_frames_Forall; [|exact Hloop|constructor].
    intros faces h1 h2 c Hc.
    exact (@DecisionFacts.calculate_dynamic_crop_landscape
             _ _ _ _ _ _ _ Hta Hc). }
  assert (Hnone : letterbox_crops crops = []).
  { unfold letterbox_crops. rewrite Forall_forall in Hall.
    destruct (filter letterbox crops) as [|c cs] eqn:Ef; [reflexivity|].
    assert (Hin : In c (filter letterbox crops)) by (rewrite Ef; now left).
    apply filter_In in Hin. destruct Hin as [Hin Hflag].
    rewrite (Hall c Hin) in Hflag. discriminate. }
  destruct crops as [|c cs]; [discriminate|].
  rewrite AnalysisFacts.decide_nonempty in E by discriminate.
  rewrite (DecisionFacts.no_eligible_not_confirmed _ counts Hnone) in E.
  injection E as ->. split; reflexivity.
Qed.

Lemma landscape_never_letterbox_witness :
  let plan := mkCropPlan mode_smart_smooth 0 0 1920 1080 false 1 in
  mode plan = mode_smart_smooth /\ letterbox plan = false.
Proof.
  intros plan.
  apply (@landscape_never_letterbox
           (clip [Some two_apart; Some two_apart; Some two_apart])
           (mkAspectRatio 16 9) 3 []
           [(940, 450); (940, 450); (940, 450)] plan).
  - vm_compute. discriminate.
  - vm_compute. reflexivity.
Defined.

Module CountFacts.

Lemma range_length (n : Z) : length (range n) = Z.to_nat n.
Proof. unfold range. now rewrite length_map, length_seq. Qed.

(** The frames read are the frames of the first sample indices. *)
Lemma frames_read_firstn (cap : Video) (sample_interval : Z)
      (idxs : list Z) :
  let frames := frames_read cap sample_interval idxs in
  map Some frames
  = map (fun i => read cap (frame_pos cap sample_interval i))
        (firstn (length frames) idxs).
Proof.
  cbv zeta. induction idxs as [|i rest IH]; cbn [frames_read]; [reflexivity|].
  destruct (read cap (frame_pos cap sample_interval i)) as [frame|] eqn:E;
    [|reflexivity].
  cbn [length firstn map]. rewrite E, IH. reflexivity.
Qed.

End CountFacts.

(** X15.  The frames the sampling loop reads are the frames of the
    first sample indices, at most [num_samples] of them.  The loop
    records the detection count of each frame it reads, in order, and
    one crop candidate, carrying that count, for each frame that shows
    at least one detection; so the analysis has a crop to return
    exactly when some frame it read shows a detection. *)
Theorem candidates_match_detections
        (cap : Video) (target_aspect_ratio : AspectRatio)
        (sample_interval num_samples : Z) (h h' : TrackingHistory)
        (all_crops : list CropPlan) (face_counts : list Z) :
  sample_frames cap target_aspect_ratio sample_interval
                (range num_samples) [] [] h
  = (Ok (all_crops, face_counts), h') ->
  let frames := frames_read cap sample_interval (range num_samples) in
  map Some frames
  = map (fun i => read cap (frame_pos cap sample_interval i))
        (firstn (length frames) (range num_samples))
  /\ (length frames <= Z.to_nat num_samples)%nat
  /\ face_counts = map detections_in frames
  /\ map face_count all_crops = filter (fun c => 0 <? c) face_counts
  /\ (decide all_crops face_counts = None
      <-> Forall (fun frame => detect_all_faces frame = []) frames).
Proof.
  intros Hrun frames.
  destruct (@ReadFacts.sample_frames_reads
              _ _ _ _ _ _ _ _ _ _ Hrun) as [Hcounts Hcrops].
  cbn [app map] in Hcounts, Hcrops. fold frames in Hcounts, Hcrops.
  split; [apply CountFacts.frames_read_firstn|].
  split.
  { rewrite <- CountFacts.range_length. apply ReadFacts.frames_read_length. }
  split; [exact Hcounts|].
  split; [rewrite Hcounts; exact Hcrops|].
  rewrite <- ReadFacts.no_detection_counts. fold frames. rewrite <- Hcrops.
  destruct all_crops as [|c cs].
  - split; reflexivity.
  - rewrite AnalysisFacts.decide_nonempty by discriminate.
    split; discriminate.
Qed.

Lemma candidates_match_detections_witness :
  let cap := clip [Some one_centered; Some nobody; Some one_centered] in
  let tight := mkCropPlan mode_smart 657 0 607 1080 false 1 in
  let counts : list Z := [1; 0; 1] in
  let frames := frames_read cap 1 (range 3) in
  map Some frames
  = map (fun i => read cap (frame_pos cap 1 i))
        (firstn (length frames) (range 3))
  /\ (length frames <= Z.to_nat 3)%nat
  /\ counts = map detections_in frames
  /\ map face_count [tight; tight] = filter (fun c => 0 <? c) counts
  /\ (decide [tight; tight] counts = None
      <-> Forall (fun frame => detect_all_faces frame = []) frames).
Proof.
  intros cap tight counts.
  apply (@candidates_match_detections
           cap portrait 1 3 [] [(960, 540); (960, 540)]).
  vm_compute. reflexivity.
Defined.

(** X16.  On a clip with at least one frame, every sampled position is
    a frame of the clip and the positions do not decrease.  When the
    clip has at least [num_samples] frames the positions are the
    multiples of [total_frames // num_samples], without clamping; when
    it has fewer, the frames are visited one by one and the last frame
    is sampled again and again. *)
Theorem sample_positions
        (cap : Video) (num_samples i : Z) :
  let total_frames := CAP_PROP_FRAME_COUNT cap in
  let sample_interval := Z.max 1 (total_frames / num_samples) in
  0 < total_frames ->
  0 <= i ->
  0 <= frame_pos cap sample_interval i <= total_frames - 1
  /\ (forall j, i <= j ->
                frame_pos cap sample_interval i
                <= frame_pos cap sample_interval j)
  /\ (0 < num_samples <= total_frames -> i < num_samples ->
      frame_pos cap sample_interval i = i * (total_frames / num_samples))
  /\ (total_frames < num_samples ->
      frame_pos cap sample_interval i = Z.min i (total_frames - 1)).
Proof.
  cbv zeta. intros Htotal Hi. unfold frame_pos.
  set (total := CAP_PROP_FRAME_COUNT cap) in *.
  set (q := total / num_samples).
  split; [|split; [|split]].
  - assert (0 <= i * Z.max 1 q) by nia. lia.
  - intros j Hj. assert (i * Z.max 1 q <= j * Z.max 1 q) by nia. lia.
  - intros [Hn Hle] Hlt.
    assert (Hq : 1 <= q) by (apply Z.div_le_lower_bound; lia).
    pose proof (Z.mul_div_le total num_samples Hn) as Hmul. fold q in Hmul.
    rewrite (Z.max_r 1 q Hq).
    assert (i * q <= total - 1) by nia. lia.
  - intros Hshort.
    assert (Hq : q = 0) by (apply Z.div_small; lia).
    rewrite Hq. change (Z.max 1 0) with 1. now rewrite Z.mul_1_r.
Qed.

Lemma sample_positions_witness :
  0 <= frame_pos opening_face 1 14 <= 15 - 1
  /\ (forall j, 14 <= j ->
                frame_pos opening_face 1 14 <= frame_pos opening_face 1 j)
  /\ (0 < 15 <= 15 -> 14 < 15 -> frame_pos opening_face 1 14 = 14 * (15 / 15))
  /\ (15 < 15 -> frame_pos opening_face 1 14 = Z.min 14 (15 - 1)).
Proof.
  apply (@sample_positions opening_face 15 14).
  - vm_compute. reflexivity.
  - lia.
Defined.

(** ** The focus point in float64 *)

Module RoundFacts.
Import Float64.

#[export] Instance fl_comp : Proper (Qeq ==> eq) fl.
Proof.
  intros a b Hab. unfold fl. now rewrite (Qred_complete _ _ Hab).
Qed.

Lemma two_nonzero : ~ (2 == 0)%Q.
Proof. discriminate. Qed.

Lemma pow2_pos (e : Z) : (0 < 2 ^ e)%Q.
Proof. apply Qpower_0_lt. reflexivity. Qed.

Lemma ilog2_le (q : Q) : (0 < q)%Q -> (2 ^ ilog2 q <= q)%Q.
Proof.
  intros Hq. unfold ilog2.
  set (n := Qnum q). set (d := Zpos (Qden q)).
  destruct (Qle_bool (2 ^ (Z.log2 n - Z.log2 d)) q) eqn:E.
  - now apply Qle_bool_iff.
  - assert (Hn : 0 < n) by (unfold n; unfold Qlt in Hq; simpl in Hq; lia).
    assert (Hd : 0 < d) by (unfold d; lia).
    destruct (Z.log2_spec n Hn) as [Hnl _].
    destruct (Z.log2_spec d Hd) as [_ Hdu].
    pose proof (Z.log2_nonneg n) as Ln. pose proof (Z.log2_nonneg d) as Ld.
    replace (Z.log2 n - Z.log2 d - 1) with (Z.log2 n - Z.succ (Z.log2 d))
      by lia.
    rewrite Qpower_minus by exact two_nonzero.
    change 2%Q with (inject_Z 2).
    rewrite <- !Zpower_Qpower by lia.
    assert (Eq : (q == inject_Z n / inject_Z d)%Q).
    { unfold n, d. destruct q as [a b]. cbn [Qnum Qden].
      apply Qmake_Qdiv. }
    rewrite Eq.
    assert (Hp : 0 < 2 ^ Z.succ (Z.log2 d)) by (apply Z.pow_pos_nonneg; lia).
    apply Qle_shift_div_l; [now apply inject_Z_pos|].
    unfold Qdiv. rewrite <- Qmult_assoc, (Qmult_comm (/ _)), Qmult_assoc.
    apply Qle_shift_div_r; [now apply inject_Z_pos|].
    rewrite <- !inject_Z_mult, <- Zle_Qle. nia.
Qed.

Lemma round_half_even_error (q : Q) :
  (Qabs (inject_Z (round_half_even q) - q) <= 1 # 2)%Q.
Proof.
  unfold round_half_even.
  pose proof (Qfloor_le q) as Hlo. pose proof (Qlt_floor q) as Hhi.
  rewrite inject_Z_plus in Hhi. change (inject_Z 1) with 1%Q in Hhi.
  set (f := Qfloor q) in *. clearbody f.
  apply Qabs_Qle_condition.
  destruct (Qlt_bool (q - inject_Z f) (1 # 2)) eqn:E1.
  - apply Qlt_bool_iff in E1. split; lra.
  - apply Qlt_bool_false_iff in E1.
    destruct (Qlt_bool (1 # 2) (q - inject_Z f)) eqn:E2.
    + rewrite inject_Z_plus. change (inject_Z 1) with 1%Q. split; lra.
    + apply Qlt_bool_false_iff in E2.
      destruct (Z.even f).
      * split; lra.
      * rewrite inject_Z_plus. change (inject_Z 1) with 1%Q. split; lra.
Qed.

Lemma nearest_error (q : Q) :
  (0 < q)%Q -> (Qabs (nearest q - q) <= u * q)%Q.
Proof.
  intros Hq. unfold nearest.
  set (e := ilog2 q - 52).
  pose proof (pow2_pos e) as HP.
  pose proof (round_half_even_error (q / 2 ^ e)) as Hr.
  pose proof (ilog2_le Hq) as Hl.
  replace (ilog2 q) with (e + 52) in Hl by (unfold e; lia).
  rewrite Qpower_plus in Hl by exact two_nonzero.
  set (P := (2 ^ e)%Q) in *. clearbody P.
  set (m := inject_Z (round_half_even (q / P))) in *. clearbody m.
  assert (E52 : (2 ^ 52 == 4503599627370496)%Q) by reflexivity.
  rewrite E52 in Hl.
  assert (Es : (q / P * P == q)%Q) by (field; lra).
  apply Qabs_Qle_condition in Hr. destruct Hr as [Hr1 Hr2].
  assert (H1 : ((m - q / P) * P <= (1 # 2) * P)%Q)
    by (apply Qmult_le_compat_r; lra).
  assert (H2 : (- (1 # 2) * P <= (m - q / P) * P)%Q)
    by (apply Qmult_le_compat_r; lra).
  assert (E : ((m - q / P) * P == m * P - q)%Q) by (rewrite <- Es at 2; ring).
  rewrite E in H1, H2.
  unfold u. apply Qabs_Qle_condition. split; lra.
Qed.

Lemma fl_error (q : Q) :
  (0 <= q)%Q -> ((1 - u) * q <= fl q)%Q /\ (fl q <= (1 + u) * q)%Q.
Proof.
  intros Hq. unfold fl.
  assert (Er : (Qred q == q)%Q) by apply Qred_correct.
  set (r := Qred q) in *. clearbody r.
  destruct (r ?= 0)%Q eqn:C.
  - apply Qeq_alt in C. unfold u. split; lra.
  - apply Qlt_alt in C. lra.
  - apply Qgt_alt in C.
    pose proof (nearest_error C) as H.
    apply Qabs_Qle_condition in H.
    set (x := nearest r) in *. clearbody x.
    unfold u in *. destruct H. split; lra.
Qed.

End RoundFacts.

Module NearFacts.
Import Float64 RoundFacts.

Lemma Qmult_le_l' (c x y : Q) : (0 <= c)%Q -> (x <= y)%Q -> (c * x <= c * y)%Q.
Proof.
  intros Hc H. rewrite !(Qmult_comm c). now apply Qmult_le_compat_r.
Qed.

Lemma near_exact (b : Q) : (0 <= b)%Q -> near 0 b b.
Proof. intros Hb. unfold near. repeat split; lra. Qed.

Lemma near_eq (k x b b' : Q) : (b == b')%Q -> near k x b -> near k x b'.
Proof.
  intros E (Hb & Hlo & Hhi). unfold near. rewrite <- E. repeat split; assumption.
Qed.

Lemma near_weaken (k k' x b : Q) :
  (0 <= k)%Q -> (k <= k')%Q -> near k x b -> near k' x b.
Proof.
  intros Hk Hkk (Hb & Hlo & Hhi). unfold near, u in *.
  repeat split; [assumption| |].
  - eapply Qle_trans; [|exact Hlo]. apply Qmult_le_compat_r; lra.
  - eapply Qle_trans; [exact Hhi|]. apply Qmult_le_compat_r; lra.
Qed.

Lemma near_scale (k c x b : Q) :
  (0 <= c)%Q -> near k x b -> near k (c * x) (c * b).
Proof.
  intros Hc (Hb & Hlo & Hhi). unfold near. split; [|split].
  - now apply Qmult_le_0_compat.
  - setoid_replace ((1 - k * u) * (c * b))%Q with (c * ((1 - k * u) * b))%Q
      by ring.
    apply Qmult_le_l'; assumption.
  - setoid_replace ((1 + 2 * k * u) * (c * b))%Q
      with (c * ((1 + 2 * k * u) * b))%Q by ring.
    apply Qmult_le_l'; assumption.
Qed.

Lemma near_add (k x y b c : Q) :
  near k x b -> near k y c -> near k (x + y) (b + c).
Proof.
  intros (Hb & Hlo & Hhi) (Hc & Hlo' & Hhi'). unfold near.
  repeat split; lra.
Qed.

Lemma near_fl (k x b : Q) :
  (0 <= k)%Q -> (2 * (k + 1) * u <= 1)%Q ->
  near k x b -> near (k + 1) (fl x) b.
Proof.
  intros Hk Hsmall (Hb & Hlo & Hhi).
  assert (Hu : (0 < u)%Q) by reflexivity.
  assert (Hx : (0 <= x)%Q).
  { eapply Qle_trans; [|exact Hlo]. apply Qmult_le_0_compat; [|exact Hb].
    unfold u in *. lra. }
  destruct (fl_error Hx) as [Flo Fhi].
  unfold near.
  set (y := fl x) in *. clearbody y.
  set (v := u) in *. clearbody v.
  assert (Hkv : (0 <= k * v)%Q) by (apply Qmult_le_0_compat; lra).
  split; [exact Hb|]. split.
  - assert (H1 : ((1 - v) * ((1 - k * v) * b) <= (1 - v) * x)%Q)
      by (apply Qmult_le_l'; lra).
    assert (H2 : (0 <= k * v * v * b)%Q).
    { repeat apply Qmult_le_0_compat; lra. }
    nra.
  - assert (H1 : ((1 + v) * x <= (1 + v) * ((1 + 2 * k * v) * b))%Q)
      by (apply Qmult_le_l'; lra).
    assert (H2 : (0 <= v * (1 - 2 * k * v) * b)%Q).
    { repeat apply Qmult_le_0_compat; lra. }
    nra.
Qed.

End NearFacts.

Module SumFacts.
Import Float64 RoundFacts NearFacts.

Lemma u_pos : (0 < u)%Q.
Proof. reflexivity. Qed.

(** One rounding more. *)
Lemma near_fl_le (K k x b : Q) :
  (0 <= k)%Q -> (k + 1 <= K)%Q -> (2 * K * u <= 1)%Q ->
  near k x b -> near (k + 1) (fl x) b.
Proof.
  intros Hk HK Hs H. apply near_fl; [exact Hk| |exact H].
  unfold u in *. lra.
Qed.

Lemma weight_near (K : Q) (d : Detection) :
  (3 <= K)%Q -> (2 * K * u <= 1)%Q -> nonneg_box d ->
  let w := fl (inject_Z (det_w d * det_h d) * fl (det_conf d)) in
  near 2 w (weight d)
  /\ near 3 (fl (inject_Z (fst (center d)) * w))
            (inject_Z (fst (center d)) * weight d)
  /\ near 3 (fl (inject_Z (snd (center d)) * w))
            (inject_Z (snd (center d)) * weight d).
Proof.
  intros HK Hs (Hx & Hy & Hw & Hh & Hc). cbv zeta.
  assert (Ha : (0 <= inject_Z (det_w d * det_h d))%Q).
  { change 0%Q with (inject_Z 0). rewrite <- Zle_Qle. nia. }
  assert (Hcx : (0 <= inject_Z (fst (center d)))%Q).
  { change 0%Q with (inject_Z 0). now rewrite <- Zle_Qle. }
  assert (Hcy : (0 <= inject_Z (snd (center d)))%Q).
  { change 0%Q with (inject_Z 0). now rewrite <- Zle_Qle. }
  assert (N1 : near 1 (fl (det_conf d)) (det_conf d)).
  { change 1%Q with (0 + 1)%Q.
    apply (@near_fl_le K); [lra|lra|exact Hs|now apply near_exact]. }
  assert (N2 : near 2 (fl (inject_Z (det_w d * det_h d) * fl (det_conf d)))
                    (weight d)).
  { change 2%Q with (1 + 1)%Q.
    apply (@near_fl_le K); [lra|lra|exact Hs|].
    unfold weight, det_area. now apply near_scale. }
  split; [exact N2|]. split.
  - change 3%Q with (2 + 1)%Q.
    apply (@near_fl_le K); [lra|lra|exact Hs|]. now apply near_scale.
  - change 3%Q with (2 + 1)%Q.
    apply (@near_fl_le K); [lra|lra|exact Hs|]. now apply near_scale.
Qed.

Lemma count_cons (d : Detection) (faces : list Detection) :
  (count (d :: faces) == count faces + 1)%Q.
Proof.
  unfold count. cbn [length]. rewrite Nat2Z.inj_succ.
  unfold Z.succ. rewrite inject_Z_plus. reflexivity.
Qed.

Lemma count_nonneg (faces : list Detection) : (0 <= count faces)%Q.
Proof.
  unfold count. change 0%Q with (inject_Z 0). rewrite <- Zle_Qle. lia.
Qed.

Lemma near_proper (k k' x b : Q) : (k == k')%Q -> near k x b -> near k' x b.
Proof.
  intros E (Hb & Hlo & Hhi). unfold near. rewrite <- E.
  repeat split; assumption.
Qed.

(** The float sums of the loop against the exact sums. *)
Lemma accumulate_near (K : Q) (faces : list Detection) :
  (2 * K * u <= 1)%Q ->
  Forall nonneg_box faces ->
  forall (k : Q) (tx ty tw sx sy sw : Q),
    (3 <= k)%Q -> (k + count faces <= K)%Q ->
    near k tx sx -> near k ty sy -> near k tw sw ->
    let sums := fold_left accumulate faces (tx, ty, tw) in
    near (k + count faces) (fst (fst sums))
         (sx + Qsum (map (fun d => inject_Z (fst (center d)) * weight d)%Q
                         faces))
    /\ near (k + count faces) (snd (fst sums))
            (sy + Qsum (map (fun d => inject_Z (snd (center d)) * weight d)%Q
                            faces))
    /\ near (k + count faces) (snd sums) (sw + total_weight faces).
Proof.
  intros Hs Hall. induction Hall as [|d faces Hd _ IH];
    intros k tx ty tw sx sy sw Hk HK Nx Ny Nw.
  - cbn [fold_left fst snd map].
    assert (E0 : (k == k + count [])%Q) by (unfold count; cbn; ring).
    split; [|split];
      (eapply near_proper; [exact E0|];
       eapply near_eq; [|eassumption];
       unfold total_weight, Qsum; cbn [map fold_right]; ring).
  - pose proof (count_nonneg faces) as Hn.
    rewrite count_cons in HK.
    assert (HK3 : (3 <= K)%Q) by lra.
    destruct (@weight_near K d HK3 Hs Hd) as (W2 & WX & WY).
    cbv zeta in W2, WX, WY.
    cbn [fold_left]. unfold accumulate at 2. 
    change (det_x d + det_w d / 2) with (fst (center d)).
    change (det_y d + det_h d / 2) with (snd (center d)).
    set (w := fl (inject_Z (det_w d * det_h d) * fl (det_conf d))) in *.
    assert (NX : near (k + 1) (fl (tx + fl (inject_Z (fst (center d)) * w)))
                      (sx + inject_Z (fst (center d)) * weight d)).
    { apply (@near_fl_le K); [lra|lra|exact Hs|].
      apply near_add; [exact Nx|].
      apply (@near_weaken 3); [lra|lra|exact WX]. }
    assert (NY : near (k + 1) (fl (ty + fl (inject_Z (snd (center d)) * w)))
                      (sy + inject_Z (snd (center d)) * weight d)).
    { apply (@near_fl_le K); [lra|lra|exact Hs|].
      apply near_add; [exact Ny|].
      apply (@near_weaken 3); [lra|lra|exact WY]. }
    assert (NW : near (k + 1) (fl (tw + w)) (sw + weight d)).
    { apply (@near_fl_le K); [lra|lra|exact Hs|].
      apply near_add; [exact Nw|].
      apply (@near_weaken 2); [lra|lra|exact W2]. }
    assert (Hk1 : (3 <= k + 1)%Q) by lra.
    assert (HK1 : (k + 1 + count faces <= K)%Q) by lra.
    destruct (IH (k + 1)%Q _ _ _ _ _ _ Hk1 HK1 NX NY NW) as (Rx & Ry & Rw).
    cbv zeta in Rx, Ry, Rw.
    assert (Ek : (k + 1 + count faces == k + count (d :: faces))%Q)
      by (rewrite count_cons; ring).
    unfold total_weight in *. cbn [map Qsum fold_right].
    split; [|split];
      (eapply near_proper; [exact Ek|];
       eapply near_eq; [|eassumption]; unfold Qsum; ring).
Qed.

End SumFacts.

Module QuotientFacts.
Import Float64 RoundFacts NearFacts SumFacts.

(** The rounded quotient of the float sums is within one of the exact
    quotient. *)
Lemma quotient_near (N B tx tw Sx Sw : Q) :
  (0 <= N)%Q -> (0 <= B)%Q ->
  ((3 * N + 2) * (B + 1) * u <= 1 # 2)%Q ->
  near N tx Sx -> near N tw Sw ->
  (0 < Sw)%Q -> (Sx <= B * Sw)%Q ->
  (0 < tw)%Q
  /\ (0 <= fl (tx / tw))%Q
  /\ (Sx / Sw - 1 <= fl (tx / tw))%Q
  /\ (fl (tx / tw) <= Sx / Sw + 1)%Q.
Proof.
  intros HN HB Hs (Hx0 & Hxlo & Hxhi) (_ & Hwlo & Hwhi) HSw HSx.
  pose proof u_pos as Hu.
  set (v := u) in *.
  assert (HNv : (0 <= N * v)%Q) by (apply Qmult_le_0_compat; lra).
  assert (HBv : (0 <= B * v)%Q) by (apply Qmult_le_0_compat; lra).
  assert (HNBv : (0 <= N * (B * v))%Q) by (apply Qmult_le_0_compat; lra).
  assert (Hs' : (3 * (N * (B * v)) + 3 * (N * v) + 2 * (B * v) + 2 * v
                 <= 1 # 2)%Q).
  { setoid_replace (3 * (N * (B * v)) + 3 * (N * v) + 2 * (B * v) + 2 * v)%Q
      with ((3 * N + 2) * (B + 1) * v)%Q by ring. exact Hs. }
  assert (Hlo : (1 # 2 <= 1 - N * v)%Q) by lra.
  assert (Htw : (0 < tw)%Q).
  { eapply Qlt_le_trans; [|exact Hwlo].
    apply Qmult_lt_0_compat; lra. }
  split; [exact Htw|].
  set (C := (Sx / Sw)%Q).
  assert (EC : (Sx == C * Sw)%Q) by (unfold C; field; lra).
  assert (HC0 : (0 <= C)%Q).
  { unfold C. apply Qle_shift_div_l; [exact HSw|]. lra. }
  assert (HCB : (C <= B)%Q).
  { unfold C. apply Qle_shift_div_r; [exact HSw|]. exact HSx. }
  set (q := (tx / tw)%Q).
  assert (Eq : (tx == q * tw)%Q) by (unfold q; field; lra).
  assert (Hq0 : (0 <= q)%Q).
  { unfold q. apply Qle_shift_div_l; [exact Htw|].
    rewrite Qmult_0_l. eapply Qle_trans; [|exact Hxlo].
    apply Qmult_le_0_compat; lra. }
  destruct (fl_error Hq0) as [Flo Fhi].
  fold v in Flo, Fhi.
  set (y := fl q) in *. clearbody y. clearbody C q v.
  rewrite EC in Hxlo, Hxhi. rewrite Eq in Hxlo, Hxhi.
  clear EC Eq HSx Hx0.
  assert (Hy0 : (0 <= y)%Q).
  { eapply Qle_trans; [|exact Flo]. apply Qmult_le_0_compat; lra. }
  split; [exact Hy0|].
  (* products that are not negative *)
  assert (HCv : (0 <= C * v)%Q) by (apply Qmult_le_0_compat; lra).
  assert (HCvB : (C * v <= B * v)%Q) by (apply Qmult_le_compat_r; lra).
  assert (HNCv : (0 <= N * (C * v))%Q) by (apply Qmult_le_0_compat; lra).
  assert (HNCvB : (N * (C * v) <= N * (B * v))%Q)
    by (apply NearFacts.Qmult_le_l'; lra).
  split.
  - (* C - 1 <= y *)
    destruct (Qlt_le_dec C 1) as [Hsmall|Hbig]; [lra|].
    (* (C - 1) * tw <= (1 - v) * q * tw *)
    assert (H1 : ((C - 1) * tw <= (C - 1) * ((1 + 2 * N * v) * Sw))%Q)
      by (apply NearFacts.Qmult_le_l'; lra).
    assert (H2 : ((1 - v) * ((1 - N * v) * (C * Sw)) <= (1 - v) * (q * tw))%Q)
      by (apply NearFacts.Qmult_le_l'; lra).
    assert (H3 : ((C - 1) * (1 + 2 * N * v) <= (1 - v) * (1 - N * v) * C)%Q).
    { assert (0 <= N * v * (C * v))%Q by (apply Qmult_le_0_compat; lra).
      nra. }
    assert (H4 : ((C - 1) * (1 + 2 * N * v) * Sw
                  <= (1 - v) * (1 - N * v) * C * Sw)%Q)
      by (apply Qmult_le_compat_r; lra).
    assert (H5 : ((C - 1) * tw <= (1 - v) * q * tw)%Q) by nra.
    assert (H6 : (C - 1 <= (1 - v) * q)%Q).
    { apply Qmult_le_r with tw; assumption. }
    lra.
  - (* y <= C + 1 *)
    assert (H1 : ((1 + v) * (q * tw) <= (1 + v) * ((1 + 2 * N * v) * (C * Sw)))%Q)
      by (apply NearFacts.Qmult_le_l'; lra).
    assert (H2 : ((C + 1) * ((1 - N * v) * Sw) <= (C + 1) * tw)%Q)
      by (apply NearFacts.Qmult_le_l'; lra).
    assert (H3 : ((1 + v) * (1 + 2 * N * v) * C <= (C + 1) * (1 - N * v))%Q).
    { assert (0 <= N * v * (C * v))%Q by (apply Qmult_le_0_compat; lra).
      assert (N * v * (C * v) <= (1 # 2) * (C * v))%Q
        by (apply Qmult_le_compat_r; lra).
      nra. }
    assert (H4 : ((1 + v) * (1 + 2 * N * v) * C * Sw
                  <= (C + 1) * (1 - N * v) * Sw)%Q)
      by (apply Qmult_le_compat_r; lra).
    assert (H5 : ((1 + v) * q * tw <= (C + 1) * tw)%Q) by nra.
    assert (H6 : ((1 + v) * q <= C + 1)%Q).
    { apply Qmult_le_r with tw; assumption. }
    lra.
Qed.

End QuotientFacts.

Module ExactFacts.
Import Float64 RoundFacts FocusFacts.

Lemma two_gt_one : (1 < 2)%Q.
Proof. reflexivity. Qed.

Lemma ilog2_lt (q : Q) : (0 < q)%Q -> (q < 2 ^ (ilog2 q + 1))%Q.
Proof.
  intros Hq. unfold ilog2.
  set (n := Qnum q). set (d := Zpos (Qden q)).
  destruct (Qle_bool (2 ^ (Z.log2 n - Z.log2 d)) q) eqn:E.
  - assert (Hn : 0 < n) by (unfold n; unfold Qlt in Hq; simpl in Hq; lia).
    assert (Hd : 0 < d) by (unfold d; lia).
    destruct (Z.log2_spec n Hn) as [_ Hnu].
    destruct (Z.log2_spec d Hd) as [Hdl _].
    pose proof (Z.log2_nonneg n) as Ln. pose proof (Z.log2_nonneg d) as Ld.
    replace (Z.log2 n - Z.log2 d + 1) with (Z.succ (Z.log2 n) - Z.log2 d)
      by lia.
    rewrite Qpower_minus by exact two_nonzero.
    change 2%Q with (inject_Z 2).
    rewrite <- !Zpower_Qpower by lia.
    assert (Eq : (q == inject_Z n / inject_Z d)%Q).
    { unfold n, d. destruct q as [a b]. cbn [Qnum Qden].
      apply Qmake_Qdiv. }
    rewrite Eq.
    assert (Hp : 0 < 2 ^ Z.log2 d) by (apply Z.pow_pos_nonneg; lia).
    apply Qlt_shift_div_r; [now apply inject_Z_pos|].
    unfold Qdiv. rewrite <- Qmult_assoc, (Qmult_comm (/ _)), Qmult_assoc.
    apply Qlt_shift_div_l; [now apply inject_Z_pos|].
    rewrite <- !inject_Z_mult, <- Zlt_Qlt. nia.
  - replace (Z.log2 n - Z.log2 d - 1 + 1) with (Z.log2 n - Z.log2 d) by lia.
    apply Qnot_le_lt. intros H. apply Qle_bool_iff in H. congruence.
Qed.

Lemma ilog2_unique (q : Q) (e : Z) :
  (0 < q)%Q -> (2 ^ e <= q)%Q -> (q < 2 ^ (e + 1))%Q -> ilog2 q = e.
Proof.
  intros Hq Hlo Hhi.
  pose proof (ilog2_le Hq) as Ilo. pose proof (ilog2_lt Hq) as Ihi.
  assert (H1 : (2 ^ ilog2 q < 2 ^ (e + 1))%Q)
    by (eapply Qle_lt_trans; eassumption).
  assert (H2 : (2 ^ e < 2 ^ (ilog2 q + 1))%Q)
    by (eapply Qle_lt_trans; eassumption).
  apply Qpower_lt_compat_l_inv in H1; [|exact two_gt_one].
  apply Qpower_lt_compat_l_inv in H2; [|exact two_gt_one].
  lia.
Qed.

#[export] Instance round_half_even_comp : Proper (Qeq ==> eq) round_half_even.
Proof.
  intros a b Hab. unfold round_half_even. cbv zeta.
  assert (F : Qfloor a = Qfloor b) by now rewrite Hab.
  rewrite F.
  assert (E1 : Qlt_bool (a - inject_Z (Qfloor b)) (1 # 2)
               = Qlt_bool (b - inject_Z (Qfloor b)) (1 # 2))
    by now rewrite Hab.
  assert (E2 : Qlt_bool (1 # 2) (a - inject_Z (Qfloor b))
               = Qlt_bool (1 # 2) (b - inject_Z (Qfloor b)))
    by now rewrite Hab.
  now rewrite E1, E2.
Qed.

Lemma round_half_even_Z (m : Z) : round_half_even (inject_Z m) = m.
Proof.
  unfold round_half_even. rewrite Qfloor_Z.
  assert (E : Qlt_bool (inject_Z m - inject_Z m) (1 # 2) = true).
  { apply Qlt_bool_iff. lra. }
  now rewrite E.
Qed.

(** An integer below [2^53] is its own float. *)
Lemma fl_integer (n : Z) :
  0 <= n < 2 ^ 53 -> (fl (inject_Z n) == inject_Z n)%Q.
Proof.
  intros [Hn0 Hn]. unfold fl.
  assert (Er : (Qred (inject_Z n) == inject_Z n)%Q) by apply Qred_correct.
  set (r := Qred (inject_Z n)) in *. clearbody r.
  destruct (r ?= 0)%Q eqn:C.
  - apply Qeq_alt in C. rewrite <- Er. now symmetry.
  - apply Qlt_alt in C. rewrite Er in C.
    change 0%Q with (inject_Z 0) in C. rewrite <- Zlt_Qlt in C. lia.
  - apply Qgt_alt in C.
    assert (Hpos : 0 < n).
    { rewrite Er in C. change 0%Q with (inject_Z 0) in C.
      now rewrite <- Zlt_Qlt in C. }
    destruct (Z.log2_spec n Hpos) as [Hl Hu].
    pose proof (Z.log2_nonneg n) as HL.
    set (L := Z.log2 n) in *.
    assert (HL52 : L <= 52).
    { assert (L < 53); [|lia].
      apply (Z.pow_lt_mono_r_iff 2); lia. }
    assert (El : ilog2 r = L).
    { apply ilog2_unique; [exact C| |].
      - rewrite Er. change 2%Q with (inject_Z 2).
        rewrite <- Zpower_Qpower by lia. now rewrite <- Zle_Qle.
      - rewrite Er. change 2%Q with (inject_Z 2).
        rewrite <- Zpower_Qpower by lia. rewrite <- Zlt_Qlt.
        exact Hu. }
    unfold nearest. rewrite El.
    assert (Ep : (2 ^ (L - 52) == / inject_Z (2 ^ (52 - L)))%Q).
    { replace (L - 52) with (- (52 - L)) by lia.
      rewrite Qpower_opp. change 2%Q with (inject_Z 2).
      rewrite <- Zpower_Qpower by lia. reflexivity. }
    assert (Hp : 0 < 2 ^ (52 - L)) by (apply Z.pow_pos_nonneg; lia).
    pose proof (inject_Z_pos Hp) as HP.
    assert (Es : (r / 2 ^ (L - 52) == inject_Z (n * 2 ^ (52 - L)))%Q).
    { rewrite Ep, Er, inject_Z_mult. field. lra. }
    rewrite Es, round_half_even_Z, Ep, inject_Z_mult. field. lra.
Qed.

Lemma floor_unique (y : Q) (m : Z) :
  (inject_Z m <= y)%Q -> (y < inject_Z (m + 1))%Q -> Qfloor y = m.
Proof.
  intros Hlo Hhi.
  pose proof (Qfloor_le y) as Flo. pose proof (Qlt_floor y) as Fhi.
  assert (H1 : (inject_Z m < inject_Z (Qfloor y + 1))%Q)
    by (eapply Qle_lt_trans; eassumption).
  assert (H2 : (inject_Z (Qfloor y) < inject_Z (m + 1))%Q)
    by (eapply Qle_lt_trans; eassumption).
  rewrite <- Zlt_Qlt in H1, H2. lia.
Qed.

Lemma py_int_floor (y : Q) (m : Z) :
  0 <= m -> (inject_Z m <= y)%Q -> (y < inject_Z (m + 1))%Q -> py_int y = m.
Proof.
  intros Hm Hlo Hhi. unfold py_int.
  assert (E : Qle_bool 0 y = true).
  { apply Qle_bool_iff. eapply Qle_trans; [|exact Hlo].
    change 0%Q with (inject_Z 0). now rewrite <- Zle_Qle. }
  rewrite E. now apply floor_unique.
Qed.

(** The float mean of three pixel coordinates truncates to the same
    integer as their exact mean. *)
Lemma mean3_float (a b c : Z) :
  0 <= a < 2 ^ 50 -> 0 <= b < 2 ^ 50 -> 0 <= c < 2 ^ 50 ->
  py_int (fl (mean3 a b c)) = py_int (mean3 a b c).
Proof.
  intros Ha Hb Hc. unfold mean3.
  set (s := a + b + c).
  assert (Hs : 0 <= s < 3 * 2 ^ 50) by (unfold s; lia).
  pose proof (Z.div_mod s 3 ltac:(lia)) as Hdiv.
  pose proof (Z.mod_pos_bound s 3 ltac:(lia)) as Hmod.
  set (m := s / 3) in *. set (t := s mod 3) in *.
  assert (Hm : 0 <= m < 2 ^ 50) by lia.
  assert (Eq : (inject_Z s / 3 == inject_Z m + inject_Z t * (1 # 3))%Q).
  { rewrite Hdiv, inject_Z_plus, inject_Z_mult.
    change (inject_Z 3) with 3%Q. field. }
  assert (Hexact : py_int (inject_Z s / 3) = m).
  { apply py_int_floor; [lia| |].
    - rewrite Eq. assert (0 <= inject_Z t)%Q
        by (change 0%Q with (inject_Z 0); rewrite <- Zle_Qle; lia). lra.
    - rewrite Eq, inject_Z_plus. change (inject_Z 1) with 1%Q.
      assert (inject_Z t <= 2)%Q
        by (change 2%Q with (inject_Z 2); rewrite <- Zle_Qle; lia). lra. }
  rewrite Hexact.
  destruct (Z.eq_dec t 0) as [E0|Hne].
  - assert (E : (inject_Z s / 3 == inject_Z m)%Q).
    { rewrite Eq, E0. change (inject_Z 0) with 0%Q. ring. }
    rewrite E, fl_integer by lia.
    apply py_int_floor; [lia|lra|].
    rewrite inject_Z_plus. change (inject_Z 1) with 1%Q. lra.
  - assert (Ht1 : (1 <= inject_Z t)%Q)
      by (change 1%Q with (inject_Z 1); rewrite <- Zle_Qle; lia).
    assert (Ht2 : (inject_Z t <= 2)%Q)
      by (change 2%Q with (inject_Z 2); rewrite <- Zle_Qle; lia).
    assert (Hm0 : (0 <= inject_Z m)%Q)
      by (change 0%Q with (inject_Z 0); rewrite <- Zle_Qle; lia).
    assert (HmB : (inject_Z m <= 1125899906842624)%Q).
    { change 1125899906842624%Q with (inject_Z (2 ^ 50)).
      rewrite <- Zle_Qle. lia. }
    assert (Hq0 : (0 <= inject_Z s / 3)%Q) by (rewrite Eq; lra).
    destruct (fl_error Hq0) as [Flo Fhi].
    set (y := fl (inject_Z s / 3)) in *. clearbody y.
    rewrite Eq in Flo, Fhi. unfold u in Flo, Fhi.
    apply py_int_floor; [lia| |].
    + lra.
    + rewrite inject_Z_plus. change (inject_Z 1) with 1%Q. lra.
Qed.

End ExactFacts.

Module Float64Facts.
Import Float64 RoundFacts NearFacts SumFacts QuotientFacts ExactFacts.
Import FocusFacts.

Lemma py_int_within (c y : Q) :
  (0 <= c)%Q -> (0 <= y)%Q -> (c - 1 <= y)%Q -> (y <= c + 1)%Q ->
  within_a_pixel (py_int y) (py_int c).
Proof.
  intros Hc Hy Hlo Hhi. unfold within_a_pixel.
  destruct (py_int_bounds c) as [_ Cup].
  destruct (py_int_bounds y) as [_ Yup].
  destruct (DetectBounds.py_int_nonneg Hc) as [_ Cle].
  destruct (DetectBounds.py_int_nonneg Hy) as [_ Yle].
  assert (H1 : (inject_Z (py_int c) < inject_Z (py_int y + 2))%Q).
  { rewrite inject_Z_plus. change (inject_Z 2) with 2%Q. lra. }
  assert (H2 : (inject_Z (py_int y) < inject_Z (py_int c + 2))%Q).
  { rewrite inject_Z_plus. change (inject_Z 2) with 2%Q. lra. }
  rewrite <- Zlt_Qlt in H1, H2. lia.
Qed.

Lemma calculate_smooth_focus64_cons (d : Detection) (ds : list Detection)
      (frame_width frame_height : Z) (h : TrackingHistory) :
  let raw := raw_focus64 (d :: ds) frame_width frame_height in
  Float64.calculate_smooth_focus (d :: ds) frame_width frame_height h
  = (Ok (smoothed64 raw (deque_append h raw)), deque_append h raw).
Proof.
  unfold Float64.calculate_smooth_focus, raw_focus64, smoothed64.
  destruct (fold_left Float64.accumulate (d :: ds) _) as [[tx ty] tw].
  cbn [fst snd]. destruct (Qlt_bool 0 tw);
    unfold bind, get_history, put_history, ret; cbv zeta;
    destruct (3 <=? len _); reflexivity.
Qed.

Lemma smoothed64_spec (raw : FocusPoint) (h : TrackingHistory) :
  ((length h < 3)%nat -> smoothed64 raw h = raw)
  /\ (forall older p1 p2 p3, h = older ++ [p1; p2; p3] ->
        smoothed64 raw h
        = (py_int (fl (mean3 (fst p1) (fst p2) (fst p3))),
           py_int (fl (mean3 (snd p1) (snd p2) (snd p3))))).
Proof.
  unfold smoothed64, len. split.
  - intros Hlen. destruct (3 <=? _) eqn:E; [|reflexivity].
    apply Z.leb_le in E. lia.
  - intros older p1 p2 p3 ->.
    destruct (3 <=? _) eqn:E.
    + rewrite !map_app. cbn [map].
      rewrite !lastn_3. now rewrite !np_mean_3.
    + apply Z.leb_gt in E. rewrite length_app in E. simpl in E. lia.
Qed.

Lemma centered_nonneg (frame_width frame_height : Z) (d : Detection) :
  centered_in_frame frame_width frame_height d -> nonneg_box d.
Proof.
  intros ([[Hx _] [Hy _]] & Hw & Hh & Hc). unfold nonneg_box. tauto.
Qed.

(** The raw point of the float computation against the exact centroid. *)
Lemma raw_focus64_near (faces : list Detection)
      (frame_width frame_height : Z) :
  pixel_sized faces frame_width frame_height ->
  ((0 < total_weight faces)%Q ->
   within_a_pixel (fst (raw_focus64 faces frame_width frame_height))
                  (py_int (centroid_x faces))
   /\ within_a_pixel (snd (raw_focus64 faces frame_width frame_height))
                     (py_int (centroid_y faces)))
  /\ ((total_weight faces <= 0)%Q ->
      raw_focus64 faces frame_width frame_height
      = frame_center frame_width frame_height).
Proof.
  intros [Hall Hsize].
  destruct faces as [|d0 ds0] eqn:Ef.
  { split; [intros H; exfalso; exact (Qlt_irrefl _ H)|reflexivity]. }
  rewrite <- Ef in *.
  assert (Hlen : 1 <= Z.of_nat (length faces))
    by (rewrite Ef; cbn [length]; lia).
  assert (Hdims : 1 <= frame_width /\ 1 <= frame_height).
  { rewrite Ef in Hall. inversion Hall as [|? ? [[Hx Hy] _] _]. lia. }
  clear Ef d0 ds0. destruct Hdims as [Hw Hh].
  set (n := Z.of_nat (length faces)) in *.
  assert (Hn50 : n + 3 <= 2 ^ 50) by nia.
  assert (HK : (count faces + 3 <= 1125899906842624)%Q).
  { unfold count. fold n. change 3%Q with (inject_Z 3).
    rewrite <- inject_Z_plus.
    change 1125899906842624%Q with (inject_Z (2 ^ 50)).
    now rewrite <- Zle_Qle. }
  pose proof (count_nonneg faces) as Hc0.
  assert (Hs : (2 * (count faces + 3) * u <= 1)%Q) by (unfold u; lra).
  assert (Hbox : Forall nonneg_box faces).
  { eapply Forall_impl; [|exact Hall]. intros d. apply centered_nonneg. }
  assert (N0 : near 3 0 0)
    by (apply (@near_weaken 0); [lra|lra|apply near_exact; lra]).
  destruct (@accumulate_near (count faces + 3) faces Hs Hbox
              3 0 0 0 0 0 0 ltac:(lra) ltac:(lra) N0 N0 N0)
    as (Rx & Ry & Rw).
  cbv zeta in Rx, Ry, Rw.
  apply (@near_eq _ _ _ (Qsum (map (fun d => inject_Z (fst (center d))
                                             * weight d)%Q faces)))
    in Rx; [|ring].
  apply (@near_eq _ _ _ (Qsum (map (fun d => inject_Z (snd (center d))
                                             * weight d)%Q faces)))
    in Ry; [|ring].
  apply (@near_eq _ _ _ (total_weight faces)) in Rw; [|ring].
  unfold raw_focus64.
  destruct (fold_left Float64.accumulate faces (0%Q, 0%Q, 0%Q))
    as [[tx ty] tw].
  cbn [fst snd] in *.
  split.
  - intros Hpos.
    assert (Hrange : forall (c : Detection -> Z) (M : Z),
               Forall (fun d => 0 <= c d <= M - 1 /\ (0 <= weight d)%Q)
                      faces ->
               1 <= M -> M <= Z.max frame_width frame_height ->
               forall t,
                 near (3 + count faces) t
                      (Qsum (map (fun d => (inject_Z (c d) * weight d)%Q)
                                 faces)) ->
                 within_a_pixel
                   (py_int (fl (t / tw)))
                   (py_int (Qsum (map (fun d => (inject_Z (c d)
                                                 * weight d)%Q) faces)
                            / total_weight faces))).
    { intros c M Hc HM1 HMmax t Nt.
      destruct (FrameFacts.weighted_sum_range c Hc) as [Slo Shi].
      assert (HB : (0 <= inject_Z (M - 1))%Q).
      { change 0%Q with (inject_Z 0). rewrite <- Zle_Qle. lia. }
      assert (Hsmall : ((3 * (3 + count faces) + 2) * (inject_Z (M - 1) + 1)
                        * u <= 1 # 2)%Q).
      { assert (E : ((3 * (3 + count faces) + 2) * (inject_Z (M - 1) + 1)
                     == inject_Z ((3 * (3 + n) + 2) * M))%Q).
        { unfold count. fold n.
          rewrite inject_Z_mult, !inject_Z_plus, inject_Z_mult.
          unfold Z.sub. rewrite !inject_Z_plus.
          change (inject_Z 3) with 3%Q. change (inject_Z 2) with 2%Q.
          change (inject_Z (- (1))) with (- 1)%Q. ring. }
        rewrite E.
        assert (Hz : (3 * (3 + n) + 2) * M <= 3 * 2 ^ 50) by nia.
        rewrite Zle_Qle in Hz.
        change (inject_Z (3 * 2 ^ 50)) with 3377699720527872%Q in Hz.
        unfold u. lra. }
      destruct (@quotient_near (3 + count faces) (inject_Z (M - 1))
                  t tw _ _ ltac:(lra) HB Hsmall Nt Rw Hpos Shi)
        as (Htw & Hy0 & Hlo & Hhi).
      apply py_int_within; try assumption.
      apply Qle_shift_div_l; [exact Hpos|]. rewrite Qmult_0_l.
      change (inject_Z 0) with 0%Q in Slo. rewrite Qmult_0_l in Slo.
      exact Slo. }
    assert (Hw0 : Forall (fun d => (0 <= weight d)%Q) faces).
    { eapply Forall_impl; [|exact Hall].
      intros d (_ & Hdw & Hdh & Hdc). now apply FrameFacts.weight_nonneg. }
    assert (Htw : Qlt_bool 0 tw = true).
    { apply Qlt_bool_iff.
      destruct Rw as (_ & Rlo & _). eapply Qlt_le_trans; [|exact Rlo].
      apply Qmult_lt_0_compat; [unfold u; lra|exact Hpos]. }
    rewrite Htw. cbn [fst snd]. split.
    + apply (Hrange (fun d => fst (center d)) frame_width); try lia;
        [|exact Rx].
      rewrite Forall_forall in Hall, Hw0 |- *. intros d Hd.
      destruct (Hall d Hd) as ([[? ?] _] & _). split; [lia|now apply Hw0].
    + apply (Hrange (fun d => snd (center d)) frame_height); try lia;
        [|exact Ry].
      rewrite Forall_forall in Hall, Hw0 |- *. intros d Hd.
      destruct (Hall d Hd) as ([_ [? ?]] & _). split; [lia|now apply Hw0].
  - intros Hzero.
    assert (Htw : Qlt_bool 0 tw = false).
    { apply Qlt_bool_false_iff.
      destruct Rw as (R0 & _ & Rhi). eapply Qle_trans; [exact Rhi|].
      assert (E : (total_weight faces == 0)%Q) by lra.
      rewrite E. lra. }
    rewrite Htw. reflexivity.
Qed.

End Float64Facts.

(** C5, as the code has it.  On an empty detection list
    [calculate_smooth_focus] returns the most recent history entry, or
    the centre of the frame when the history is empty, and leaves the
    history as it is.  On a non-empty list it appends one point to the
    history, keeping the ten most recent entries in order, and then
    emits the mean of the last three entries, computed in float64 and
    truncated to integers, when the history holds at least three, and
    the appended point otherwise; for entries that are pixel
    coordinates the float mean truncates as the exact mean does.  For
    detections on a frame of the sizes a video has, the appended point
    is the centre of the frame when the total weight (weight = area x
    confidence) is zero, and otherwise lies, in each coordinate, within
    one pixel of the weighted centroid of the detection centres
    truncated to integers: the quotient is computed in float64, and a
    centroid that is an integer can come out one pixel short. *)
Theorem calculate_smooth_focus_float64
        (faces : list Detection) (frame_width frame_height : Z)
        (h : TrackingHistory) :
  (faces = [] ->
     (h = [] ->
        Float64.calculate_smooth_focus faces frame_width frame_height h
        = (Ok (frame_center frame_width frame_height), h))
     /\ (forall older p, h = older ++ [p] ->
           Float64.calculate_smooth_focus faces frame_width frame_height h
           = (Ok p, h)))
  /\ (faces <> [] ->
      exists (raw emitted : FocusPoint) (h' : TrackingHistory),
        Float64.calculate_smooth_focus faces frame_width frame_height h
        = (Ok emitted, h')
        /\ (pixel_sized faces frame_width frame_height ->
            ((0 < total_weight faces)%Q ->
               within_a_pixel (fst raw) (py_int (centroid_x faces))
               /\ within_a_pixel (snd raw) (py_int (centroid_y faces)))
            /\ ((total_weight faces <= 0)%Q ->
                raw = frame_center frame_width frame_height))
        /\ (exists evicted, h ++ [raw] = evicted ++ h')
        /\ length h' = Nat.min 10 (length h + 1)
        /\ ((length h' < 3)%nat -> emitted = raw)
        /\ (forall older p1 p2 p3, h' = older ++ [p1; p2; p3] ->
              emitted
              = (py_int (Float64.fl (mean3 (fst p1) (fst p2) (fst p3))),
                 py_int (Float64.fl (mean3 (snd p1) (snd p2) (snd p3))))
              /\ (pixel_coordinates p1 -> pixel_coordinates p2 ->
                  pixel_coordinates p3 ->
                  emitted = (py_int (mean3 (fst p1) (fst p2) (fst p3)),
                             py_int (mean3 (snd p1) (snd p2) (snd p3)))))).
Proof.
  split.
  - intros ->. split.
    + intros ->. reflexivity.
    + intros older p ->.
      unfold Float64.calculate_smooth_focus, bind, get_history.
      destruct (older ++ [p]) eqn:E.
      * destruct older; discriminate.
      * rewrite <- E, last_last. reflexivity.
  - intros Hne. destruct faces as [|d ds]; [congruence|].
    set (raw := raw_focus64 (d :: ds) frame_width frame_height).
    exists raw, (smoothed64 raw (deque_append h raw)),
           (deque_append h raw).
    destruct (Float64Facts.smoothed64_spec raw (deque_append h raw))
      as [Hshort Hlong].
    destruct (FocusFacts.lastn_suffix maxlen (h ++ [raw]))
      as [evicted [Hsuffix Hlen]].
    rewrite length_app in Hlen. simpl in Hlen.
    split; [apply Float64Facts.calculate_smooth_focus64_cons|].
    split; [intros Hsized; now apply Float64Facts.raw_focus64_near|].
    split; [exists evicted; exact Hsuffix|].
    split; [exact Hlen|]. split; [exact Hshort|].
    intros older p1 p2 p3 E. split; [exact (Hlong older p1 p2 p3 E)|].
    intros [H1x H1y] [H2x H2y] [H3x H3y].
    rewrite (Hlong older p1 p2 p3 E).
    rewrite !ExactFacts.mean3_float by assumption. reflexivity.
Qed.

Lemma calculate_smooth_focus_float64_witness :
  let d := mkDetection 11 54 64 64 (8 # 10) in
  let h := [(0, 0); (3, 3)] in
  (Float64.calculate_smooth_focus [] 1920 1080 h = (Ok (3, 3), h))
  /\ exists raw emitted h',
       Float64.calculate_smooth_focus [d] 1920 1080 h = (Ok emitted, h')
       /\ within_a_pixel (fst raw) 43
       /\ within_a_pixel (snd raw) 86
       /\ length h' = 3%nat.
Proof.
  intros d h. split.
  - destruct (calculate_smooth_focus_float64 [] 1920 1080 h) as [Hempty _].
    destruct (Hempty eq_refl) as [_ Hlast].
    apply (Hlast [(0, 0)] (3, 3)). reflexivity.
  - destruct (calculate_smooth_focus_float64 [d] 1920 1080 h)
      as [_ Hfaces].
    destruct Hfaces as (raw & emitted & h' & Hrun & Hnear & _ & Hlen & _).
    + discriminate.
    + assert (Hsized : pixel_sized [d] 1920 1080).
      { split; [|vm_compute; discriminate].
        repeat constructor; vm_compute; congruence. }
      destruct (Hnear Hsized) as [Hpos _].
      destruct Hpos as [Hx Hy]; [vm_compute; reflexivity|].
      exists raw, emitted, h'.
      split; [exact Hrun|]. split; [exact Hx|]. split; [exact Hy|exact Hlen].
Defined.

(** C5 fails as stated.  The point emitted from three history entries is
    the truncated mean, not the mean: after [(0,0)], [(0,0)] and the new
    centroid [(2,1)] the code emits [(0,0)].  The point appended for a
    non-empty list of zero total weight is the centre of the frame,
    whatever the detection centres are.  And the point appended for the
    lone detection (11,54,64,64) of confidence 0.8, whose centre and
    centroid is (43,86), is (42,85): the float64 quotient of
    [43 * weight] by [weight] is just below 43. *)
Lemma calculate_smooth_focus_not_literal :
  ~ literal_claim [mkDetection 1 0 2 2 1] 100 100 [(0, 0); (0, 0)]
  /\ (let d := mkDetection 10 10 0 0 1 in
      Float64.calculate_smooth_focus [d] 100 100 []
      = (Ok (50, 50), [(50, 50)])
      /\ center d = (10, 10)
      /\ total_weight [d] == 0)
  /\ (let d := mkDetection 11 54 64 64 (8 # 10) in
      Float64.calculate_smooth_focus [d] 1920 1080 []
      = (Ok (42, 85), [(42, 85)])
      /\ centroid_x [d] == 43
      /\ centroid_y [d] == 86
      /\ ~ literal_claim [d] 1920 1080 []).
Proof.
  split; [|split].
  - intros (raw & emitted & h' & Hrun & _ & _ & _ & _ & Hlong).
    vm_compute in Hrun. injection Hrun as <- <-.
    destruct (Hlong [] (0, 0) (0, 0) (2, 1) eq_refl) as [Hx _].
    vm_compute in Hx. discriminate.
  - vm_compute. repeat split; reflexivity.
  - cbv zeta. split; [vm_compute; reflexivity|].
    split; [reflexivity|]. split; [reflexivity|].
    intros (raw & emitted & h' & Hrun & Hh & Hx & _).
    vm_compute in Hrun. injection Hrun as <- <-.
    vm_compute in Hh. destruct raw as [rx ry].
    injection Hh as <- <-.
    vm_compute in Hx. discriminate.
Qed.

(** The same rounding in the height of a standard region: for 21:9 on a
    frame 1120 wide the exact quotient is 480 and the float64 one
    truncates to 479. *)
Example standard_height_float64 :
  py_int (1120 / (21 / 9)) = 480
  /\ py_int (Float64.fl (1120 / Float64.fl (21 / 9))) = 479.
Proof. split; vm_compute; reflexivity. Qed.

(** ** The proportions of the crop regions *)

Module AspectFacts.

Lemma calculate_dynamic_crop_proportions (faces : list Detection)
      (frame_width frame_height : Z) (target_aspect_ratio : AspectRatio)
      (h h' : TrackingHistory) (plan : CropPlan) :
  0 < frame_width -> 0 < frame_height ->
  calculate_dynamic_crop faces frame_width frame_height
                         target_aspect_ratio h = (Ok (Some plan), h') ->
  (letterbox plan = true /\ mode plan = mode_letterbox
   /\ (0 < crop_h plan -> letterbox_proportions plan))
  \/ (letterbox plan = false /\ mode plan = mode_smart
      /\ crop_w plan = fst (standard_dims frame_width frame_height
                              (target_aspect_of target_aspect_ratio))
      /\ crop_h plan = snd (standard_dims frame_width frame_height
                              (target_aspect_of target_aspect_ratio))).
Proof.
  intros Hw Hh Hrun.
  destruct (@CropFacts.calculate_dynamic_crop_ok _ _ _ _ _ _ _ Hrun)
    as [Hne Ha].
  destruct faces as [|d ds]; [congruence|].
  rewrite (@CropFacts.calculate_dynamic_crop_run
             d ds frame_width frame_height target_aspect_ratio h
             Hw Hh Ha) in Hrun.
  injection Hrun as Hplan _.
  destruct (letterbox_eligibleb _ frame_width _).
  - left.
    destruct (CropFacts.letterbox_crop_dims
                (d :: ds) frame_width frame_height
                (fst (smoothed (raw_focus (d :: ds) frame_width frame_height)
                        (deque_append h (raw_focus (d :: ds) frame_width
                                                   frame_height))))
                (snd (smoothed (raw_focus (d :: ds) frame_width frame_height)
                        (deque_append h (raw_focus (d :: ds) frame_width
                                                   frame_height)))))
      as [Hm [Hl Herr]].
    rewrite Hplan in Hm, Hl, Herr.
    split; [exact Hl|]. split; [exact Hm|]. intros Hpos.
    apply CropFacts.ratio_bound; assumption.
  - right. subst plan. repeat split; reflexivity.
Qed.

(** A region with the standard dimensions has the standard
    proportions. *)
Lemma standard_dims_proportions (plan : CropPlan)
      (frame_width frame_height : Z) (target_aspect : Q) :
  0 < frame_width -> 0 < frame_height ->
  crop_w plan = fst (standard_dims frame_width frame_height target_aspect) ->
  crop_h plan = snd (standard_dims frame_width frame_height target_aspect) ->
  0 < crop_h plan ->
  standard_proportions plan frame_width frame_height target_aspect.
Proof.
  intros Hw Hh Ew Eh Hpos.
  destruct (@CropFacts.standard_dims_error
              frame_width frame_height target_aspect Hw Hh)
    as [Hnarrow Hwide].
  rewrite <- Ew, <- Eh in Hnarrow, Hwide.
  split; intros H; apply CropFacts.ratio_bound; auto.
Qed.

(** A run that returns a crop has opened the video and taken samples. *)
Lemma analyze_video_smooth_decided (cap : Video)
      (target_aspect_ratio : AspectRatio) (num_samples : Z)
      (h h' h'' : TrackingHistory) (all_crops : list CropPlan)
      (face_counts : list Z) (plan : CropPlan) :
  sample_frames cap target_aspect_ratio
                (Z.max 1 (CAP_PROP_FRAME_COUNT cap / num_samples))
                (range num_samples) [] [] h
  = (Ok (all_crops, face_counts), h') ->
  analyze_video_smooth cap target_aspect_ratio num_samples h
  = (Ok (Some plan), h'') ->
  decide all_crops face_counts = Some plan.
Proof.
  intros Hrun Hplan. unfold analyze_video_smooth in Hplan.
  destruct (negb (isOpened cap)); [discriminate|].
  unfold py_floordiv in Hplan.
  destruct (num_samples =? 0); [discriminate|].
  erewrite bind_ok in Hplan; [|reflexivity].
  erewrite bind_ok in Hplan; [|exact Hrun].
  unfold ret in Hplan. congruence.
Qed.

End AspectFacts.

(** C3, as the code has it.  A crop candidate that
    [calculate_dynamic_crop] computes for a sample matches the target
    aspect ratio, when it is a standard crop, within [1/height] if the
    target is not wider than the frame (the width is the one rounded)
    and within [targetAspect/height] if it is wider (the height is the
    one rounded); when it is a letterbox crop it is a 16:9 region,
    within [(16/9)/height] of 16:9, whatever the target.  The crop that
    [analyze_video_smooth] returns has the letterbox proportions when it
    is a letterbox crop, and the standard proportions when it is a
    standard crop and no sample was letterbox-eligible. *)
Theorem crop_region_aspect
        (frame_width frame_height : Z) (target_aspect_ratio : AspectRatio) :
  0 < frame_width ->
  0 < frame_height ->
  let target_aspect := target_aspect_of target_aspect_ratio in
  (forall (faces : list Detection) (h h' : TrackingHistory)
          (plan : CropPlan),
      calculate_dynamic_crop faces frame_width frame_height
                             target_aspect_ratio h = (Ok (Some plan), h') ->
      0 < crop_h plan ->
      (mode plan = mode_smart ->
       standard_proportions plan frame_width frame_height target_aspect)
      /\ (mode plan = mode_letterbox -> letterbox_proportions plan))
  /\ (forall (cap : Video) (num_samples : Z) (h h' : TrackingHistory)
             (all_crops : list CropPlan) (face_counts : list Z)
             (plan : CropPlan),
         CAP_PROP_FRAME_WIDTH cap = frame_width ->
         CAP_PROP_FRAME_HEIGHT cap = frame_height ->
         sample_frames cap target_aspect_ratio
                       (Z.max 1 (CAP_PROP_FRAME_COUNT cap / num_samples))
                       (range num_samples) [] [] h
         = (Ok (all_crops, face_counts), h') ->
         analyze_video_smooth cap target_aspect_ratio num_samples h
         = (Ok (Some plan), h') ->
         0 < crop_h plan ->
         (mode plan = mode_letterbox -> letterbox_proportions plan)
         /\ (mode plan = mode_smart_smooth ->
             letterbox_crops all_crops = [] ->
             standard_proportions plan frame_width frame_height
                                  target_aspect)).
Proof.
  intros Hw Hh. cbv zeta. split.
  - intros faces h h' plan Hrun Hpos.
    destruct (@AspectFacts.calculate_dynamic_crop_proportions
                _ _ _ _ _ _ _ Hw Hh Hrun)
      as [(Hl & Hm & Hbox)|(Hl & Hm & Ew & Eh)].
    + split; [congruence|]. intros _. now apply Hbox.
    + split; [|congruence]. intros _.
      now apply AspectFacts.standard_dims_proportions.
  - intros cap num_samples h h' all_crops face_counts plan <- <-
           Hrun Hplan Hpos.
    pose proof (@AspectFacts.analyze_video_smooth_decided
                  _ _ _ _ _ _ _ _ _ Hrun Hplan) as Hdec.
    assert (Hne : all_crops <> []).
    { intros ->. discriminate. }
    rewrite (@AnalysisFacts.decide_nonempty _ face_counts Hne) in Hdec.
    injection Hdec as Hdec.
    assert (Hall : Forall (fun c =>
                     (letterbox c = true /\ mode c = mode_letterbox
                      /\ (0 < crop_h c -> letterbox_proportions c))
                     \/ (letterbox c = false /\ mode c = mode_smart
                         /\ crop_w c
                            = fst (standard_dims
                                     (CAP_PROP_FRAME_WIDTH cap)
                                     (CAP_PROP_FRAME_HEIGHT cap)
                                     (target_aspect_of target_aspect_ratio))
                         /\ crop_h c
                            = snd (standard_dims
                                     (CAP_PROP_FRAME_WIDTH cap)
                                     (CAP_PROP_FRAME_HEIGHT cap)
                                     (target_aspect_of target_aspect_ratio))))
                   all_crops).
    { eapply SampleFacts.sample_frames_Forall; [|exact Hrun|constructor].
      intros faces h0 h1 c Hc.
      exact (@AspectFacts.calculate_dynamic_crop_proportions
               _ _ _ _ _ _ _ Hw Hh Hc). }
    rewrite Forall_forall in Hall.
    destruct (letterbox_confirmed all_crops face_counts) eqn:E.
    + split.
      * intros _.
        assert (Hhyst : hysteresis all_crops face_counts)
          by now apply AnalysisFacts.letterbox_confirmed_iff.
        pose proof (@AnalysisFacts.crop_at_middle
                      _ (@AnalysisFacts.hysteresis_eligible _ _ Hhyst))
          as Hmid.
        rewrite Hdec in Hmid. apply nth_error_In in Hmid.
        apply filter_In in Hmid. destruct Hmid as [Hin Hflag].
        destruct (Hall _ Hin) as [(_ & _ & Hbox)|(Hl & _)];
          [now apply Hbox|congruence].
      * intros Hm Hnone. exfalso.
        rewrite (@DecisionFacts.no_eligible_not_confirmed
                   all_crops face_counts Hnone) in E.
        discriminate.
    + subst plan. split; [discriminate|]. intros _ Hnone.
      assert (Hstd : forall c, In c all_crops ->
                crop_w c = fst (standard_dims
                                  (CAP_PROP_FRAME_WIDTH cap)
                                  (CAP_PROP_FRAME_HEIGHT cap)
                                  (target_aspect_of target_aspect_ratio))
                /\ crop_h c = snd (standard_dims
                                     (CAP_PROP_FRAME_WIDTH cap)
                                     (CAP_PROP_FRAME_HEIGHT cap)
                                     (target_aspect_of target_aspect_ratio))).
      { intros c Hc.
        pose proof (@DecisionFacts.filter_nil_all
                      _ letterbox all_crops Hnone c Hc) as Hl.
        destruct (Hall _ Hc) as [(Hl' & _)|(_ & _ & Ew & Eh)];
          [congruence|split; assumption]. }
      destruct (@SampleFacts.median_map_In crop_w all_crops Hne)
        as (cw & Hcw & Ew).
      destruct (@SampleFacts.median_map_In crop_h all_crops Hne)
        as (ch & Hch & Eh).
      apply AspectFacts.standard_dims_proportions; try assumption.
      * cbn [crop_w median_plan]. rewrite Ew. apply (Hstd _ Hcw).
      * cbn [crop_h median_plan]. rewrite Eh. apply (Hstd _ Hch).
Qed.

Lemma crop_region_aspect_witness :
  let plan := mkCropPlan mode_smart 657 0 607 1080 false 1 in
  let final := mkCropPlan mode_smart_smooth 657 0 607 1080 false 1 in
  standard_proportions plan 1920 1080 (9 # 16)
  /\ standard_proportions final 1920 1080 (9 # 16).
Proof.
  intros plan final.
  destruct (@crop_region_aspect 1920 1080 (mkAspectRatio 9 16))
    as [Hcandidate Hfinal]; [lia|lia|].
  split.
  - destruct (Hcandidate [mkDetection 920 500 80 80 1] [] [(960, 540)] plan)
      as [Hstandard _].
    + vm_compute. reflexivity.
    + simpl. lia.
    + apply Hstandard. reflexivity.
  - destruct (Hfinal (clip [Some one_centered; Some one_centered]) 2 []
                     [(960, 540); (960, 540)] [plan; plan] [1; 1] final)
      as [_ Hstandard].
    + reflexivity.
    + reflexivity.
    + vm_compute. reflexivity.
    + vm_compute. reflexivity.
    + simpl. lia.
    + apply Hstandard; reflexivity.
Defined.

(** ** The callers *)

Module CenterFacts.

Lemma py_int_quotient (a b : Z) :
  0 <= a -> 0 < b -> py_int (inject_Z a / inject_Z b) = a / b.
Proof.
  intros Ha Hb.
  assert (Hbq : (0 < inject_Z b)%Q) by now apply inject_Z_pos.
  assert (Hq : (0 <= inject_Z a / inject_Z b)%Q).
  { apply Qle_shift_div_l; [exact Hbq|].
    rewrite Qmult_0_l. change 0%Q with (inject_Z 0).
    rewrite <- Zle_Qle. exact Ha. }
  unfold py_int.
  assert (E : Qle_bool 0 (inject_Z a / inject_Z b) = true)
    by now apply Qle_bool_iff.
  rewrite E.
  pose proof (Qfloor_le (inject_Z a / inject_Z b)) as Hlo.
  pose proof (Qlt_floor (inject_Z a / inject_Z b)) as Hhi.
  set (z := Qfloor (inject_Z a / inject_Z b)) in *. clearbody z.
  apply (@RegionFacts.le_div_mul _ _ _ Hbq) in Hlo.
  apply (@RegionFacts.div_lt_mul _ _ _ Hbq) in Hhi.
  rewrite <- inject_Z_mult, <- Zle_Qle in Hlo.
  rewrite <- inject_Z_mult, <- Zlt_Qlt in Hhi.
  apply (Z.div_unique_pos a b z (a - b * z)); lia.
Qed.

Lemma truediv_ok (a b : Z) :
  b <> 0 -> truediv a b = Some (inject_Z a / inject_Z b)%Q.
Proof.
  intros Hb. unfold truediv.
  destruct (b =? 0) eqn:E; [apply Z.eqb_eq in E; contradiction|reflexivity].
Qed.

Lemma ratio_lt (a b c d : Z) :
  0 < b -> 0 < d ->
  (inject_Z a / inject_Z b < inject_Z c / inject_Z d)%Q <-> a * d < c * b.
Proof.
  intros Hb Hd.
  assert (Hbq : (0 < inject_Z b)%Q) by now apply inject_Z_pos.
  assert (Hdq : (0 < inject_Z d)%Q) by now apply inject_Z_pos.
  rewrite Zlt_Qlt, !inject_Z_mult.
  split; intros H.
  - apply (Qmult_lt_r _ _ (inject_Z b * inject_Z d)) in H.
    + assert (E1 : (inject_Z a / inject_Z b * (inject_Z b * inject_Z d)
                    == inject_Z a * inject_Z d)%Q) by (field; lra).
      assert (E2 : (inject_Z c / inject_Z d * (inject_Z b * inject_Z d)
                    == inject_Z c * inject_Z b)%Q) by (field; lra).
      rewrite E1, E2 in H. exact H.
    + nra.
  - apply (Qmult_lt_r _ _ (inject_Z b * inject_Z d)); [nra|].
    assert (E1 : (inject_Z a / inject_Z b * (inject_Z b * inject_Z d)
                  == inject_Z a * inject_Z d)%Q) by (field; lra).
    assert (E2 : (inject_Z c / inject_Z d * (inject_Z b * inject_Z d)
                  == inject_Z c * inject_Z b)%Q) by (field; lra).
    rewrite E1, E2. exact H.
Qed.

Lemma half (n : Z) :
  0 <= n -> py_int (inject_Z n / 2) = n / 2.
Proof.
  intros Hn. change 2%Q with (inject_Z 2). apply py_int_quotient; lia.
Qed.

(** The centre crop in integer arithmetic. *)
Lemma center_crop_run (input_width input_height
                       target_width target_height : Z) :
  0 < input_width -> 0 < input_height ->
  0 < target_width -> 0 < target_height ->
  center_crop input_width input_height target_width target_height
  = if target_width * input_height <? input_width * target_height
    then
      let scale_w := input_width * target_height / input_height in
      Some (scale_w, target_height, (scale_w - target_width) / 2, 0)
    else
      let scale_h := input_height * target_width / input_width in
      Some (target_width, scale_h, 0, (scale_h - target_height) / 2).
Proof.
  intros Hiw Hih Htw Hth. unfold center_crop.
  rewrite !truediv_ok by lia.
  destruct (Qlt_bool _ _) eqn:E.
  - apply Qlt_bool_iff in E.
    apply (proj1 (@ratio_lt target_width target_height
                            input_width input_height Hth Hih)) in E.
    assert (L : (target_width * input_height <? input_width * target_height)
                = true) by (apply Z.ltb_lt; exact E).
    rewrite L. cbv zeta.
    rewrite py_int_quotient by nia.
    rewrite half; [reflexivity|].
    assert (target_width <= input_width * target_height / input_height).
    { apply Z.div_le_lower_bound; lia. }
    lia.
  - apply Qlt_bool_false_iff in E.
    assert (L : (target_width * input_height <? input_width * target_height)
                = false).
    { apply Z.ltb_ge. apply Z.nlt_ge. intros C.
      apply (proj2 (@ratio_lt target_width target_height
                              input_width input_height Hth Hih)) in C.
      apply (Qlt_not_le _ _ C E). }
    rewrite L. cbv zeta. apply Z.ltb_ge in L.
    rewrite py_int_quotient by nia.
    rewrite half; [reflexivity|].
    assert (target_height <= input_height * target_width / input_width).
    { apply Z.div_le_lower_bound; lia. }
    lia.
Qed.

End CenterFacts.

(** X17.  For positive input and target sizes the centre crop of
    [format_video_clip] leaves no bars: the scaled picture covers the
    target in both directions and matches it exactly in one, the crop
    window lies inside the scaled picture and is centred to the pixel,
    and the scaling keeps the input's proportions up to the rounding of
    one side. *)
Theorem center_crop_covers
        (input_width input_height target_width target_height : Z) :
  0 < input_width -> 0 < input_height ->
  0 < target_width -> 0 < target_height ->
  exists scale_w scale_h crop_x crop_y : Z,
    center_crop input_width input_height target_width target_height
    = Some (scale_w, scale_h, crop_x, crop_y)
    /\ (scale_w = target_width \/ scale_h = target_height)
    /\ 0 <= crop_x /\ crop_x + target_width <= scale_w
    /\ 0 <= crop_y /\ crop_y + target_height <= scale_h
    /\ scale_w - target_width - 1 <= 2 * crop_x <= scale_w - target_width
    /\ scale_h - target_height - 1 <= 2 * crop_y <= scale_h - target_height
    /\ Z.abs (scale_w * input_height - scale_h * input_width)
       < Z.max input_width input_height.
Proof.
  intros Hiw Hih Htw Hth.
  rewrite CenterFacts.center_crop_run by assumption.
  destruct (_ <? _) eqn:E; cbv zeta.
  - apply Z.ltb_lt in E.
    set (scale_w := input_width * target_height / input_height).
    assert (Hlow : target_width <= scale_w).
    { apply Z.div_le_lower_bound; lia. }
    assert (Hm : input_height * scale_w <= input_width * target_height)
      by (apply Z.mul_div_le; lia).
    assert (Hr : input_width * target_height
                 < input_height * (scale_w + 1)).
    { replace (scale_w + 1) with (Z.succ scale_w) by lia.
      apply Z.mul_succ_div_gt; lia. }
    exists scale_w, target_height, ((scale_w - target_width) / 2), 0.
    pose proof (Z.div_mod (scale_w - target_width) 2 ltac:(lia)) as D.
    pose proof (Z.mod_pos_bound (scale_w - target_width) 2 ltac:(lia)) as B.
    repeat split; try lia. 
  - apply Z.ltb_ge in E.
    set (scale_h := input_height * target_width / input_width).
    assert (Hlow : target_height <= scale_h).
    { apply Z.div_le_lower_bound; lia. }
    assert (Hm : input_width * scale_h <= input_height * target_width)
      by (apply Z.mul_div_le; lia).
    assert (Hr : input_height * target_width
                 < input_width * (scale_h + 1)).
    { replace (scale_h + 1) with (Z.succ scale_h) by lia.
      apply Z.mul_succ_div_gt; lia. }
    exists target_width, scale_h, 0, ((scale_h - target_height) / 2).
    pose proof (Z.div_mod (scale_h - target_height) 2 ltac:(lia)) as D.
    pose proof (Z.mod_pos_bound (scale_h - target_height) 2 ltac:(lia)) as B.
    repeat split; try lia.
Qed.

Lemma center_crop_covers_witness :
  exists scale_w scale_h crop_x crop_y : Z,
    center_crop 1920 1080 1080 1920 = Some (scale_w, scale_h, crop_x, crop_y)
    /\ (scale_w = 1080 \/ scale_h = 1920)
    /\ 0 <= crop_x /\ crop_x + 1080 <= scale_w
    /\ 0 <= crop_y /\ crop_y + 1920 <= scale_h
    /\ scale_w - 1080 - 1 <= 2 * crop_x <= scale_w - 1080
    /\ scale_h - 1920 - 1 <= 2 * crop_y <= scale_h - 1920
    /\ Z.abs (scale_w * 1080 - scale_h * 1920) < Z.max 1920 1080.
Proof.
  apply (@center_crop_covers 1920 1080 1080 1920); lia.
Defined.

Module KeyFacts.

Lemma getitem_None (A : Type) (d : list (string * A)) (key : string) :
  ~ In key (map fst d) -> getitem d key = None.
Proof.
  induction d as [|[k v] rest IH]; intros Hk; [reflexivity|].
  cbn [getitem]. destruct (String.eqb k key) eqn:E.
  - apply String.eqb_eq in E. exfalso. apply Hk. left. exact E.
  - apply IH. intros Hin. apply Hk. right. exact Hin.
Qed.

Lemma getitem_In (A : Type) (d : list (string * A)) (key : string) (v : A) :
  getitem d key = Some v -> In (key, v) d.
Proof.
  induction d as [|[k w] rest IH]; intros H; [discriminate|].
  cbn [getitem] in H. destruct (String.eqb k key) eqn:E.
  - apply String.eqb_eq in E. inversion H. subst. left. reflexivity.
  - right. apply IH. exact H.
Qed.

Lemma smooth_smart_crop_video_history (world : World)
      (input_path output_path : string) (aspect_ratio : RatioArg)
      (resolution : string) (h : TrackingHistory) :
  snd (smooth_smart_crop_video world input_path output_path aspect_ratio
                               resolution h)
  = snd (analyze_video_smooth (VideoCapture world input_path)
                              (ratio_parts aspect_ratio)
                              num_samples_default h).
Proof.
  unfold smooth_smart_crop_video.
  destruct (analyze_video_smooth _ _ _ _) as [crop_data h']. reflexivity.
Qed.

Lemma smooth_smart_crop_video_key_error (world : World)
      (input_path output_path : string) (aspect_ratio : RatioArg)
      (resolution : string) (h : TrackingHistory) :
  ~ In resolution smart_crop_resolutions
  \/ ~ In (ratio_text aspect_ratio) aspect_ratios ->
  fst (smooth_smart_crop_video world input_path output_path aspect_ratio
                               resolution h) = false.
Proof.
  intros Hkey. unfold smooth_smart_crop_video.
  destruct (analyze_video_smooth _ _ _ _) as [[[crop_data|]|e] h'];
    try reflexivity.
  cbn [fst]. destruct (ffprobe world input_path) as [[iw ih]|];
    [|reflexivity].
  cbv zeta.
  match goal with
  | |- context [getitem ?d resolution] =>
      destruct (getitem d resolution) as [by_ratio|] eqn:Er
  end; [|reflexivity].
  destruct (getitem by_ratio (ratio_text aspect_ratio)) as [[tw th]|] eqn:Ea;
    [|reflexivity].
  exfalso. destruct Hkey as [Hr|Ha].
  - apply Hr. apply getitem_In in Er.
    apply (in_map fst) in Er. exact Er.
  - apply Ha. apply getitem_In in Er. apply getitem_In in Ea.
    cbn [In] in Er.
    destruct Er as [Er|[Er|[Er|[]]]]; inversion Er; subst by_ratio;
      apply (in_map fst) in Ea; exact Ea.
Qed.

End KeyFacts.

(** X18.  For a resolution outside 1080p, 720p and 480p (4K, which
    [format_video_clip] offers, is outside), or a ratio string outside
    9:16, 16:9 and 1:1, [smooth_smart_crop_video] returns False whatever
    the video shows and whatever ffprobe and ffmpeg would do; the
    analysis has run all the same and the history is the one it
    left. *)
Theorem smooth_smart_crop_video_unsupported
        (world : World) (input_path output_path : string)
        (aspect_ratio : RatioArg) (resolution : string)
        (h : TrackingHistory) :
  ~ In resolution smart_crop_resolutions
  \/ ~ In (ratio_text aspect_ratio) aspect_ratios ->
  smooth_smart_crop_video world input_path output_path aspect_ratio
                          resolution h
  = (false,
     snd (analyze_video_smooth (VideoCapture world input_path)
                               (ratio_parts aspect_ratio)
                               num_samples_default h)).
Proof.
  intros Hkey.
  rewrite (surjective_pairing (smooth_smart_crop_video _ _ _ _ _ _)).
  rewrite KeyFacts.smooth_smart_crop_video_history.
  rewrite (@KeyFacts.smooth_smart_crop_video_key_error
             world input_path output_path aspect_ratio resolution h Hkey).
  reflexivity.
Qed.

Lemma smooth_smart_crop_video_unsupported_witness :
  smooth_smart_crop_video (studio left_face 0) "in.mp4" "out.mp4"
                          nine_sixteen "4K" []
  = (false,
     snd (analyze_video_smooth left_face portrait num_samples_default [])).
Proof.
  apply (@smooth_smart_crop_video_unsupported
           (studio left_face 0) "in.mp4"%string "out.mp4"%string
           nine_sixteen "4K"%string []).
  left. cbn [In smart_crop_resolutions].
  intros [E|[E|[E|[]]]]; discriminate E.
Defined.

Module ClipFacts.

Lemma caught_true (body : option bool) :
  caught body = true -> body = Some true.
Proof. destruct body as [[|]|]; cbn; congruence. Qed.

End ClipFacts.

(** X19.  At a resolution outside 1080p, 720p and 480p, 4K included,
    [format_video_clip] returns what it returns when the cropper is not
    available: the smart crop never produces the clip, the centre crop
    or the letterbox formatter does. *)
Theorem format_video_clip_smart_crop_unused
        (world : World) (input_path output_path aspect_ratio : string)
        (resolution : string) (use_letterbox : bool)
        (h : TrackingHistory) :
  ~ In resolution smart_crop_resolutions ->
  fst (format_video_clip world input_path output_path aspect_ratio
                         resolution use_letterbox h)
  = fst (format_video_clip (without_smart_crop world) input_path
                           output_path aspect_ratio resolution
                           use_letterbox h).
Proof.
  intros Hr. unfold format_video_clip.
  destruct (use_letterbox && (aspect_ratio =? "9:16")%string);
    [reflexivity|].
  change (SMART_CROP_AVAILABLE (without_smart_crop world)) with false.
  cbn [andb].
  destruct (SMART_CROP_AVAILABLE world && (aspect_ratio =? "9:16")%string
            && negb use_letterbox); [|reflexivity].
  pose proof (@KeyFacts.smooth_smart_crop_video_key_error
                world input_path output_path
                (mkRatioArg aspect_ratio (mkAspectRatio 9 16))
                resolution h (or_introl Hr)) as Hf.
  destruct (smooth_smart_crop_video _ _ _ _ _ _) as [cropped h'].
  cbn [fst] in Hf. subst cropped. reflexivity.
Qed.

Lemma format_video_clip_smart_crop_unused_witness :
  fst (format_video_clip (studio left_face 0) "in.mp4" "out.mp4"
                         "9:16" "4K" false [])
  = fst (format_video_clip (without_smart_crop (studio left_face 0))
                           "in.mp4" "out.mp4" "9:16" "4K" false []).
Proof.
  apply (@format_video_clip_smart_crop_unused
           (studio left_face 0) "in.mp4"%string "out.mp4"%string
           "9:16"%string "4K"%string false []).
  cbn [In smart_crop_resolutions].
  intros [E|[E|[E|[]]]]; discriminate E.
Defined.

(** The analysis runs all the same: the 4K clip is made by the centre
    crop, and the history of the cropper has grown. *)
Example unused_smart_crop_still_tracks :
  format_video_clip (studio left_face 0) "in.mp4" "out.mp4"
                    "9:16" "4K" false []
  = (true, repeat (140, 540) 10)
  /\ format_video_clip (without_smart_crop (studio left_face 0))
                       "in.mp4" "out.mp4" "9:16" "4K" false []
     = (true, []).
Proof. split; vm_compute; reflexivity. Qed.

(** X20.  With a resolution outside 4K, 1080p, 720p and 480p, or a
    ratio outside 9:16, 16:9 and 1:1, [format_video_clip] returns False
    on every path: the missing key is caught, never raised to the
    caller. *)
Theorem format_video_clip_unknown_key
        (world : World) (input_path output_path aspect_ratio : string)
        (resolution : string) (use_letterbox : bool)
        (h : TrackingHistory) :
  ~ In resolution resolutions \/ ~ In aspect_ratio aspect_ratios ->
  fst (format_video_clip world input_path output_path aspect_ratio
                         resolution use_letterbox h) = false.
Proof.
  intros Hkey. unfold format_video_clip.
  destruct (use_letterbox && (aspect_ratio =? "9:16")%string) eqn:El.
  - cbn [fst]. apply andb_true_iff in El. destruct El as [_ Ea].
    apply String.eqb_eq in Ea.
    destruct Hkey as [Hr|Ha]; [|exfalso; apply Ha; subst; cbn; tauto].
    unfold format_video_with_letterbox. cbv zeta.
    rewrite KeyFacts.getitem_None by exact Hr. reflexivity.
  - assert (Hs : forall b hh,
               (if SMART_CROP_AVAILABLE world
                   && (aspect_ratio =? "9:16")%string && negb use_letterbox
                then smooth_smart_crop_video
                       world input_path output_path
                       (mkRatioArg aspect_ratio (mkAspectRatio 9 16))
                       resolution h
                else (false, h)) = (b, hh) -> b = false).
    { intros b hh. destruct (_ && _ && _); [|congruence].
      intros E.
      assert (Hk : ~ In resolution smart_crop_resolutions
                   \/ ~ In aspect_ratio aspect_ratios).
      { destruct Hkey as [Hr|Ha]; [left|right; exact Ha].
        intros Hin. apply Hr. right. exact Hin. }
      pose proof (@KeyFacts.smooth_smart_crop_video_key_error
                    world input_path output_path
                    (mkRatioArg aspect_ratio (mkAspectRatio 9 16))
                    resolution h Hk) as Hf.
      rewrite E in Hf. exact Hf. }
    destruct (if _ && _ && _ then _ else _) as [cropped h'] eqn:Ec.
    rewrite (Hs _ _ eq_refl). cbn [fst].
    destruct (get_video_dimensions world input_path) as [[iw ih]|];
      [|reflexivity].
    destruct ((iw =? 0) || (ih =? 0)); [reflexivity|].
    cbv zeta.
    match goal with
    | |- context [getitem ?d resolution] =>
        destruct (getitem d resolution) as [by_ratio|] eqn:Er
    end; [|reflexivity].
    destruct (getitem by_ratio aspect_ratio) as [[tw th]|] eqn:Ea;
      [|reflexivity].
    exfalso. apply KeyFacts.getitem_In in Er. apply KeyFacts.getitem_In in Ea.
    destruct Hkey as [Hr|Ha].
    + apply Hr. apply (in_map fst) in Er. exact Er.
    + apply Ha. cbn [In] in Er.
      destruct Er as [Er|[Er|[Er|[Er|[]]]]]; inversion Er; subst by_ratio;
        apply (in_map fst) in Ea; exact Ea.
Qed.

Lemma format_video_clip_unknown_key_witness :
  fst (format_video_clip (studio left_face 0) "in.mp4" "out.mp4"
                         "4:3" "1080p" true []) = false.
Proof.
  apply (@format_video_clip_unknown_key
           (studio left_face 0) "in.mp4"%string "out.mp4"%string
           "4:3"%string "1080p"%string true []).
  right. cbn [In aspect_ratios].
  intros [E|[E|[E|[]]]]; discriminate E.
Defined.

(** Case analysis on the steps of a body under a handler that returned
    a value. *)
Ltac open_handler H :=
  repeat match type of H with
         | (match ?m with _ => _ end) = _ =>
             let E := fresh "E" in
             destruct m eqn:E; try discriminate H
         | (if ?b then _ else _) = _ =>
             let E := fresh "E" in
             destruct b eqn:E; try discriminate H
         end.

Module RunFacts.

Lemma exit_zero (returncode : Z) :
  Some (returncode =? 0) = Some true -> returncode = 0.
Proof. intros H. inversion H as [E]. now apply Z.eqb_eq. Qed.

Lemma smooth_smart_crop_video_true (world : World)
      (input_path output_path : string) (aspect_ratio : RatioArg)
      (resolution : string) (h : TrackingHistory) :
  fst (smooth_smart_crop_video world input_path output_path aspect_ratio
                               resolution h) = true ->
  exists cmd timeout,
    subprocess_run world cmd timeout = Some 0
    /\ ffmpeg_from_to input_path output_path cmd.
Proof.
  unfold smooth_smart_crop_video.
  destruct (analyze_video_smooth _ _ _ _) as [[[crop_data|]|e] h'];
    cbn [fst]; try discriminate.
  intros H. apply ClipFacts.caught_true in H.
  destruct (letterbox crop_data) eqn:El; cbv beta iota zeta in H.
  all: open_handler H.
  all: apply exit_zero in H; subst.
  all: eexists; eexists; split; [eassumption|].
  all: split; [reflexivity|].
  all: match goal with
       | |- exists options, ?l = _ => exists (firstn 15 l); reflexivity
       end.
Qed.

End RunFacts.

(** X21.  [format_video_clip] returns True only when an ffmpeg command
    that reads [input_path] and writes [output_path] has exited with
    code 0, on the letterbox path, the smart-crop path and the
    centre-crop path alike. *)
Theorem format_video_clip_success
        (world : World) (input_path output_path aspect_ratio : string)
        (resolution : string) (use_letterbox : bool)
        (h : TrackingHistory) :
  fst (format_video_clip world input_path output_path aspect_ratio
                         resolution use_letterbox h) = true ->
  exists (cmd : list string) (timeout : Z),
    subprocess_run world cmd timeout = Some 0
    /\ ffmpeg_from_to input_path output_path cmd.
Proof.
  unfold format_video_clip.
  destruct (use_letterbox && (aspect_ratio =? "9:16")%string).
  - cbn [fst]. unfold format_video_with_letterbox. intros H.
    apply ClipFacts.caught_true in H. cbv zeta in H.
    open_handler H. apply RunFacts.exit_zero in H. subst.
    eexists; eexists; split; [eassumption|].
    split; [reflexivity|].
    match goal with
    | |- exists options, ?l = _ => exists (firstn 23 l); reflexivity
    end.
  - destruct (SMART_CROP_AVAILABLE world && (aspect_ratio =? "9:16")%string
              && negb use_letterbox).
    + pose proof (@RunFacts.smooth_smart_crop_video_true
                    world input_path output_path
                    (mkRatioArg aspect_ratio (mkAspectRatio 9 16))
                    resolution h) as Hsmart.
      destruct (smooth_smart_crop_video _ _ _ _ _ _) as [[|] h'].
      * intros _. apply Hsmart. reflexivity.
      * clear Hsmart. cbn [fst]. intros H.
        apply ClipFacts.caught_true in H. cbv zeta in H.
        open_handler H. apply RunFacts.exit_zero in H. subst.
        eexists; eexists; split; [eassumption|].
        split; [reflexivity|].
        match goal with
        | |- exists options, ?l = _ => exists (firstn 23 l); reflexivity
        end.
    + cbn [fst]. intros H.
      apply ClipFacts.caught_true in H. cbv zeta in H.
      open_handler H. apply RunFacts.exit_zero in H. subst.
      eexists; eexists; split; [eassumption|].
      split; [reflexivity|].
      match goal with
      | |- exists options, ?l = _ => exists (firstn 23 l); reflexivity
      end.
Qed.

Lemma format_video_clip_success_witness :
  exists (cmd : list string) (timeout : Z),
    subprocess_run (studio left_face 0) cmd timeout = Some 0
    /\ ffmpeg_from_to "in.mp4" "out.mp4" cmd.
Proof.
  apply (@format_video_clip_success
           (studio left_face 0) "in.mp4"%string "out.mp4"%string
           "9:16"%string "1080p"%string false []).
  vm_compute. reflexivity.
Defined.
